(** * ec2_elb_lb: reconciliation of an Elastic Load Balancer

    A shallow embedding of [cloud/amazon/ec2_elb_lb.py] (class [ElbManager])
    and the properties of its reconciliation steps.

    The Python object [self] becomes the record [ElbManager]; its methods
    become functions in a state-and-exit monad [M] over that record.  The
    provider client ([boto.ec2.elb] talking to the ELB service) is not part
    of the module: it is represented by the connection record [provider.Conn],
    which holds the load balancers of the region, the chronological log of
    the calls received, and the fault (if any) the service raises on zone
    calls.  Every call is appended to the log, and a call that succeeds
    takes effect on the region at once. *)

From Stdlib Require Import ZArith String Ascii List Lia DecimalString.
From stdpp Require Import base gmap sets list strings.

Local Open Scope string_scope.
Local Open Scope Z_scope.
Local Open Scope list_scope.
Local Open Scope stdpp_scope.

(** ** Python values and string operations *)

(** The dynamically typed scalars that occur in listener tuples, health
    check descriptors and policy parameters. *)
Inductive value :=
| VNone
| VInt (n : Z)
| VStr (s : string).

#[global] Instance value_eq_dec : EqDecision value.
Proof. solve_decision. Defined.

(** [str(v)] *)
Definition py_str (v : value) : string :=
  match v with
  | VNone => "None"
  | VInt n => NilZero.string_of_int (Z.to_int n)
  | VStr s => s
  end.

(** The lower-case ASCII letters, [a] to [z]. *)
Definition is_lower (c : ascii) : bool :=
  let n := nat_of_ascii c in ((97 <=? n) && (n <=? 122))%nat.

(** [c.upper()] on one character: the lower-case ASCII letters move to
    upper case, every other character stays. *)
Definition upper_ascii (c : ascii) : ascii :=
  if is_lower c then ascii_of_nat (nat_of_ascii c - 32) else c.

(** [s.upper()] *)
Fixpoint upper (s : string) : string :=
  match s with
  | EmptyString => EmptyString
  | String c r => String (upper_ascii c) (upper r)
  end.

(** [s.startswith(p)] *)
Definition startswith (s p : string) : bool := String.prefix p s.

(** [p in s] on strings *)
Definition contains (s p : string) : bool :=
  match String.index 0 p s with
  | Some _ => true
  | None => false
  end.

(** [s.replace(a, b)] for single characters *)
Fixpoint replace (a b : ascii) (s : string) : string :=
  match s with
  | EmptyString => EmptyString
  | String c r => String (if Ascii.eqb c a then b else c) (replace a b r)
  end.

(** [s.split(sep)[-1]]: the part of [s] after the last [sep]. *)
Fixpoint split_last (sep : ascii) (s : string) : string :=
  match s with
  | EmptyString => EmptyString
  | String c r =>
      if Ascii.eqb c sep then split_last sep r
      else if contains r (String sep EmptyString) then split_last sep r
      else s
  end.

(** A Python tuple of scalars. *)
Definition ListenerTuple := list value.

(** ** The provider library *)

Module boto.

(** [boto.ec2.elb.listener.Listener]; [policy_names] are the policies
    the service has attached to the listener. *)
Record Listener := {
  load_balancer_port : Z;
  instance_port : Z;
  protocol : string;
  instance_protocol : string;
  ssl_certificate_id : option string;
  policy_names : list string
}.

(** [listener.get_complex_tuple()] *)
Definition get_complex_tuple (l : Listener) : ListenerTuple :=
  [VInt (load_balancer_port l); VInt (instance_port l);
   VStr (protocol l); VStr (instance_protocol l)].

(** [listener[0]] and [listener[2]] *)
Definition item0 (l : Listener) : Z := load_balancer_port l.
Definition item2 (l : Listener) : string := protocol l.

(** [boto.ec2.elb.healthcheck.HealthCheck] *)
Record HealthCheck := {
  target : value;
  timeout : value;
  interval : value;
  unhealthy_threshold : value;
  healthy_threshold : value
}.

(** A cookie stickiness policy as the module reads it:
    [p.__dict__['policy_name']] and [p.__dict__[dict_key]], where
    [dict_key] is [cookie_expiration_period] for a load-balancer cookie
    policy and [cookie_name] for an application cookie policy. *)
Record Policy := {
  policy_name : string;
  policy_param : value
}.

Record Policies := {
  lb_cookie_stickiness_policies : list Policy;
  app_cookie_stickiness_policies : list Policy
}.

(** [attributes.connection_draining] *)
Record ConnectionDraining := {
  draining_enabled : bool;
  draining_timeout : value
}.

(** [LbAttributes] *)
Record LbAttributes := {
  connection_draining : ConnectionDraining;
  cross_zone_load_balancing_enabled : bool
}.

(** [boto.ec2.elb.loadbalancer.LoadBalancer] *)
Record LoadBalancer := {
  name : string;
  availability_zones : list string;
  security_groups : list string;
  listeners : list Listener;
  subnets : list string;
  scheme : string;
  health_check : option HealthCheck;
  policies : Policies;
  attributes : LbAttributes
}.

End boto.

(** ** The module parameters (YAML mappings) *)

Module params.

(** One entry of [listeners]; an optional key that is absent is [None]. *)
Record Listener := {
  load_balancer_port : Z;
  instance_port : Z;
  protocol : string;
  instance_protocol : option string;
  ssl_certificate_id : option value
}.

(** [health_check] *)
Record HealthCheck := {
  ping_protocol : string;
  ping_port : value;
  ping_path : option string;
  response_timeout : value;
  interval : value;
  unhealthy_threshold : value;
  healthy_threshold : value
}.

(** [stickiness]; [enabled] is [None] when the value given equals
    neither [True] nor [False]. *)
Record Stickiness := {
  type : string;
  enabled : option bool;
  expiration : option value;
  cookie : option value
}.

End params.

(** [bool(v)] *)
Definition truthy (v : value) : bool :=
  match v with
  | VNone => false
  | VInt n => negb (n =? 0)
  | VStr s => negb (String.eqb s "")
  end.

(** ** Provider calls and their effect on the region *)

(** The value handed to [modify_lb_attribute]. *)
Inductive AttrValue :=
| AttrBool (b : bool)
| AttrDraining (d : boto.ConnectionDraining).

(** The calls the module makes on the connection (or on the load balancer
    object, which forwards them to the connection). *)
Inductive Call :=
| get_all_load_balancers (lb_name : option string)
| create_load_balancer (lb_name : string) (zones : option (list string))
    (security_groups : option (list string))
    (complex_listeners : list ListenerTuple)
    (subnets : option (list string)) (scheme : string)
| delete_load_balancer (lb_name : string)
| create_load_balancer_listeners (lb_name : string)
    (complex_listeners : list ListenerTuple)
| delete_load_balancer_listeners (lb_name : string) (ports : list value)
| enable_zones (lb_name : string) (zones : list string)
| disable_zones (lb_name : string) (zones : list string)
| attach_lb_to_subnets (lb_name : string) (subnets : list string)
| detach_lb_from_subnets (lb_name : string) (subnets : list string)
| apply_security_groups_to_lb (lb_name : string) (groups : list string)
| configure_health_check (lb_name : string) (hc : boto.HealthCheck)
| get_attributes (lb_name : string)
| get_lb_attribute (lb_name : string) (attr : string)
| describe_instance_health (lb_name : string)
| modify_lb_attribute (lb_name : string) (attr : string) (v : AttrValue)
| create_cookie_stickiness_policy (meth : string) (param : value)
    (lb_name : string) (policy : string)
| delete_lb_policy (lb_name : string) (policy : string)
| set_lb_policies_of_listener (lb_name : string) (port : Z)
    (policy : list string).

(** The calls that change the live resource; the remaining ones only
    read it. *)
Definition is_mutation (c : Call) : bool :=
  match c with
  | get_all_load_balancers _ | get_attributes _
  | get_lb_attribute _ _ | describe_instance_health _ => false
  | _ => true
  end.

Module provider.
Import boto.

Definition with_zones (z : list string) (lb : LoadBalancer) : LoadBalancer :=
  {| name := name lb; availability_zones := z;
     security_groups := security_groups lb; listeners := listeners lb;
     subnets := subnets lb; scheme := scheme lb;
     health_check := health_check lb; policies := policies lb;
     attributes := attributes lb |}.

Definition with_security_groups (g : list string) (lb : LoadBalancer)
  : LoadBalancer :=
  {| name := name lb; availability_zones := availability_zones lb;
     security_groups := g; listeners := listeners lb;
     subnets := subnets lb; scheme := scheme lb;
     health_check := health_check lb; policies := policies lb;
     attributes := attributes lb |}.

Definition with_listeners (l : list Listener) (lb : LoadBalancer)
  : LoadBalancer :=
  {| name := name lb; availability_zones := availability_zones lb;
     security_groups := security_groups lb; listeners := l;
     subnets := subnets lb; scheme := scheme lb;
     health_check := health_check lb; policies := policies lb;
     attributes := attributes lb |}.

Definition with_subnets (s : list string) (lb : LoadBalancer) : LoadBalancer :=
  {| name := name lb; availability_zones := availability_zones lb;
     security_groups := security_groups lb; listeners := listeners lb;
     subnets := s; scheme := scheme lb;
     health_check := health_check lb; policies := policies lb;
     attributes := attributes lb |}.

Definition with_health_check (h : option HealthCheck) (lb : LoadBalancer)
  : LoadBalancer :=
  {| name := name lb; availability_zones := availability_zones lb;
     security_groups := security_groups lb; listeners := listeners lb;
     subnets := subnets lb; scheme := scheme lb;
     health_check := h; policies := policies lb;
     attributes := attributes lb |}.

Definition with_policies (p : Policies) (lb : LoadBalancer) : LoadBalancer :=
  {| name := name lb; availability_zones := availability_zones lb;
     security_groups := security_groups lb; listeners := listeners lb;
     subnets := subnets lb; scheme := scheme lb;
     health_check := health_check lb; policies := p;
     attributes := attributes lb |}.

Definition with_attributes (a : LbAttributes) (lb : LoadBalancer)
  : LoadBalancer :=
  {| name := name lb; availability_zones := availability_zones lb;
     security_groups := security_groups lb; listeners := listeners lb;
     subnets := subnets lb; scheme := scheme lb;
     health_check := health_check lb; policies := policies lb;
     attributes := a |}.

Definition with_policy_names (p : list string) (l : Listener) : Listener :=
  {| load_balancer_port := load_balancer_port l;
     instance_port := instance_port l; protocol := protocol l;
     instance_protocol := instance_protocol l;
     ssl_certificate_id := ssl_certificate_id l; policy_names := p |}.

(** Apply [f] to the load balancer called [n]. *)
Definition on_lb (n : string) (f : LoadBalancer -> LoadBalancer)
    (lbs : list LoadBalancer) : list LoadBalancer :=
  map (fun lb => if String.eqb (name lb) n then f lb else lb) lbs.

(** The listener the service makes of a 4- or 5-tuple. *)
Definition listener_of_tuple (t : ListenerTuple) : option Listener :=
  match t with
  | [VInt lp; VInt ip; VStr p; VStr q] =>
      Some {| load_balancer_port := lp; instance_port := ip; protocol := p;
              instance_protocol := q; ssl_certificate_id := None;
              policy_names := [] |}
  | [VInt lp; VInt ip; VStr p; VStr q; c] =>
      Some {| load_balancer_port := lp; instance_port := ip; protocol := p;
              instance_protocol := q; ssl_certificate_id := Some (py_str c);
              policy_names := [] |}
  | _ => None
  end.

Definition on_port (ports : list Z) (l : Listener) : bool :=
  bool_decide (load_balancer_port l ∈ ports).

Definition default_attributes : LbAttributes :=
  {| connection_draining :=
       {| draining_enabled := false; draining_timeout := VInt 300 |};
     cross_zone_load_balancing_enabled := false |}.

Definition or_empty {A} (o : option (list A)) : list A :=
  match o with Some l => l | None => [] end.

(** What a call does to the load balancers of the region. *)
Definition effect (c : Call) (lbs : list LoadBalancer) : list LoadBalancer :=
  match c with
  | get_all_load_balancers _ | get_attributes _
  | get_lb_attribute _ _ | describe_instance_health _ => lbs
  | create_load_balancer n z g ls s sch =>
      lbs ++ [{| name := n; availability_zones := or_empty z;
                 security_groups := or_empty g;
                 listeners := omap listener_of_tuple ls;
                 subnets := or_empty s; scheme := sch;
                 health_check := None;
                 policies := {| lb_cookie_stickiness_policies := [];
                                app_cookie_stickiness_policies := [] |};
                 attributes := default_attributes |}]
  | delete_load_balancer n =>
      List.filter (fun lb => negb (String.eqb (name lb) n)) lbs
  | create_load_balancer_listeners n ls =>
      let new := omap listener_of_tuple ls in
      on_lb n (fun lb =>
        with_listeners
          (List.filter (fun l => negb (on_port (map load_balancer_port new) l))
             (listeners lb) ++ new) lb) lbs
  | delete_load_balancer_listeners n ports =>
      on_lb n (fun lb =>
        with_listeners
          (List.filter
             (fun l => negb (bool_decide (VInt (load_balancer_port l) ∈ ports)))
             (listeners lb)) lb) lbs
  | enable_zones n zs =>
      on_lb n (fun lb =>
        with_zones
          (availability_zones lb ++
           List.filter (fun z => negb (bool_decide (z ∈ availability_zones lb))) zs)
          lb) lbs
  | disable_zones n zs =>
      on_lb n (fun lb =>
        with_zones
          (List.filter (fun z => negb (bool_decide (z ∈ zs)))
             (availability_zones lb)) lb) lbs
  | attach_lb_to_subnets n ss =>
      on_lb n (fun lb =>
        with_subnets
          (subnets lb ++
           List.filter (fun z => negb (bool_decide (z ∈ subnets lb))) ss) lb) lbs
  | detach_lb_from_subnets n ss =>
      on_lb n (fun lb =>
        with_subnets
          (List.filter (fun z => negb (bool_decide (z ∈ ss))) (subnets lb))
          lb) lbs
  | apply_security_groups_to_lb n g => on_lb n (with_security_groups g) lbs
  | configure_health_check n hc => on_lb n (with_health_check (Some hc)) lbs
  | modify_lb_attribute n attr v =>
      on_lb n (fun lb =>
        match v with
        | AttrDraining d =>
            if String.eqb attr "ConnectionDraining" then
              with_attributes
                {| connection_draining := d;
                   cross_zone_load_balancing_enabled :=
                     cross_zone_load_balancing_enabled (attributes lb) |} lb
            else lb
        | AttrBool b =>
            if String.eqb attr "CrossZoneLoadBalancing" then
              with_attributes
                {| connection_draining := connection_draining (attributes lb);
                   cross_zone_load_balancing_enabled := b |} lb
            else lb
        end) lbs
  | create_cookie_stickiness_policy meth param n pol =>
      on_lb n (fun lb =>
        let p := {| policy_name := pol; policy_param := param |} in
        let ps := policies lb in
        if String.eqb meth "create_lb_cookie_stickiness_policy" then
          with_policies
            {| lb_cookie_stickiness_policies :=
                 lb_cookie_stickiness_policies ps ++ [p];
               app_cookie_stickiness_policies :=
                 app_cookie_stickiness_policies ps |} lb
        else if String.eqb meth "create_app_cookie_stickiness_policy" then
          with_policies
            {| lb_cookie_stickiness_policies :=
                 lb_cookie_stickiness_policies ps;
               app_cookie_stickiness_policies :=
                 app_cookie_stickiness_policies ps ++ [p] |} lb
        else lb) lbs
  | delete_lb_policy n pol =>
      on_lb n (fun lb =>
        let keep := List.filter
                      (fun p => negb (String.eqb (policy_name p) pol)) in
        let ps := policies lb in
        with_policies
          {| lb_cookie_stickiness_policies :=
               keep (lb_cookie_stickiness_policies ps);
             app_cookie_stickiness_policies :=
               keep (app_cookie_stickiness_policies ps) |} lb) lbs
  | set_lb_policies_of_listener n port pol =>
      on_lb n (fun lb =>
        with_listeners
          (map (fun l => if load_balancer_port l =? port
                         then with_policy_names pol l else l)
             (listeners lb)) lb) lbs
  end.

(** [elb_conn]: the region, the calls received so far in the order they
    arrived, and the [error_message] of the [BotoServerError] the service
    answers zone calls with ([None] when it accepts them). *)
Record Conn := {
  region_lbs : list LoadBalancer;
  log : list Call;
  zone_fault : option string
}.

(** The connection after a successful call. *)
Definition received (c : Call) (conn : Conn) : Conn :=
  {| region_lbs := effect c (region_lbs conn);
     log := log conn ++ [c];
     zone_fault := zone_fault conn |}.

(** The connection after a call the service refused. *)
Definition refused (c : Call) (conn : Conn) : Conn :=
  {| region_lbs := region_lbs conn;
     log := log conn ++ [c];
     zone_fault := zone_fault conn |}.

End provider.

(** ** The manager object and its monad *)

Inductive Status := gone | ok | deleted | created.

(** The constructor arguments of [ElbManager]: the desired configuration.
    [connection_draining_timeout] and [cross_az_load_balancing] are passed
    on untyped by the argument specification, hence [value]. *)
Record Desired := {
  name : string;
  listeners : option (list params.Listener);
  purge_listeners : bool;
  zones : option (list string);
  purge_zones : bool;
  security_group_ids : option (list string);
  health_check : option params.HealthCheck;
  subnets : option (list string);
  purge_subnets : bool;
  scheme : string;
  connection_draining_timeout : value;
  cross_az_load_balancing : value;
  stickiness : option params.Stickiness
}.

(** What the module takes from its runtime and from the installed boto:
    [__file__], the attribute names an [LbAttributes()] object has, and the
    object [HealthCheck()] constructs. *)
Record Runtime := {
  file : string;
  lb_attribute_names : list string;
  new_HealthCheck : boto.HealthCheck
}.

(** [self].  [Changed] is the attribute of that spelling; it does not
    exist ([None]) until something assigns it. *)
Record ElbManager := {
  args : Desired;
  runtime : Runtime;
  changed : bool;
  Changed : option bool;
  status : Status;
  elb_conn : provider.Conn;
  elb : option boto.LoadBalancer
}.

Definition set_changed (b : bool) (self : ElbManager) : ElbManager :=
  {| args := args self; runtime := runtime self; changed := b;
     Changed := Changed self; status := status self;
     elb_conn := elb_conn self; elb := elb self |}.

Definition set_Changed (b : bool) (self : ElbManager) : ElbManager :=
  {| args := args self; runtime := runtime self; changed := changed self;
     Changed := Some b; status := status self;
     elb_conn := elb_conn self; elb := elb self |}.

Definition set_status (s : Status) (self : ElbManager) : ElbManager :=
  {| args := args self; runtime := runtime self; changed := changed self;
     Changed := Changed self; status := s;
     elb_conn := elb_conn self; elb := elb self |}.

Definition set_elb_conn (c : provider.Conn) (self : ElbManager) : ElbManager :=
  {| args := args self; runtime := runtime self; changed := changed self;
     Changed := Changed self; status := status self;
     elb_conn := c; elb := elb self |}.

Definition set_elb (e : option boto.LoadBalancer) (self : ElbManager)
  : ElbManager :=
  {| args := args self; runtime := runtime self; changed := changed self;
     Changed := Changed self; status := status self;
     elb_conn := elb_conn self; elb := e |}.

(** How a method ends: it returns, the module exits through
    [module.fail_json], or an exception escapes. *)
Inductive Outcome (A : Type) :=
| Return (a : A) (self : ElbManager)
| Exit (msg : string) (self : ElbManager)
| Raise (exc : string) (self : ElbManager).
Arguments Return {A} a self.
Arguments Exit {A} msg self.
Arguments Raise {A} exc self.

Definition M (A : Type) : Type := ElbManager -> Outcome A.

#[global] Instance M_ret : MRet M := fun A a self => Return a self.

#[global] Instance M_bind : MBind M := fun A B f m self =>
  match m self with
  | Return a self' => f a self'
  | Exit msg self' => Exit msg self'
  | Raise exc self' => Raise exc self'
  end.

Definition get : M ElbManager := fun self => Return self self.
Definition modify (f : ElbManager -> ElbManager) : M unit :=
  fun self => Return tt (f self).
Definition fail_json {A} (msg : string) : M A := fun self => Exit msg self.
Definition raise {A} (exc : string) : M A := fun self => Raise exc self.

(** The manager at the end, whichever way the method ended. *)
Definition final {A} (o : Outcome A) : ElbManager :=
  match o with
  | Return _ self | Exit _ self | Raise _ self => self
  end.

(** A provider call that succeeds. *)
Definition call (c : Call) : M unit :=
  modify (fun self => set_elb_conn (provider.received c (elb_conn self)) self).

(** A provider call the service refuses. *)
Definition refused_call (c : Call) : M unit :=
  modify (fun self => set_elb_conn (provider.refused c (elb_conn self)) self).

(** [self.elb.<attribute>]: an [AttributeError] when [self.elb] is [None]. *)
Definition the_elb : M boto.LoadBalancer := fun self =>
  match elb self with
  | Some lb => Return lb self
  | None => Raise "AttributeError" self
  end.

(** [for x in l: body(x)] *)
Fixpoint for_each {A} (l : list A) (body : A -> M unit) : M unit :=
  match l with
  | [] => mret tt
  | x :: rest => body x;; for_each rest body
  end.

(** [if c: body] *)
Definition when (c : bool) (body : M unit) : M unit :=
  if c then body else mret tt.

(** The load balancers of the region called [n], in the order the service
    lists them. *)
Definition named (n : string) (lbs : list boto.LoadBalancer)
  : list boto.LoadBalancer :=
  List.filter (fun lb => String.eqb (boto.name lb) n) lbs.

(** ** Listener tuples *)

(** [_api_listener_as_tuple]: adds [ssl_certificate_id] to the API tuple
    if present. *)
Definition _api_listener_as_tuple (listener : boto.Listener) : ListenerTuple :=
  let base_tuple := boto.get_complex_tuple listener in
  match boto.ssl_certificate_id listener with
  | Some cert =>
      if negb (String.eqb cert "") && (Z.of_nat (length base_tuple) <? 5)
      then base_tuple ++ [VStr cert]
      else base_tuple
  | None => base_tuple
  end.

(** [_listener_as_tuple]: formats a listener as a 4- or 5-tuple, in the
    order specified by the ELB API. *)
Definition _listener_as_tuple (listener : params.Listener) : ListenerTuple :=
  let listener_list :=
    [VInt (params.load_balancer_port listener);
     VInt (params.instance_port listener);
     VStr (upper (params.protocol listener))] in
  let listener_list :=
    match params.instance_protocol listener with
    | Some p => listener_list ++ [VStr (upper p)]
    | None => listener_list ++ [VStr (upper (params.protocol listener))]
    end in
  match params.ssl_certificate_id listener with
  | Some c => listener_list ++ [VStr (py_str c)]
  | None => listener_list
  end.

(** ** Listener reconciliation *)

(** The three work lists of [_set_elb_listeners]. *)
Record ListenerPlan := {
  listeners_to_add : list ListenerTuple;
  listeners_to_remove : list ListenerTuple;
  listeners_to_keep : list ListenerTuple
}.

(** The inner loop: the tuple of the first existing listener on the
    port, [None] when the loop ends without a match. *)
Fixpoint existing_listener_found (existing : list boto.Listener) (port : Z)
  : option ListenerTuple :=
  match existing with
  | [] => None
  | existing_listener :: rest =>
      if boto.item0 existing_listener =? port
      then Some (_api_listener_as_tuple existing_listener)
      else existing_listener_found rest port
  end.

(** One round of the loop over [self.listeners]. *)
Definition check_listener (existing : list boto.Listener)
    (plan : ListenerPlan) (listener : params.Listener) : ListenerPlan :=
  let listener_as_tuple := _listener_as_tuple listener in
  match existing_listener_found existing (params.load_balancer_port listener) with
  | Some ((_ :: _) as found) =>
      if bool_decide (listener_as_tuple ≠ found) then
        {| listeners_to_add := listeners_to_add plan ++ [listener_as_tuple];
           listeners_to_remove := listeners_to_remove plan ++ [found];
           listeners_to_keep := listeners_to_keep plan |}
      else
        {| listeners_to_add := listeners_to_add plan;
           listeners_to_remove := listeners_to_remove plan;
           listeners_to_keep := listeners_to_keep plan ++ [found] |}
  | _ =>
      {| listeners_to_add := listeners_to_add plan ++ [listener_as_tuple];
         listeners_to_remove := listeners_to_remove plan;
         listeners_to_keep := listeners_to_keep plan |}
  end.

(** One round of the loop over [self.elb.listeners] under
    [purge_listeners]. *)
Definition purge_listener (plan : ListenerPlan)
    (existing_listener : boto.Listener) : ListenerPlan :=
  let existing_listener_tuple := _api_listener_as_tuple existing_listener in
  if bool_decide (existing_listener_tuple ∈ listeners_to_remove plan) then plan
  else if bool_decide (existing_listener_tuple ∈ listeners_to_keep plan) then plan
  else
    {| listeners_to_add := listeners_to_add plan;
       listeners_to_remove := listeners_to_remove plan ++ [existing_listener_tuple];
       listeners_to_keep := listeners_to_keep plan |}.

Definition empty_plan : ListenerPlan :=
  {| listeners_to_add := []; listeners_to_remove := []; listeners_to_keep := [] |}.

(** The work lists after the first loop. *)
Definition checked_plan (desired : list params.Listener)
    (existing : list boto.Listener) : ListenerPlan :=
  fold_left (check_listener existing) desired empty_plan.

(** The work lists at the end of both loops. *)
Definition listener_plan (desired : list params.Listener) (purge : bool)
    (existing : list boto.Listener) : ListenerPlan :=
  let plan := checked_plan desired existing in
  if purge then fold_left purge_listener existing plan else plan.

(** [_create_elb_listeners]: takes a list of listener tuples and creates
    them.  [changed] takes the answer of the call, which is [True] when
    the call succeeds. *)
Definition _create_elb_listeners (ls : list ListenerTuple) : M unit :=
  self ← get;
  call (create_load_balancer_listeners (name (args self)) ls);;
  modify (set_changed true).

(** [[l[0] for l in listeners]]; an empty tuple has no item 0. *)
Definition ports_of (ls : list ListenerTuple) : option (list value) :=
  mapM head ls.

(** [_delete_elb_listeners]: takes a list of listener tuples and deletes
    them from the elb.  [changed] takes the answer of the call, which is
    [True] when the call succeeds. *)
Definition _delete_elb_listeners (ls : list ListenerTuple) : M unit :=
  match ports_of ls with
  | Some ports =>
      self ← get;
      call (delete_load_balancer_listeners (name (args self)) ports);;
      modify (set_changed true)
  | None => raise "IndexError"
  end.

(** [_set_elb_listeners]: creates listeners specified by [self.listeners];
    overwrites existing listeners on these ports; removes extraneous
    listeners. *)
Definition _set_elb_listeners : M unit :=
  self ← get;
  match listeners (args self) with
  | None => raise "TypeError"
  | Some desired =>
      (* [self.elb.listeners] is read in the bodies of the two loops only:
         with nothing desired and no purge it is not read at all *)
      if bool_decide (desired = []) && negb (purge_listeners (args self))
      then mret tt
      else
        lb ← the_elb;
        let plan :=
          listener_plan desired (purge_listeners (args self)) (boto.listeners lb) in
        when (negb (bool_decide (listeners_to_remove plan = [])))
          (_delete_elb_listeners (listeners_to_remove plan));;
        when (negb (bool_decide (listeners_to_add plan = [])))
          (_create_elb_listeners (listeners_to_add plan))
  end.

(** ** Zones, subnets and security groups *)

(** What [_enable_zones] and [_disable_zones] do with the
    [BotoServerError] of a refused zone call. *)
Definition zone_error {A} (error_message : string) : M A :=
  if contains error_message "Invalid Availability Zone"
  then fail_json error_message
  else fail_json "an unknown server error occurred, please try again later".

(** [self.elb.enable_zones] and [self.elb.disable_zones] store the zone
    list the service answers with in the load balancer object. *)
Definition refresh_zones (lb : boto.LoadBalancer) : M unit :=
  modify (fun self =>
    match named (boto.name lb) (provider.region_lbs (elb_conn self)) with
    | live :: _ =>
        set_elb (Some (provider.with_zones (boto.availability_zones live) lb)) self
    | [] => self
    end).

Definition _enable_zones (zs : list string) : M unit :=
  lb ← the_elb;
  self ← get;
  match provider.zone_fault (elb_conn self) with
  | Some error_message =>
      refused_call (enable_zones (boto.name lb) zs);;
      zone_error error_message
  | None =>
      call (enable_zones (boto.name lb) zs);;
      refresh_zones lb
  end;;
  modify (set_changed true).

Definition _disable_zones (zs : list string) : M unit :=
  lb ← the_elb;
  self ← get;
  match provider.zone_fault (elb_conn self) with
  | Some error_message =>
      refused_call (disable_zones (boto.name lb) zs);;
      zone_error error_message
  | None =>
      call (disable_zones (boto.name lb) zs);;
      refresh_zones lb
  end;;
  modify (set_changed true).

Definition _attach_subnets (ss : list string) : M unit :=
  self ← get;
  call (attach_lb_to_subnets (name (args self)) ss);;
  modify (set_changed true).

Definition _detach_subnets (ss : list string) : M unit :=
  self ← get;
  call (detach_lb_from_subnets (name (args self)) ss);;
  modify (set_changed true).

(** [list(set(a) - set(b))] *)
Definition set_minus (a b : list string) : list string :=
  elements ((list_to_set a : gset string) ∖ list_to_set b).

(** The two lists [_set_zones] and [_set_subnets] compute, from the
    desired list, the live list and the purge flag: what to enable (or
    attach), and what to disable (or detach), which is [None] without
    purge. *)
Definition to_enable (desired live : list string) : list string :=
  set_minus desired live.

Definition to_disable (purge : bool) (desired live : list string)
  : option (list string) :=
  if purge then Some (set_minus live desired) else None.

(** The truth value of a list that may be [None]. *)
Definition nonempty {A} (o : option (list A)) : bool :=
  match o with
  | Some (_ :: _) => true
  | _ => false
  end.

(** [_set_subnets]: determine which subnets need to be attached or
    detached on the ELB. *)
Definition _set_subnets : M unit :=
  self ← get;
  if nonempty (subnets (args self)) then
    lb ← the_elb;
    let desired := provider.or_empty (subnets (args self)) in
    let subnets_to_detach :=
      to_disable (purge_subnets (args self)) desired (boto.subnets lb) in
    let subnets_to_attach := to_enable desired (boto.subnets lb) in
    when (nonempty (Some subnets_to_attach)) (_attach_subnets subnets_to_attach);;
    when (nonempty subnets_to_detach)
      (_detach_subnets (provider.or_empty subnets_to_detach))
  else mret tt.

(** [_set_zones]: determine which zones need to be enabled or disabled on
    the ELB. *)
Definition _set_zones : M unit :=
  self ← get;
  if nonempty (zones (args self)) then
    lb ← the_elb;
    let desired := provider.or_empty (zones (args self)) in
    let zones_to_disable :=
      to_disable (purge_zones (args self)) desired (boto.availability_zones lb) in
    let zones_to_enable := to_enable desired (boto.availability_zones lb) in
    when (nonempty (Some zones_to_enable)) (_enable_zones zones_to_enable);;
    when (nonempty zones_to_disable)
      (_disable_zones (provider.or_empty zones_to_disable))
  else mret tt.

Definition _set_security_groups : M unit :=
  self ← get;
  match security_group_ids (args self) with
  | Some ids =>
      lb ← the_elb;
      if bool_decide ((list_to_set (boto.security_groups lb) : gset string)
                      ≠ list_to_set ids)
      then
        call (apply_security_groups_to_lb (name (args self)) ids);;
        modify (set_Changed true)
      else mret tt
  | None => mret tt
  end.

(** ** Health check *)

(** [_get_health_check_target]: compose the target string from the
    health check parameters. *)
Definition _get_health_check_target (hc : params.HealthCheck) : string :=
  let protocol := upper (params.ping_protocol hc) in
  let path :=
    match params.ping_path hc with
    | Some p =>
        if bool_decide (protocol ∈ ["HTTP"; "HTTPS"]) then p else ""
    | None => ""
    end in
  (protocol ++ ":" ++ py_str (params.ping_port hc) ++ path)%string.

(** The attributes of a health check that [_set_health_check] compares. *)
Inductive HealthCheckAttr :=
| target | timeout | interval | unhealthy_threshold | healthy_threshold.

Definition getattr (hc : boto.HealthCheck) (attr : HealthCheckAttr) : value :=
  match attr with
  | target => boto.target hc
  | timeout => boto.timeout hc
  | interval => boto.interval hc
  | unhealthy_threshold => boto.unhealthy_threshold hc
  | healthy_threshold => boto.healthy_threshold hc
  end.

Definition setattr (hc : boto.HealthCheck) (attr : HealthCheckAttr) (v : value)
  : boto.HealthCheck :=
  {| boto.target := if attr is target then v else boto.target hc;
     boto.timeout := if attr is timeout then v else boto.timeout hc;
     boto.interval := if attr is interval then v else boto.interval hc;
     boto.unhealthy_threshold :=
       if attr is unhealthy_threshold then v else boto.unhealthy_threshold hc;
     boto.healthy_threshold :=
       if attr is healthy_threshold then v else boto.healthy_threshold hc |}.

(** [health_check_config]: keys are attributes of the current health
    check; values are desired values of the new one. *)
Definition health_check_config (hc : params.HealthCheck)
  : list (HealthCheckAttr * value) :=
  [ (target, VStr (_get_health_check_target hc));
    (timeout, params.response_timeout hc);
    (interval, params.interval hc);
    (unhealthy_threshold, params.unhealthy_threshold hc);
    (healthy_threshold, params.healthy_threshold hc) ].

(** One round of the loop over [health_check_config]: the health check
    object and [update_health_check]. *)
Definition compare_attr (acc : boto.HealthCheck * bool)
    (item : HealthCheckAttr * value) : boto.HealthCheck * bool :=
  let '(hc, update_health_check) := acc in
  let '(attr, desired_value) := item in
  if bool_decide (getattr hc attr ≠ desired_value)
  then (setattr hc attr desired_value, true)
  else (hc, update_health_check).

(** [_set_health_check]: set health check values on the ELB as needed. *)
Definition _set_health_check : M unit :=
  self ← get;
  match health_check (args self) with
  | Some desired =>
      lb ← the_elb;
      let current :=
        match boto.health_check lb with
        | Some hc => hc
        | None => new_HealthCheck (runtime self)
        end in
      let '(hc, update_health_check) :=
        fold_left compare_attr (health_check_config desired) (current, false) in
      modify (set_elb (Some (provider.with_health_check (Some hc) lb)));;
      if update_health_check then
        call (configure_health_check (boto.name lb) hc);;
        modify (set_changed true)
      else mret tt
  | None => mret tt
  end.

(** ** Load balancer attributes *)

Definition _check_attribute_support (self : ElbManager) (attr : string) : bool :=
  bool_decide (attr ∈ lb_attribute_names (runtime self)).

(** [self.elb.get_attributes()] *)
Definition elb_get_attributes : M boto.LbAttributes :=
  lb ← the_elb;
  call (get_attributes (boto.name lb));;
  self ← get;
  match named (boto.name lb) (provider.region_lbs (elb_conn self)) with
  | live :: _ => mret (boto.attributes live)
  | [] => raise "BotoServerError"
  end.

Definition _set_cross_az_load_balancing : M unit :=
  attributes ← elb_get_attributes;
  self ← get;
  let enabled := if truthy (cross_az_load_balancing (args self)) then true else false in
  call (modify_lb_attribute (name (args self)) "CrossZoneLoadBalancing"
          (AttrBool enabled)).

Definition _set_connection_draining_timeout : M unit :=
  attributes ← elb_get_attributes;
  self ← get;
  match connection_draining_timeout (args self) with
  | VNone =>
      call (modify_lb_attribute (name (args self)) "ConnectionDraining"
              (AttrDraining
                 {| boto.draining_enabled := false;
                    boto.draining_timeout :=
                      boto.draining_timeout (boto.connection_draining attributes) |}))
  | t =>
      call (modify_lb_attribute (name (args self)) "ConnectionDraining"
              (AttrDraining
                 {| boto.draining_enabled := true; boto.draining_timeout := t |}))
  end.

(** ** Stickiness policies *)

(** [_policy_name]: the module file name, with [_] turned into [-], then
    [-] and the policy type. *)
Definition _policy_name (self : ElbManager) (policy_type : string) : string :=
  (replace "_" "-" (split_last "/" (file (runtime self))) ++ "-" ++ policy_type)%string.

Definition _create_policy (policy_param : value) (policy_meth : string)
    (policy : string) : M unit :=
  lb ← the_elb;
  call (create_cookie_stickiness_policy policy_meth policy_param
          (boto.name lb) policy).

Definition _delete_policy (elb_name : string) (policy : string) : M unit :=
  call (delete_lb_policy elb_name policy).

Definition _update_policy (policy_param : value) (policy_meth : string)
    (policy_attr : string) (policy : string) : M unit :=
  lb ← the_elb;
  _delete_policy (boto.name lb) policy;;
  _create_policy policy_param policy_meth policy.

(** [listeners_dict]: listener port to listener protocol. *)
Definition listeners_dict_of (ls : list boto.Listener) : gmap Z string :=
  fold_left (fun d listener => <[boto.item0 listener := boto.item2 listener]> d)
    ls ∅.

(** [_set_listener_policy]; [policy] defaults to the empty list. *)
Definition _set_listener_policy (listeners_dict : gmap Z string)
    (policy : list string) : M unit :=
  for_each (map_to_list listeners_dict) (fun '(listener_port, proto) =>
    if startswith proto "HTTP" then
      lb ← the_elb;
      call (set_lb_policies_of_listener (boto.name lb) listener_port policy)
    else mret tt).

(** The keyword arguments [policy_attrs]. *)
Record PolicyAttrs := {
  pa_type : string;
  pa_attr : string;
  pa_method : string;
  pa_dict_key : string;
  pa_param_value : value
}.

(** [getattr(elb_info.policies, attr)] *)
Definition policies_getattr (p : boto.Policies) (attr : string)
  : option (list boto.Policy) :=
  if String.eqb attr "lb_cookie_stickiness_policies"
  then Some (boto.lb_cookie_stickiness_policies p)
  else if String.eqb attr "app_cookie_stickiness_policies"
  then Some (boto.app_cookie_stickiness_policies p)
  else None.

(** The loop of [_set_stickiness_policy] up to its [break]: the first
    policy whose name is [policy_name]. *)
Definition first_named (policy_name : string) (ps : list boto.Policy)
  : option boto.Policy :=
  List.find (fun p => String.eqb (boto.policy_name p) policy_name) ps.

Definition _set_stickiness_policy (elb_info : boto.LoadBalancer)
    (listeners_dict : gmap Z string) (policy : list string)
    (policy_attrs : PolicyAttrs) : M unit :=
  match policies_getattr (boto.policies elb_info) (pa_attr policy_attrs), policy with
  | None, _ => raise "AttributeError"
  | _, [] => raise "IndexError"
  | Some ps, policy0 :: _ =>
      match first_named policy0 ps with
      | Some p =>
          when (negb (String.eqb (py_str (boto.policy_param p))
                        (py_str (pa_param_value policy_attrs))))
            (_set_listener_policy listeners_dict [];;
             _update_policy (pa_param_value policy_attrs)
               (pa_method policy_attrs) (pa_attr policy_attrs) policy0;;
             modify (set_changed true))
      | None =>
          _create_policy (pa_param_value policy_attrs)
            (pa_method policy_attrs) policy0;;
          modify (set_changed true)
      end;;
      _set_listener_policy listeners_dict policy
  end.

(** [policies[0].policy_name == name] under [if len(policies):] *)
Definition first_policy_is (name : string) (ps : list boto.Policy) : bool :=
  match ps with
  | p :: _ => String.eqb (boto.policy_name p) name
  | [] => false
  end.

Definition select_stickiness_policy : M unit :=
  self ← get;
  match stickiness (args self) with
  | None => mret tt
  | Some sticky =>
      when (bool_decide (is_Some (params.cookie sticky))
            && bool_decide (is_Some (params.expiration sticky)))
        (fail_json "'cookie' and 'expiration' can not be set at the same time");;
      lb ← the_elb;
      call (get_all_load_balancers (Some (boto.name lb)));;
      self ← get;
      match named (boto.name lb) (provider.region_lbs (elb_conn self)) with
      | [] => raise "IndexError"
      | elb_info :: _ =>
          let listeners_dict := listeners_dict_of (boto.listeners elb_info) in
          if String.eqb (params.type sticky) "loadbalancer" then
            let policy_type := "LBCookieStickinessPolicyType" in
            match params.enabled sticky with
            | Some true =>
                match params.expiration sticky with
                | None => fail_json "expiration must be set when type is loadbalancer"
                | Some expiration =>
                    let policy_attrs :=
                      {| pa_type := policy_type;
                         pa_attr := "lb_cookie_stickiness_policies";
                         pa_method := "create_lb_cookie_stickiness_policy";
                         pa_dict_key := "cookie_expiration_period";
                         pa_param_value := expiration |} in
                    let policy := [_policy_name self (pa_type policy_attrs)] in
                    _set_stickiness_policy elb_info listeners_dict policy policy_attrs
                end
            | Some false =>
                let ps := boto.lb_cookie_stickiness_policies (boto.policies elb_info) in
                match ps with
                | _ :: _ =>
                    when (first_policy_is (_policy_name self policy_type) ps)
                      (modify (set_changed true))
                | [] => modify (set_changed false)
                end;;
                _set_listener_policy listeners_dict [];;
                _delete_policy (boto.name lb) (_policy_name self policy_type)
            | None => mret tt
            end
          else if String.eqb (params.type sticky) "application" then
            let policy_type := "AppCookieStickinessPolicyType" in
            match params.enabled sticky with
            | Some true =>
                match params.cookie sticky with
                | None => fail_json "cookie must be set when type is application"
                | Some cookie =>
                    let policy_attrs :=
                      {| pa_type := policy_type;
                         pa_attr := "app_cookie_stickiness_policies";
                         pa_method := "create_app_cookie_stickiness_policy";
                         pa_dict_key := "cookie_name";
                         pa_param_value := cookie |} in
                    let policy := [_policy_name self (pa_type policy_attrs)] in
                    _set_stickiness_policy elb_info listeners_dict policy policy_attrs
                end
            | Some false =>
                let ps := boto.app_cookie_stickiness_policies (boto.policies elb_info) in
                match ps with
                | _ :: _ =>
                    when (first_policy_is (_policy_name self policy_type) ps)
                      (modify (set_changed true))
                | [] => mret tt
                end;;
                _set_listener_policy listeners_dict [];;
                _delete_policy (boto.name lb) (_policy_name self policy_type)
            | None => mret tt
            end
          else _set_listener_policy listeners_dict []
      end
  end.

(** ** Creation, deletion and the two entry points *)

(** [_get_elb]: the first load balancer the service lists under the
    manager's name. *)
Definition _get_elb : M (option boto.LoadBalancer) :=
  call (get_all_load_balancers None);;
  self ← get;
  match named (name (args self)) (provider.region_lbs (elb_conn self)) with
  | lb :: _ => modify (set_status ok);; mret (Some lb)
  | [] => mret None
  end.

(** [__init__], on an established connection. *)
Definition __init__ (a : Desired) (rt : Runtime) (conn : provider.Conn)
  : Outcome unit :=
  (e ← _get_elb; modify (set_elb e))
    {| args := a; runtime := rt; changed := false; Changed := None;
       status := gone; elb_conn := conn; elb := None |}.

(** [_delete_elb]; the call answers [True] when it succeeds. *)
Definition _delete_elb : M unit :=
  self ← get;
  call (delete_load_balancer (name (args self)));;
  modify (set_changed true);;
  modify (set_status deleted).

(** The object [create_load_balancer] returns: it carries what was
    passed in, no listeners and no health check. *)
Definition created_lb (a : Desired) : boto.LoadBalancer :=
  {| boto.name := name a;
     boto.availability_zones := provider.or_empty (zones a);
     boto.security_groups := provider.or_empty (security_group_ids a);
     boto.listeners := [];
     boto.subnets := provider.or_empty (subnets a);
     boto.scheme := scheme a;
     boto.health_check := None;
     boto.policies := {| boto.lb_cookie_stickiness_policies := [];
                         boto.app_cookie_stickiness_policies := [] |};
     boto.attributes := provider.default_attributes |}.

(** [_create_elb]; a load balancer object is true. *)
Definition _create_elb : M unit :=
  self ← get;
  match listeners (args self) with
  | None => raise "TypeError"
  | Some ls =>
      let a := args self in
      call (create_load_balancer (name a) (zones a) (security_group_ids a)
              (map _listener_as_tuple ls) (subnets a) (scheme a));;
      modify (set_elb (Some (created_lb a)));;
      modify (set_changed true);;
      modify (set_status created)
  end.

(** [ensure_ok]: create the ELB, or bring the existing one in line. *)
Definition ensure_ok : M unit :=
  self ← get;
  match elb self with
  | None => _create_elb
  | Some _ =>
      _set_zones;;
      _set_security_groups;;
      _set_elb_listeners;;
      _set_subnets
  end;;
  _set_health_check;;
  self ← get;
  when (_check_attribute_support self "connection_draining")
    _set_connection_draining_timeout;;
  when (_check_attribute_support self "cross_zone_load_balancing")
    _set_cross_az_load_balancing;;
  select_stickiness_policy.

(** [ensure_gone]: destroy the ELB. *)
Definition ensure_gone : M unit :=
  self ← get;
  match elb self with
  | Some _ => _delete_elb
  | None => mret tt
  end.

(** Construct the manager on an established connection, then call
    [ensure_ok], as [main] does for [state: present] once its checks of
    the parameters have passed. *)
Definition run_present (a : Desired) (rt : Runtime) (conn : provider.Conn)
  : Outcome unit :=
  match __init__ a rt conn with
  | Return _ self => ensure_ok self
  | o => o
  end.

(** The same with [state: absent]. *)
Definition run_absent (a : Desired) (rt : Runtime) (conn : provider.Conn)
  : Outcome unit :=
  match __init__ a rt conn with
  | Return _ self => ensure_gone self
  | o => o
  end.

(** ** The facts reported *)

Module instance.

(** An [InstanceState] of [describe_instance_health]. *)
Record State := {
  instance_id : string;
  reason_code : string;
  state : string
}.

End instance.

(** What the service tells of the load balancer read by [get_info] beyond
    the attributes the reconciliation works on: its DNS and hosted zone
    names, the ids of its instances, and the instance states that
    [describe_instance_health] answers with. *)
Record Described := {
  dns_name : string;
  canonical_hosted_zone_name : string;
  canonical_hosted_zone_name_id : string;
  instances : list string;
  instance_states : list instance.State
}.

Module info.

(** The keys [get_info] adds for a load balancer it has read.
    [health_check], [connection_draining_timeout] and
    [cross_az_load_balancing] are [None] when the key is not set. *)
Record Details := {
  dns_name : string;
  zones : list string;
  security_group_ids : list string;
  subnets : option (list string);
  scheme : string;
  hosted_zone_name : string;
  hosted_zone_id : string;
  lb_cookie_policy : option string;
  app_cookie_policy : option string;
  instances : list string;
  out_of_service_count : Z;
  in_service_count : Z;
  unknown_instance_state_count : Z;
  instance_health : list instance.State;
  health_check : option boto.HealthCheck;
  listeners : list ListenerTuple;
  connection_draining_timeout : option value;
  cross_az_load_balancing : option string
}.

(** The dictionary [get_info] returns: [name], [status] and [region]
    always, the other keys when the load balancer could be read. *)
Record Info := {
  name : string;
  status : Status;
  region : string;
  details : option Details
}.

End info.

(** The three counters at the end of the loop over [instance_health]:
    in service, out of service, unknown. *)
Definition count_states (health : list instance.State) : Z * Z * Z :=
  fold_left
    (fun '(in_service, out_of_service, unknown) instance_state =>
       if String.eqb (instance.state instance_state) "InService"
       then (in_service + 1, out_of_service, unknown)
       else if String.eqb (instance.state instance_state) "OutOfService"
       then (in_service, out_of_service + 1, unknown)
       else (in_service, out_of_service, unknown + 1))
    health (0, 0, 0).

(** [get_info]; [region] is [self.region] and [facts] what the service
    tells of the load balancer read.  The load balancer is read by a
    [get_all_load_balancers] call for the manager's name, in a [try]: a
    failure, like an empty answer, leaves [check_elb] [None].  For a load
    balancer with instances [describe_instance_health] is called, and
    [get_lb_attribute] once for each of the two attributes the installed
    boto supports.  The [TypeError] of iterating over [self.listeners]
    that is [None] escapes, after the calls made so far. *)
Definition get_info (region : string) (facts : Described) : M info.Info :=
  self ← get;
  call (get_all_load_balancers (Some (name (args self))));;
  self ← get;
  match named (name (args self)) (provider.region_lbs (elb_conn self)) with
  | [] =>
      mret {| info.name := name (args self); info.status := status self;
              info.region := region; info.details := None |}
  | check_elb :: _ =>
      let lb_cookie_policy :=
        match boto.lb_cookie_stickiness_policies (boto.policies check_elb) with
        | p :: _ => Some (boto.policy_name p)
        | [] => None
        end in
      let app_cookie_policy :=
        match boto.app_cookie_stickiness_policies (boto.policies check_elb) with
        | p :: _ => Some (boto.policy_name p)
        | [] => None
        end in
      instance_health ←
        match instances facts with
        | _ :: _ =>
            call (describe_instance_health (name (args self)));;
            mret (instance_states facts)
        | [] => mret []
        end;
      let '(in_service, out_of_service, unknown) := count_states instance_health in
      listeners_reported ←
        match boto.listeners check_elb with
        | _ :: _ => mret (map _api_listener_as_tuple (boto.listeners check_elb))
        | [] =>
            match status self with
            | created =>
                match listeners (args self) with
                | Some ls => mret (map _listener_as_tuple ls)
                | None => raise "TypeError"
                end
            | _ => mret []
            end
        end;
      connection_draining_timeout ←
        (if _check_attribute_support self "connection_draining"
         then
           call (get_lb_attribute (name (args self)) "ConnectionDraining");;
           mret (Some (boto.draining_timeout
                         (boto.connection_draining (boto.attributes check_elb))))
         else mret None);
      cross_az_load_balancing ←
        (if _check_attribute_support self "cross_zone_load_balancing"
         then
           call (get_lb_attribute (name (args self)) "CrossZoneLoadBalancing");;
           mret (Some (if boto.cross_zone_load_balancing_enabled
                            (boto.attributes check_elb)
                       then "yes" else "no"))
         else mret None);
      mret
        {| info.name := boto.name check_elb;
           info.status := status self;
           info.region := region;
           info.details :=
             Some
               {| info.dns_name := dns_name facts;
                  info.zones := boto.availability_zones check_elb;
                  info.security_group_ids := boto.security_groups check_elb;
                  info.subnets := subnets (args self);
                  info.scheme := boto.scheme check_elb;
                  info.hosted_zone_name := canonical_hosted_zone_name facts;
                  info.hosted_zone_id := canonical_hosted_zone_name_id facts;
                  info.lb_cookie_policy := lb_cookie_policy;
                  info.app_cookie_policy := app_cookie_policy;
                  info.instances := instances facts;
                  info.out_of_service_count := out_of_service;
                  info.in_service_count := in_service;
                  info.unknown_instance_state_count := unknown;
                  info.instance_health := instance_health;
                  info.health_check := boto.health_check check_elb;
                  info.listeners := listeners_reported;
                  info.connection_draining_timeout := connection_draining_timeout;
                  info.cross_az_load_balancing := cross_az_load_balancing |} |}
  end.

(** ** The entry point *)

Module ec2.

(** A security group of [ec2.get_all_security_groups()], with [str(grp.id)]
    and [str(grp.name)]. *)
Record SecurityGroup := {
  id : string;
  name : string
}.

End ec2.

(** An item of [security_group_names]: a string, or a list of strings. *)
Inductive GroupName :=
| one (group_name : string)
| several (group_name : list string).

Inductive State := present | absent.

Module module.

(** [module.params], after [AnsibleModule] has checked the choices and
    filled in the defaults. *)
Record Params := {
  state : State;
  name : string;
  listeners : option (list params.Listener);
  purge_listeners : bool;
  zones : option (list string);
  purge_zones : bool;
  security_group_ids : option (list string);
  security_group_names : option (list GroupName);
  health_check : option params.HealthCheck;
  subnets : option (list string);
  purge_subnets : bool;
  scheme : string;
  connection_draining_timeout : value;
  cross_az_load_balancing : value;
  stickiness : option params.Stickiness
}.

End module.

Module env.

(** What [main] finds around it: whether boto could be imported, the
    region of [get_aws_connection_info], the security groups of the EC2
    connection or the message of its [NoAuthHandlerFound], the ELB
    connection of [connect_to_aws] or the message of the error caught in
    [_get_elb_connection], the runtime, and what the service tells of the
    load balancer at the end. *)
Record Environment := {
  HAS_BOTO : bool;
  region : option string;
  security_groups : string + list ec2.SecurityGroup;
  connection : string + provider.Conn;
  runtime : Runtime;
  facts : Described
}.

End env.

(** How [main] ends: [module.exit_json] with [changed] and the facts,
    [module.fail_json] with a message, or an exception that escapes; with
    the manager as [get_info] leaves it, or with the connection as far as
    one was made. *)
Inductive Result :=
| exit_json (changed : bool) (elb : info.Info) (elb_man : ElbManager)
| failed (msg : string) (conn : option provider.Conn)
| crashed (exc : string) (conn : option provider.Conn).

(** [[str(grp.id) for grp in grp_details if str(grp.name) in group_name]] *)
Definition group_id (grp_details : list ec2.SecurityGroup) (group_name : GroupName)
  : list string :=
  let group_name :=
    match group_name with
    | one s => [s]
    | several l => l
    end in
  map ec2.id
    (List.filter (fun grp => bool_decide (ec2.name grp ∈ group_name)) grp_details).

(** The [security_group_ids] handed to the manager, or the message
    [main] fails with. *)
Definition resolved_security_groups (e : env.Environment) (p : module.Params)
  : string + option (list string) :=
  if nonempty (module.security_group_ids p)
     && nonempty (module.security_group_names p)
  then inl "Use only one type of parameter (security_group_ids) or (security_group_names)"
  else if nonempty (module.security_group_names p) then
    match env.security_groups e with
    | inl msg => inl msg
    | inr grp_details =>
        inr (Some (flat_map (group_id grp_details)
                     (provider.or_empty (module.security_group_names p))))
    end
  else inr (module.security_group_ids p).

(** The arguments [main] constructs the manager with. *)
Definition manager_args (p : module.Params)
    (security_group_ids : option (list string)) : Desired :=
  {| name := module.name p;
     listeners := module.listeners p;
     purge_listeners := module.purge_listeners p;
     zones := module.zones p;
     purge_zones := module.purge_zones p;
     security_group_ids := security_group_ids;
     health_check := module.health_check p;
     subnets := module.subnets p;
     purge_subnets := module.purge_subnets p;
     scheme := module.scheme p;
     connection_draining_timeout := module.connection_draining_timeout p;
     cross_az_load_balancing := module.cross_az_load_balancing p;
     stickiness := module.stickiness p |}.

Definition is_present (s : State) : bool :=
  match s with
  | present => true
  | absent => false
  end.

Definition main (e : env.Environment) (p : module.Params) : Result :=
  if negb (env.HAS_BOTO e) then failed "boto required for this module" None
  else
    match env.region e with
    | None | Some "" =>
        failed "Region must be specified as a parameter, in EC2_REGION or AWS_REGION environment variables or in boto configuration file" None
    | Some region =>
        if is_present (module.state p) && negb (nonempty (module.listeners p))
        then failed "At least one port is required for ELB creation" None
        else if is_present (module.state p)
                && negb (nonempty (module.zones p) || nonempty (module.subnets p))
        then failed "At least one availability zone or subnet is required for ELB creation" None
        else
          match resolved_security_groups e p with
          | inl msg => failed msg None
          | inr security_group_ids =>
              match env.connection e with
              | inl msg => failed msg None
              | inr conn =>
                  match __init__ (manager_args p security_group_ids)
                          (env.runtime e) conn with
                  | Return _ elb_man =>
                      if truthy (module.cross_az_load_balancing p)
                         && negb (_check_attribute_support elb_man
                                    "cross_zone_load_balancing")
                      then failed "You must install boto >= 2.18.0 to use the cross_az_load_balancing attribute"
                             (Some (elb_conn elb_man))
                      else if truthy (module.connection_draining_timeout p)
                              && negb (_check_attribute_support elb_man
                                         "connection_draining")
                      then failed "You must install boto >= 2.28.0 to use the connection_draining_timeout attribute"
                             (Some (elb_conn elb_man))
                      else
                        match
                          match module.state p with
                          | present => ensure_ok elb_man
                          | absent => ensure_gone elb_man
                          end
                        with
                        | Return _ elb_man =>
                            match get_info region (env.facts e) elb_man with
                            | Return elb elb_man' =>
                                exit_json (changed elb_man) elb elb_man'
                            | Exit msg elb_man' =>
                                failed msg (Some (elb_conn elb_man'))
                            | Raise exc elb_man' =>
                                crashed exc (Some (elb_conn elb_man'))
                            end
                        | Exit msg elb_man => failed msg (Some (elb_conn elb_man))
                        | Raise exc elb_man => crashed exc (Some (elb_conn elb_man))
                        end
                  | Exit msg elb_man => failed msg (Some (elb_conn elb_man))
                  | Raise exc elb_man => crashed exc (Some (elb_conn elb_man))
                  end
              end
          end
    end.

(** * Notions used in the statements *)

(** A string with no lower-case ASCII letter in it. *)
Fixpoint upper_cased (s : string) : bool :=
  match s with
  | EmptyString => true
  | String c r => negb (is_lower c) && upper_cased r
  end.

(** The live listener carries its protocols the way the ELB API prints
    them, in upper case. *)
Definition in_api_form (e : boto.Listener) : Prop :=
  upper (boto.protocol e) = boto.protocol e
  ∧ upper (boto.instance_protocol e) = boto.instance_protocol e.

(** The desired listener [d] and the live listener [e] differ at most in
    the letter case of their protocols; a desired listener without
    [instance_protocol] stands for one whose instance protocol is its
    protocol. *)
Definition same_up_to_case (d : params.Listener) (e : boto.Listener) : Prop :=
  params.load_balancer_port d = boto.load_balancer_port e
  ∧ params.instance_port d = boto.instance_port e
  ∧ upper (params.protocol d) = upper (boto.protocol e)
  ∧ upper (default (params.protocol d) (params.instance_protocol d))
    = upper (boto.instance_protocol e)
  ∧ match params.ssl_certificate_id d, boto.ssl_certificate_id e with
    | None, None => True
    | Some c, Some s => py_str c = s ∧ s ≠ ""
    | _, _ => False
    end.

(** Two desired listeners that differ at most in the letter case of their
    protocols. *)
Definition case_variants (d d' : params.Listener) : Prop :=
  params.load_balancer_port d = params.load_balancer_port d'
  ∧ params.instance_port d = params.instance_port d'
  ∧ upper (params.protocol d) = upper (params.protocol d')
  ∧ upper (default (params.protocol d) (params.instance_protocol d))
    = upper (default (params.protocol d') (params.instance_protocol d'))
  ∧ py_str <$> params.ssl_certificate_id d = py_str <$> params.ssl_certificate_id d'.

(** The desired listener [d] has no live listener on its port, or the one
    found there has another tuple. *)
Definition overwrites (es : list boto.Listener) (d : params.Listener) : Prop :=
  existing_listener_found es (params.load_balancer_port d) = None
  ∨ ∃ t, existing_listener_found es (params.load_balancer_port d) = Some t
         ∧ t ≠ _listener_as_tuple d.

(** The calls [_set_elb_listeners] makes for a plan: at most one
    [delete_load_balancer_listeners], then at most one
    [create_load_balancer_listeners]. *)
Definition listener_calls (n : string) (plan : ListenerPlan) : list Call :=
  match listeners_to_remove plan with
  | [] => []
  | ls => [delete_load_balancer_listeners n
             (default [] (ports_of ls))]
  end
  ++ match listeners_to_add plan with
     | [] => []
     | ls => [create_load_balancer_listeners n ls]
     end.

(** The calls [_set_zones] makes when the service accepts them: at most
    one [enable_zones], then at most one [disable_zones]. *)
Definition zone_calls (n : string) (purge : bool) (desired live : list string)
  : list Call :=
  match to_enable desired live with
  | [] => []
  | zs => [enable_zones n zs]
  end
  ++ match to_disable purge desired live with
     | Some ((_ :: _) as zs) => [disable_zones n zs]
     | _ => []
     end.

(** The calls [_set_subnets] makes: at most one [attach_lb_to_subnets],
    then at most one [detach_lb_from_subnets]. *)
Definition subnet_calls (n : string) (purge : bool) (desired live : list string)
  : list Call :=
  match to_enable desired live with
  | [] => []
  | ss => [attach_lb_to_subnets n ss]
  end
  ++ match to_disable purge desired live with
     | Some ((_ :: _) as ss) => [detach_lb_from_subnets n ss]
     | _ => []
     end.

(** The health check [_set_health_check] aims at: the values of
    [health_check_config], attribute by attribute. *)
Definition desired_health_check (hc : params.HealthCheck) : boto.HealthCheck :=
  {| boto.target := VStr (_get_health_check_target hc);
     boto.timeout := params.response_timeout hc;
     boto.interval := params.interval hc;
     boto.unhealthy_threshold := params.unhealthy_threshold hc;
     boto.healthy_threshold := params.healthy_threshold hc |}.

(** The calls of [_set_listener_policy]: one [set_lb_policies_of_listener]
    for every port of [listeners_dict] whose protocol starts with HTTP. *)
Definition listener_policy_calls (n : string) (listeners_dict : gmap Z string)
    (policy : list string) : list Call :=
  flat_map
    (fun '(listener_port, proto) =>
       if startswith proto "HTTP"
       then [set_lb_policies_of_listener n listener_port policy]
       else [])
    (map_to_list listeners_dict).



(** A method that hands back the constructor arguments it was given,
    however it ends. *)
Definition keeps_args {A} (m : M A) : Prop :=
  ∀ self, args (final (m self)) = args self.

(** The operations the methods are made of, apart from binds, branches
    and loops. *)
Inductive primitive : ∀ {A}, M A → Prop :=
| prim_ret {A} (a : A) : primitive (mret a)
| prim_get : primitive get
| prim_the_elb : primitive the_elb
| prim_fail_json {A} msg : primitive (@fail_json A msg)
| prim_raise {A} exc : primitive (@raise A exc)
| prim_call c : primitive (call c)
| prim_refused_call c : primitive (refused_call c)
| prim_set_changed b : primitive (modify (set_changed b))
| prim_set_Changed b : primitive (modify (set_Changed b))
| prim_set_status s : primitive (modify (set_status s))
| prim_set_elb e : primitive (modify (set_elb e))
| prim_refresh_zones lb : primitive (refresh_zones lb)
| prim_zone_error {A} msg : primitive (@zone_error A msg).

(** The load balancer a call is addressed to; the call that lists all
    load balancers is addressed to none. *)
Definition lb_name_of (c : Call) : option string :=
  match c with
  | get_all_load_balancers o => o
  | create_load_balancer n _ _ _ _ _ | delete_load_balancer n
  | create_load_balancer_listeners n _ | delete_load_balancer_listeners n _
  | enable_zones n _ | disable_zones n _
  | attach_lb_to_subnets n _ | detach_lb_from_subnets n _
  | apply_security_groups_to_lb n _ | configure_health_check n _
  | get_attributes n | get_lb_attribute n _ | describe_instance_health n
  | modify_lb_attribute n _ _
  | create_cookie_stickiness_policy _ _ n _ | delete_lb_policy n _
  | set_lb_policies_of_listener n _ _ => Some n
  end.

(** The place of a call in the order of the steps of [ensure_ok]:
    creation, zones (enable, then disable), security groups, listeners
    (delete, then create), subnets (attach, then detach), health check,
    connection draining, cross-zone balancing, stickiness.  The calls
    [ensure_ok] has no step for come first and last: the listing of all
    load balancers, and the deletion of one and the two readings of
    [get_info]. *)
Definition phase (c : Call) : nat :=
  match c with
  | get_all_load_balancers None => 0
  | create_load_balancer _ _ _ _ _ _ => 1
  | enable_zones _ _ => 2
  | disable_zones _ _ => 3
  | apply_security_groups_to_lb _ _ => 4
  | delete_load_balancer_listeners _ _ => 5
  | create_load_balancer_listeners _ _ => 6
  | attach_lb_to_subnets _ _ => 7
  | detach_lb_from_subnets _ _ => 8
  | configure_health_check _ _ => 9
  | get_attributes _ => 10
  | modify_lb_attribute _ attr _ =>
      if String.eqb attr "ConnectionDraining" then 10 else 11
  | get_all_load_balancers (Some _) | create_cookie_stickiness_policy _ _ _ _
  | delete_lb_policy _ _ | set_lb_policies_of_listener _ _ _ => 12
  | delete_load_balancer _ => 13
  | describe_instance_health _ | get_lb_attribute _ _ => 14
  end%nat.

(** No call of the list comes before a call of an earlier step. *)
Fixpoint in_step_order (calls : list Call) : Prop :=
  match calls with
  | [] => True
  | c :: rest => Forall (fun c' => (phase c ≤ phase c')%nat) rest ∧ in_step_order rest
  end.

(** The manager is called [n], and the load balancer object it holds, if
    any, is called [n] or is the one called [n']. *)
Definition own (n : string) (n' : option string) (self : ElbManager) : Prop :=
  name (args self) = n
  ∧ ∀ lb, elb self = Some lb → boto.name lb = n ∨ Some (boto.name lb) = n'.

(** The call is addressed to the load balancer [n] or to [n']. *)
Definition addressed (n : string) (n' : option string) (c : Call) : Prop :=
  ∃ m, lb_name_of c = Some m ∧ (m = n ∨ Some m = n').

(** Started on [self], the method makes calls of the steps [lo] to [hi]
    only, in the order of the steps, all of them addressed to [n] or [n'],
    and it keeps [own]. *)
Definition emits_at (n : string) (n' : option string) (lo hi : nat)
    {A} (m : M A) (self : ElbManager) : Prop :=
  own n n' self →
  own n n' (final (m self))
  ∧ ∃ calls,
      provider.log (elb_conn (final (m self)))
      = provider.log (elb_conn self) ++ calls
      ∧ Forall (fun c => addressed n n' c ∧ (lo ≤ phase c ≤ hi)%nat) calls
      ∧ in_step_order calls.

Definition emits (n : string) (n' : option string) (lo hi : nat)
    {A} (m : M A) : Prop :=
  ∀ self, emits_at n n' lo hi m self.

(** The calls of the four synchronisation steps that [ensure_ok] runs on
    a load balancer it has found: zones, security groups, listeners and
    subnets. *)
Definition is_sync_call (c : Call) : bool :=
  match c with
  | enable_zones _ _ | disable_zones _ _ | apply_security_groups_to_lb _ _
  | delete_load_balancer_listeners _ _ | create_load_balancer_listeners _ _
  | attach_lb_to_subnets _ _ | detach_lb_from_subnets _ _ => true
  | _ => false
  end.

Definition is_create_call (c : Call) : bool :=
  match c with
  | create_load_balancer _ _ _ _ _ _ => true
  | _ => false
  end.

Definition is_delete_call (c : Call) : bool :=
  match c with
  | delete_load_balancer _ => true
  | _ => false
  end.

(** The calls [_set_stickiness_policy] makes before it attaches the
    policy [policy] to the listeners: the creation when no policy of the
    name is there; nothing when the one there has the desired parameter;
    otherwise the detachment from the listeners, the deletion and the
    creation anew. *)
Definition policy_calls (n : string) (listeners_dict : gmap Z string)
    (ps : list boto.Policy) (policy : string) (meth : string) (param : value)
  : list Call :=
  match first_named policy ps with
  | None => [create_cookie_stickiness_policy meth param n policy]
  | Some p =>
      if String.eqb (py_str (boto.policy_param p)) (py_str param) then []
      else listener_policy_calls n listeners_dict []
           ++ [delete_lb_policy n policy;
               create_cookie_stickiness_policy meth param n policy]
  end.

(** The one setting under which a step takes [changed] back: stickiness
    of type [loadbalancer] that is switched off. *)
Definition resets_changed (a : Desired) : Prop :=
  ∃ sticky,
    stickiness a = Some sticky
    ∧ params.type sticky = "loadbalancer"
    ∧ params.enabled sticky = Some false.

Definition has_mutation (calls : list Call) : Prop :=
  ∃ c, c ∈ calls ∧ is_mutation c = true.

(** How [changed] at the end, in [self'], relates to what was done since
    [self]: the arguments are the same, the log has grown by [calls],
    [changed] has become true only if a mutating call is among them, and
    a [changed] that was true is still true unless the settings are those
    of [resets_changed]. *)
Definition accounted (self self' : ElbManager) : Prop :=
  args self' = args self
  ∧ (∃ calls,
       provider.log (elb_conn self') = provider.log (elb_conn self) ++ calls
       ∧ (changed self' = true → changed self = true ∨ has_mutation calls))
  ∧ (changed self = true → changed self' = true ∨ resets_changed (args self)).

Definition accounts {A} (m : M A) : Prop :=
  ∀ self, accounted self (final (m self)).

(** The primitives that do not assign [changed]. *)
Inductive leaves_changed : ∀ {A}, M A → Prop :=
| lc_ret {A} (a : A) : leaves_changed (mret a)
| lc_get : leaves_changed get
| lc_the_elb : leaves_changed the_elb
| lc_fail_json {A} msg : leaves_changed (@fail_json A msg)
| lc_raise {A} exc : leaves_changed (@raise A exc)
| lc_call c : leaves_changed (call c)
| lc_refused_call c : leaves_changed (refused_call c)
| lc_set_Changed b : leaves_changed (modify (set_Changed b))
| lc_set_status s : leaves_changed (modify (set_status s))
| lc_set_elb e : leaves_changed (modify (set_elb e))
| lc_refresh_zones lb : leaves_changed (refresh_zones lb)
| lc_zone_error {A} msg : leaves_changed (@zone_error A msg).

(** The assignments and calls the methods are made of. *)
Inductive Update :=
| u_call (c : Call)
| u_refused (c : Call)
| u_changed (b : bool)
| u_Changed (b : bool)
| u_status (s : Status)
| u_elb (e : option boto.LoadBalancer)
| u_refresh (lb : boto.LoadBalancer).

(** A method made of reads, exits and the updates that [allowed]
    admits. *)
Inductive made_of (allowed : Update → Prop) : ∀ {A}, M A → Prop :=
| mo_ret {A} (a : A) : made_of allowed (mret a)
| mo_get : made_of allowed get
| mo_the_elb : made_of allowed the_elb
| mo_fail_json {A} msg : made_of allowed (@fail_json A msg)
| mo_raise {A} exc : made_of allowed (@raise A exc)
| mo_zone_error {A} msg : made_of allowed (@zone_error A msg)
| mo_call c : allowed (u_call c) → made_of allowed (call c)
| mo_refused_call c : allowed (u_refused c) → made_of allowed (refused_call c)
| mo_set_changed b : allowed (u_changed b) → made_of allowed (modify (set_changed b))
| mo_set_Changed b : allowed (u_Changed b) → made_of allowed (modify (set_Changed b))
| mo_set_status s : allowed (u_status s) → made_of allowed (modify (set_status s))
| mo_set_elb e : allowed (u_elb e) → made_of allowed (modify (set_elb e))
| mo_refresh_zones lb : allowed (u_refresh lb) → made_of allowed (refresh_zones lb).

(** [P] holds at the end of [m], however it ends, when it held at the
    start. *)
Definition invariant (P : ElbManager → Prop) {A} (m : M A) : Prop :=
  ∀ self, P self → P (final (m self)).

(** What an update does to the manager. *)
Definition updated (u : Update) (self : ElbManager) : ElbManager :=
  match u with
  | u_call c => set_elb_conn (provider.received c (elb_conn self)) self
  | u_refused c => set_elb_conn (provider.refused c (elb_conn self)) self
  | u_changed b => set_changed b self
  | u_Changed b => set_Changed b self
  | u_status s => set_status s self
  | u_elb e => set_elb e self
  | u_refresh lb =>
      match named (boto.name lb) (provider.region_lbs (elb_conn self)) with
      | live :: _ =>
          set_elb (Some (provider.with_zones (boto.availability_zones live) lb)) self
      | [] => self
      end
  end.

(** The steps [ensure_ok] ends with, whether it has created the load
    balancer or brought an existing one in line. *)
Definition closing_steps : M unit :=
  _set_health_check;;
  self ← get;
  when (_check_attribute_support self "connection_draining")
    _set_connection_draining_timeout;;
  when (_check_attribute_support self "cross_zone_load_balancing")
    _set_cross_az_load_balancing;;
  select_stickiness_policy.

(** The updates the closing steps are made of: calls of the health
    check, attribute and stickiness steps, and assignments to [changed]
    and [elb]. *)
Definition closing_update (u : Update) : Prop :=
  match u with
  | u_call c => (9 ≤ phase c ≤ 12)%nat
  | u_changed _ | u_elb _ => True
  | _ => False
  end.

(** What the closing steps leave alone in a load balancer: its name, its
    zones, security groups, subnets and scheme, and the tuples of its
    listeners. *)
Definition same_placement (lb lb0 : boto.LoadBalancer) : Prop :=
  boto.name lb = boto.name lb0
  ∧ boto.availability_zones lb = boto.availability_zones lb0
  ∧ boto.security_groups lb = boto.security_groups lb0
  ∧ boto.subnets lb = boto.subnets lb0
  ∧ boto.scheme lb = boto.scheme lb0
  ∧ map _api_listener_as_tuple (boto.listeners lb)
    = map _api_listener_as_tuple (boto.listeners lb0).

(** The region of the manager has a load balancer called [n], and the
    first one listed has the placement of [lb0]. *)
Definition placed_as (n : string) (lb0 : boto.LoadBalancer) (self : ElbManager)
  : Prop :=
  ∃ lb rest,
    named n (provider.region_lbs (elb_conn self)) = lb :: rest
    ∧ same_placement lb lb0.

(** The certificate of a desired listener survives the way to the
    service and back: it is absent, or its string is not empty. *)
Definition certificate_kept (d : params.Listener) : Prop :=
  ∀ c, params.ssl_certificate_id d = Some c → py_str c ≠ "".

(** The steps [ensure_ok] starts with on a load balancer it has found. *)
Definition sync_steps : M unit :=
  _set_zones;;
  _set_security_groups;;
  _set_elb_listeners;;
  _set_subnets.

(** The updates the steps of [ensure_ok] on a load balancer found are
    made of: any call but a creation or a deletion, and any assignment
    but one to [status]. *)
Definition sync_update (u : Update) : Prop :=
  match u with
  | u_call c => is_delete_call c = false ∧ is_create_call c = false
  | u_status _ => False
  | _ => True
  end.

(** The region of the manager lists a load balancer called [n]. *)
Definition listed (n : string) (self : ElbManager) : Prop :=
  named n (provider.region_lbs (elb_conn self)) ≠ [].

(** The instance states of the given [state] and those of neither
    [InService] nor [OutOfService]. *)
Definition in_state (s : string) (health : list instance.State)
  : list instance.State :=
  List.filter (fun i => String.eqb (instance.state i) s) health.

Definition in_other_state (health : list instance.State) : list instance.State :=
  List.filter
    (fun i => negb (String.eqb (instance.state i) "InService")
              && negb (String.eqb (instance.state i) "OutOfService"))
    health.

(** The checks [main] makes of its surroundings and parameters before it
    looks at the security groups: boto is there, the region is known,
    and for [state: present] there are listeners and zones or subnets. *)
Definition checks_pass (e : env.Environment) (p : module.Params) (region : string)
  : Prop :=
  env.HAS_BOTO e = true
  ∧ env.region e = Some region ∧ region ≠ ""
  ∧ (module.state p = absent
     ∨ (nonempty (module.listeners p) = true
        ∧ nonempty (module.zones p) || nonempty (module.subnets p) = true)).

(** The installed boto knows the attributes the parameters ask for. *)
Definition supported (e : env.Environment) (p : module.Params) : Prop :=
  (truthy (module.cross_az_load_balancing p) = true →
   "cross_zone_load_balancing" ∈ lb_attribute_names (env.runtime e))
  ∧ (truthy (module.connection_draining_timeout p) = true →
     "connection_draining" ∈ lb_attribute_names (env.runtime e)).

(** The manager as [_create_elb] leaves it when the constructor has
    found no load balancer in the region of [conn]. *)
Definition created_manager (a : Desired) (rt : Runtime) (conn : provider.Conn)
    (ls : list params.Listener) : ElbManager :=
  {| args := a; runtime := rt; changed := true; Changed := None;
     status := created;
     elb_conn :=
       provider.received
         (create_load_balancer (name a) (zones a) (security_group_ids a)
            (map _listener_as_tuple ls) (subnets a) (scheme a))
         (provider.received (get_all_load_balancers None) conn);
     elb := Some (created_lb a) |}.

(** The security group is called as the item of [security_group_names]
    says. *)
Definition called (grp : ec2.SecurityGroup) (group_name : GroupName) : Prop :=
  match group_name with
  | one s => ec2.name grp = s
  | several l => ec2.name grp ∈ l
  end.

(** The region after the calls, in their order. *)
Definition replay (calls : list Call) (lbs : list boto.LoadBalancer)
  : list boto.LoadBalancer :=
  fold_left (fun lbs c => provider.effect c lbs) calls lbs.

(** Since [self] the service has accepted every call, and the region of
    [self'] is the region of [self] after the calls made since. *)
Definition replayed (self self' : ElbManager) : Prop :=
  provider.zone_fault (elb_conn self') = None
  ∧ ∃ calls,
      provider.log (elb_conn self') = provider.log (elb_conn self) ++ calls
      ∧ provider.region_lbs (elb_conn self')
        = replay calls (provider.region_lbs (elb_conn self)).

(** Any update but a refused call. *)
Definition accepted_update (u : Update) : Prop :=
  match u with
  | u_refused _ => False
  | _ => True
  end.

(** The live list has everything desired and, under purge, nothing
    else. *)
Definition in_line (purge : bool) (desired live : list string) : Prop :=
  (∀ z, z ∈ desired → z ∈ live) ∧ (purge = true → ∀ z, z ∈ live → z ∈ desired).

(** What the calls of a diff are to leave of the live list: all of it
    and the desired items, and under purge the desired items only. *)
Definition reconciled (purge : bool) (desired live result : list string) : Prop :=
  ∀ z, z ∈ result ↔ (z ∈ live ∨ z ∈ desired) ∧ (purge = true → z ∈ desired).

(** The live list after the calls of the diff: the items to enable that
    are not there are appended, then the items to disable are taken
    out. *)
Definition diff_result (purge : bool) (desired live : list string) : list string :=
  let enabled :=
    match to_enable desired live with
    | [] => live
    | zs => live ++ List.filter (fun z => negb (bool_decide (z ∈ live))) zs
    end in
  match to_disable purge desired live with
  | Some ((_ :: _) as zs) =>
      List.filter (fun z => negb (bool_decide (z ∈ zs))) enabled
  | _ => enabled
  end.

(** The listeners of the load balancer after the calls of the plan: the
    listeners on the ports to remove are taken out, then the listeners
    the service makes of the tuples to add take the place of the
    listeners on their ports. *)
Definition listeners_after (plan : ListenerPlan) (es : list boto.Listener)
  : list boto.Listener :=
  let remaining :=
    match listeners_to_remove plan with
    | [] => es
    | ls =>
        List.filter
          (fun l => negb (bool_decide (VInt (boto.load_balancer_port l)
                                       ∈ default [] (ports_of ls))))
          es
    end in
  match listeners_to_add plan with
  | [] => remaining
  | ls =>
      let new := omap provider.listener_of_tuple ls in
      List.filter
        (fun l => negb (provider.on_port (map boto.load_balancer_port new) l))
        remaining
      ++ new
  end.

#[global] Instance HealthCheck_eq_dec : EqDecision boto.HealthCheck.
Proof. solve_decision. Defined.

(** The character occurs in the string. *)
Definition has_char (c : ascii) (s : string) : bool :=
  contains s (String c EmptyString).

(** * Sample configurations *)

(** A runtime with a boto that knows both attributes. *)
Definition sample_runtime : Runtime :=
  {| file := "/usr/share/ansible/ec2_elb_lb";
     lb_attribute_names := ["connection_draining"; "cross_zone_load_balancing"];
     new_HealthCheck :=
       {| boto.target := VNone; boto.timeout := VInt 5;
          boto.interval := VInt 30; boto.unhealthy_threshold := VInt 5;
          boto.healthy_threshold := VInt 3 |} |}.

(** A runtime with a boto that has no [LbAttributes] attribute. *)
Definition old_runtime : Runtime :=
  {| file := "/usr/share/ansible/ec2_elb_lb";
     lb_attribute_names := [];
     new_HealthCheck := new_HealthCheck sample_runtime |}.

Definition http_80 : params.Listener :=
  {| params.load_balancer_port := 80; params.instance_port := 80;
     params.protocol := "http"; params.instance_protocol := None;
     params.ssl_certificate_id := None |}.

Definition https_443 : params.Listener :=
  {| params.load_balancer_port := 443; params.instance_port := 8443;
     params.protocol := "https"; params.instance_protocol := Some "http";
     params.ssl_certificate_id := Some (VStr "arn:aws:iam::1:server-certificate/web") |}.

Definition live_80 : boto.Listener :=
  {| boto.load_balancer_port := 80; boto.instance_port := 80;
     boto.protocol := "HTTP"; boto.instance_protocol := "HTTP";
     boto.ssl_certificate_id := None; boto.policy_names := [] |}.

Definition live_80_to_8080 : boto.Listener :=
  {| boto.load_balancer_port := 80; boto.instance_port := 8080;
     boto.protocol := "HTTP"; boto.instance_protocol := "HTTP";
     boto.ssl_certificate_id := None; boto.policy_names := [] |}.

Definition live_22 : boto.Listener :=
  {| boto.load_balancer_port := 22; boto.instance_port := 22;
     boto.protocol := "TCP"; boto.instance_protocol := "TCP";
     boto.ssl_certificate_id := None; boto.policy_names := [] |}.

(** A live load balancer called [web]. *)
Definition web (ls : list boto.Listener) (groups : list string)
    (ps : boto.Policies) : boto.LoadBalancer :=
  {| boto.name := "web"; boto.availability_zones := ["us-east-1a"];
     boto.security_groups := groups; boto.listeners := ls;
     boto.subnets := []; boto.scheme := "internet-facing";
     boto.health_check := None; boto.policies := ps;
     boto.attributes := provider.default_attributes |}.

Definition no_policies : boto.Policies :=
  {| boto.lb_cookie_stickiness_policies := [];
     boto.app_cookie_stickiness_policies := [] |}.

(** A connection to a region that holds the given load balancers and
    accepts zone calls. *)
Definition region (lbs : list boto.LoadBalancer) : provider.Conn :=
  {| provider.region_lbs := lbs; provider.log := [];
     provider.zone_fault := None |}.

(** The desired configuration of [web]: the given listeners, security
    groups and stickiness, one zone, nothing else. *)
Definition want_web (ls : list params.Listener) (groups : option (list string))
    (sticky : option params.Stickiness) : Desired :=
  {| name := "web"; listeners := Some ls; purge_listeners := true;
     zones := Some ["us-east-1a"]; purge_zones := false;
     security_group_ids := groups; health_check := None;
     subnets := None; purge_subnets := false; scheme := "internet-facing";
     connection_draining_timeout := VNone; cross_az_load_balancing := VNone;
     stickiness := sticky |}.

(** A manager as [__init__] leaves it when it has found [lb]. *)
Definition manager (a : Desired) (rt : Runtime) (lb : boto.LoadBalancer)
  : ElbManager :=
  {| args := a; runtime := rt; changed := false; Changed := None;
     status := ok; elb_conn := region [lb]; elb := Some lb |}.

(** The desired configuration of [web] with the given zones and subnets
    and their purge flags. *)
Definition want_placement (zs : option (list string)) (purge_z : bool)
    (ss : option (list string)) (purge_s : bool) : Desired :=
  {| name := "web"; listeners := Some [http_80]; purge_listeners := true;
     zones := zs; purge_zones := purge_z;
     security_group_ids := None; health_check := None;
     subnets := ss; purge_subnets := purge_s; scheme := "internet-facing";
     connection_draining_timeout := VNone; cross_az_load_balancing := VNone;
     stickiness := None |}.

(** The desired configuration of [web] with a health check. *)
Definition want_health_check (hc : params.HealthCheck) : Desired :=
  {| name := "web"; listeners := Some [http_80]; purge_listeners := true;
     zones := Some ["us-east-1a"]; purge_zones := false;
     security_group_ids := None; health_check := Some hc;
     subnets := None; purge_subnets := false; scheme := "internet-facing";
     connection_draining_timeout := VNone; cross_az_load_balancing := VNone;
     stickiness := None |}.

Definition ping_index : params.HealthCheck :=
  {| params.ping_protocol := "http"; params.ping_port := VInt 80;
     params.ping_path := Some "/index.html";
     params.response_timeout := VInt 5; params.interval := VInt 30;
     params.unhealthy_threshold := VInt 2;
     params.healthy_threshold := VInt 10 |}.

(** [web] in zones b and c, with subnets 2 and 3. *)
Definition web_placed : boto.LoadBalancer :=
  {| boto.name := "web";
     boto.availability_zones := ["us-east-1b"; "us-east-1c"];
     boto.security_groups := []; boto.listeners := [live_80];
     boto.subnets := ["subnet-2"; "subnet-3"]; boto.scheme := "internet-facing";
     boto.health_check := None; boto.policies := no_policies;
     boto.attributes := provider.default_attributes |}.




(** Load-balancer cookie stickiness switched on, with and without its
    expiration period, and settings of an unknown type. *)
Definition lb_sticky_on : params.Stickiness :=
  {| params.type := "loadbalancer"; params.enabled := Some true;
     params.expiration := Some (VInt 300); params.cookie := None |}.


Definition sticky_unknown_type : params.Stickiness :=
  {| params.type := "source-ip"; params.enabled := Some true;
     params.expiration := Some (VInt 300); params.cookie := None |}.

(** The module's load-balancer cookie policy with a period of 600. *)
Definition stale_policies : boto.Policies :=
  {| boto.lb_cookie_stickiness_policies :=
       [{| boto.policy_name := "ec2-elb-lb-LBCookieStickinessPolicyType";
           boto.policy_param := VInt 600 |}];
     boto.app_cookie_stickiness_policies := [] |}.

(** Three instances behind [web], one in each kind of state. *)
Definition sample_facts : Described :=
  {| dns_name := "web-1.us-east-1.elb.amazonaws.com";
     canonical_hosted_zone_name := "web-1.us-east-1.elb.amazonaws.com";
     canonical_hosted_zone_name_id := "Z35SXDOTRQ7X7K";
     instances := ["i-1"; "i-2"; "i-3"];
     instance_states :=
       [ {| instance.instance_id := "i-1"; instance.reason_code := "N/A";
            instance.state := "InService" |};
         {| instance.instance_id := "i-2"; instance.reason_code := "Instance";
            instance.state := "OutOfService" |};
         {| instance.instance_id := "i-3"; instance.reason_code := "ELB";
            instance.state := "Unknown" |} ] |}.

(** The surroundings of a run: boto installed, region [us-east-1], two
    security groups, the given connection and runtime. *)
Definition surroundings (conn : provider.Conn) (rt : Runtime) : env.Environment :=
  {| env.HAS_BOTO := true;
     env.region := Some "us-east-1";
     env.security_groups :=
       inr [ {| ec2.id := "sg-1"; ec2.name := "default" |};
             {| ec2.id := "sg-2"; ec2.name := "web" |} ];
     env.connection := inr conn;
     env.runtime := rt;
     env.facts := sample_facts |}.

(** The parameters that ask for the configuration [a] in the given
    state, with the given security group names. *)
Definition params_for (st : State) (a : Desired)
    (names : option (list GroupName)) : module.Params :=
  {| module.state := st;
     module.name := name a;
     module.listeners := listeners a;
     module.purge_listeners := purge_listeners a;
     module.zones := zones a;
     module.purge_zones := purge_zones a;
     module.security_group_ids := security_group_ids a;
     module.security_group_names := names;
     module.health_check := health_check a;
     module.subnets := subnets a;
     module.purge_subnets := purge_subnets a;
     module.scheme := scheme a;
     module.connection_draining_timeout := connection_draining_timeout a;
     module.cross_az_load_balancing := cross_az_load_balancing a;
     module.stickiness := stickiness a |}.

(** Only the name: what [state: absent] needs. *)
Definition only_name : Desired :=
  {| name := "web"; listeners := None; purge_listeners := true;
     zones := None; purge_zones := false;
     security_group_ids := None; health_check := None;
     subnets := None; purge_subnets := false; scheme := "internet-facing";
     connection_draining_timeout := VNone; cross_az_load_balancing := VNone;
     stickiness := None |}.

(** * Properties *)

(** ** Python helpers on sample inputs *)

Example upper_http : upper "http" = "HTTP" /\ upper "Tcp-1" = "TCP-1".
Proof. split; reflexivity. Qed.

Example split_last_path :
  split_last "/" "/usr/share/ansible/ec2_elb_lb" = "ec2_elb_lb"
  /\ split_last "/" "ec2_elb_lb" = "ec2_elb_lb"
  /\ split_last "/" "a/" = "".
Proof. repeat split; reflexivity. Qed.

Example py_str_int : py_str (VInt 300) = "300" /\ py_str (VInt (-7)) = "-7".
Proof. split; reflexivity. Qed.


(** ** Upper case *)

Lemma upper_ascii_not_lower c : is_lower (upper_ascii c) = false.
Proof. destruct c as [[] [] [] [] [] [] [] []]; reflexivity. Qed.

Lemma upper_is_upper_cased s : upper_cased (upper s) = true.
Proof.
  induction s as [|c r IH]; [reflexivity|].
  cbn [upper upper_cased]. now rewrite upper_ascii_not_lower, IH.
Qed.

Lemma upper_cased_fixed s : upper_cased s = true → upper s = s.
Proof.
  induction s as [|c r IH]; [reflexivity|].
  cbn [upper upper_cased]. intros [Hc Hr]%andb_prop.
  rewrite (IH Hr). unfold upper_ascii.
  now destruct (is_lower c).
Qed.

Lemma upper_idempotent s : upper (upper s) = upper s.
Proof. apply upper_cased_fixed, upper_is_upper_cased. Qed.

(** ** Listener tuples *)

Lemma api_tuple_nonempty e : _api_listener_as_tuple e ≠ [].
Proof.
  unfold _api_listener_as_tuple, boto.get_complex_tuple.
  destruct (boto.ssl_certificate_id e) as [c|]; [|done].
  destruct (negb (String.eqb c "") && _); done.
Qed.

Lemma listener_tuple_nonempty d : _listener_as_tuple d ≠ [].
Proof.
  unfold _listener_as_tuple.
  destruct (params.instance_protocol d), (params.ssl_certificate_id d); done.
Qed.

Lemma same_up_to_case_tuple d e :
  in_api_form e → same_up_to_case d e →
  _listener_as_tuple d = _api_listener_as_tuple e.
Proof.
  intros [Hp Hq] (H0 & H1 & H2 & H3 & Hc).
  assert (Hproto : upper (params.protocol d) = boto.protocol e) by congruence.
  assert (Hi : upper (default (params.protocol d) (params.instance_protocol d))
               = boto.instance_protocol e) by congruence.
  unfold _listener_as_tuple, _api_listener_as_tuple, boto.get_complex_tuple.
  rewrite H0, H1.
  destruct (params.ssl_certificate_id d) as [c|],
           (boto.ssl_certificate_id e) as [s|]; try done.
  - destruct Hc as [<- Hne].
    apply String.eqb_neq in Hne. rewrite Hne.
    destruct (params.instance_protocol d); cbn in *; rewrite <- Hi, <- Hproto; reflexivity.
  - destruct (params.instance_protocol d); cbn in *; rewrite <- Hi, <- Hproto; reflexivity.
Qed.

Lemma listener_tuple_shape d :
  _listener_as_tuple d
  = [VInt (params.load_balancer_port d); VInt (params.instance_port d);
     VStr (upper (params.protocol d));
     VStr (upper (default (params.protocol d) (params.instance_protocol d)))]
    ++ match params.ssl_certificate_id d with
       | Some c => [VStr (py_str c)]
       | None => []
       end.
Proof.
  unfold _listener_as_tuple.
  now destruct (params.instance_protocol d), (params.ssl_certificate_id d).
Qed.

Lemma check_listener_keeps es plan d :
  existing_listener_found es (params.load_balancer_port d)
    = Some (_listener_as_tuple d) →
  check_listener es plan d
  = {| listeners_to_add := listeners_to_add plan;
       listeners_to_remove := listeners_to_remove plan;
       listeners_to_keep := listeners_to_keep plan ++ [_listener_as_tuple d] |}.
Proof.
  intros Hfound. unfold check_listener. rewrite Hfound.
  destruct (_listener_as_tuple d) as [|v t] eqn:E.
  - now apply listener_tuple_nonempty in E.
  - rewrite bool_decide_false; [reflexivity|]. intros Hne. now apply Hne.
Qed.

(** C9. [_listener_as_tuple] returns a tuple of four or five elements:
    the two ports, the protocol in upper case, the instance protocol in
    upper case (the protocol's when the key is omitted), and a fifth
    element exactly when [ssl_certificate_id] is supplied.  The listener
    comparison of the diff works on these tuples: desired listeners that
    differ only in the letter case of their protocols have one tuple and
    fare alike in the diff, and a desired listener that differs from a
    live one, given in the API's upper case, only in the letter case of
    its protocols has the very tuple of the live one, so that the diff
    keeps it without adding or removing anything. *)
Theorem C9_listener_as_tuple_normalized (d : params.Listener) :
  let t := _listener_as_tuple d in
  (4 ≤ length t)%nat
  ∧ (length t = 4%nat ∨ length t = 5%nat)
  ∧ t !! 0%nat = Some (VInt (params.load_balancer_port d))
  ∧ t !! 1%nat = Some (VInt (params.instance_port d))
  ∧ t !! 2%nat = Some (VStr (upper (params.protocol d)))
  ∧ upper_cased (upper (params.protocol d)) = true
  ∧ (∃ q, t !! 3%nat = Some (VStr q) ∧ upper_cased q = true
          ∧ q = upper (default (params.protocol d) (params.instance_protocol d)))
  ∧ (params.instance_protocol d = None →
     t !! 3%nat = Some (VStr (upper (params.protocol d))))
  ∧ (length t = 5%nat ↔ is_Some (params.ssl_certificate_id d))
  ∧ (∀ c, params.ssl_certificate_id d = Some c →
          t !! 4%nat = Some (VStr (py_str c)))
  ∧ (∀ d', case_variants d d' →
       t = _listener_as_tuple d'
       ∧ ∀ es plan, check_listener es plan d = check_listener es plan d')
  ∧ (∀ e, in_api_form e → same_up_to_case d e →
       t = _api_listener_as_tuple e
       ∧ ∀ es plan,
           existing_listener_found es (params.load_balancer_port d)
             = Some (_api_listener_as_tuple e) →
           check_listener es plan d
           = {| listeners_to_add := listeners_to_add plan;
                listeners_to_remove := listeners_to_remove plan;
                listeners_to_keep :=
                  listeners_to_keep plan ++ [_api_listener_as_tuple e] |}).
Proof.
  cbv zeta. repeat apply conj.
  - rewrite listener_tuple_shape, length_app. cbn. lia.
  - rewrite listener_tuple_shape.
    destruct (params.ssl_certificate_id d); [now right|now left].
  - now rewrite listener_tuple_shape.
  - now rewrite listener_tuple_shape.
  - now rewrite listener_tuple_shape.
  - apply upper_is_upper_cased.
  - eexists. rewrite listener_tuple_shape.
    repeat split. apply upper_is_upper_cased.
  - intros Hnone. now rewrite listener_tuple_shape, Hnone.
  - rewrite listener_tuple_shape.
    destruct (params.ssl_certificate_id d); cbn; [eauto|].
    intros [=].
  - rewrite listener_tuple_shape.
    destruct (params.ssl_certificate_id d); cbn; [done|].
    now intros [? [=]].
  - intros c Hc. now rewrite listener_tuple_shape, Hc.
  - intros d' (Hp & Hi & Hproto & Hinst & Hcert).
    assert (Ht : _listener_as_tuple d = _listener_as_tuple d').
    { rewrite !listener_tuple_shape, Hp, Hi, Hproto, Hinst.
      destruct (params.ssl_certificate_id d), (params.ssl_certificate_id d');
        cbn in Hcert; congruence. }
    split; [exact Ht|]. intros es plan. unfold check_listener.
    now rewrite Ht, Hp.
  - intros e Hf Hs.
    pose proof (same_up_to_case_tuple d e Hf Hs) as Ht.
    split; [exact Ht|]. intros es plan Hfound.
    rewrite <- Ht in *. now apply check_listener_keeps.
Qed.

Lemma C9_listener_as_tuple_normalized_witness :
  in_api_form live_80 ∧ same_up_to_case http_80 live_80
  ∧ _listener_as_tuple http_80 = _api_listener_as_tuple live_80
  ∧ listeners_to_keep (check_listener [live_80] empty_plan http_80)
    = [_api_listener_as_tuple live_80].
Proof.
  assert (Hf : in_api_form live_80) by (split; reflexivity).
  assert (Hs : same_up_to_case http_80 live_80) by (repeat split; reflexivity).
  destruct (C9_listener_as_tuple_normalized http_80)
    as (_ & _ & _ & _ & _ & _ & _ & _ & _ & _ & _ & Hcase).
  destruct (Hcase live_80 Hf Hs) as [Ht Hkeep].
  split; [exact Hf|]. split; [exact Hs|]. split; [exact Ht|].
  rewrite (Hkeep [live_80] empty_plan eq_refl). reflexivity.
Defined.

(** ** The listener diff *)

Section ListenerDiff.

Variable es : list boto.Listener.

Lemma found_None port :
  existing_listener_found es port = None
  ↔ ∀ e, e ∈ es → boto.load_balancer_port e ≠ port.
Proof.
  induction es as [|e0 es' IH]; cbn.
  - split; [|done]. intros _ e He. inversion He.
  - unfold boto.item0. destruct (Z.eqb_spec (boto.load_balancer_port e0) port) as [Heq|Hne].
    + split; [done|]. intros H. exfalso. apply (H e0); [left|exact Heq].
    + rewrite IH. split.
      * intros H e [-> |He]%elem_of_cons; auto.
      * intros H e He. apply H. now right.
Qed.

Lemma found_Some_elem port t :
  existing_listener_found es port = Some t →
  ∃ e, e ∈ es ∧ boto.load_balancer_port e = port ∧ _api_listener_as_tuple e = t.
Proof.
  induction es as [|e0 es' IH]; cbn; [done|].
  unfold boto.item0. destruct (Z.eqb_spec (boto.load_balancer_port e0) port) as [Heq|Hne].
  - intros [= <-]. exists e0. repeat split; [left|exact Heq].
  - intros (e & He & Hp & Ht)%IH. exists e. repeat split; [now right|done|done].
Qed.

Lemma found_nonempty port t :
  existing_listener_found es port = Some t → t ≠ [].
Proof. intros (e & _ & _ & <-)%found_Some_elem. apply api_tuple_nonempty. Qed.

Lemma found_Some_NoDup e :
  NoDup (map boto.load_balancer_port es) → e ∈ es →
  existing_listener_found es (boto.load_balancer_port e)
  = Some (_api_listener_as_tuple e).
Proof.
  induction es as [|e0 es' IH]; cbn; [intros _ He; inversion He|].
  intros [Hnotin Hnd]%NoDup_cons [-> |He]%elem_of_cons.
  - unfold boto.item0. now rewrite Z.eqb_refl.
  - unfold boto.item0.
    destruct (Z.eqb_spec (boto.load_balancer_port e0) (boto.load_balancer_port e))
      as [Heq|Hne]; [|auto].
    exfalso. apply Hnotin. rewrite Heq. now apply list_elem_of_fmap_2.
Qed.

Lemma check_listener_add plan d t :
  t ∈ listeners_to_add (check_listener es plan d)
  ↔ t ∈ listeners_to_add plan ∨ (t = _listener_as_tuple d ∧ overwrites es d).
Proof.
  unfold check_listener, overwrites.
  destruct (existing_listener_found es (params.load_balancer_port d))
    as [[|v f]|] eqn:Hf.
  - now apply found_nonempty in Hf.
  - case_bool_decide as Hne; cbn.
    + rewrite elem_of_app, list_elem_of_singleton. split; [|tauto].
      intros [?| ->]; [tauto|]. right. split; [done|]. right. eauto.
    + split; [tauto|]. intros [?|[-> [Hnone|(t' & Hsome & Hd)]]];
        [done|discriminate|].
      injection Hsome as <-. exfalso. now apply Hd.
  - cbn. rewrite elem_of_app, list_elem_of_singleton. tauto.
Qed.

Lemma check_listener_remove plan d t :
  t ∈ listeners_to_remove (check_listener es plan d)
  ↔ t ∈ listeners_to_remove plan
    ∨ (existing_listener_found es (params.load_balancer_port d) = Some t
       ∧ t ≠ _listener_as_tuple d).
Proof.
  unfold check_listener.
  destruct (existing_listener_found es (params.load_balancer_port d))
    as [[|v f]|] eqn:Hf.
  - now apply found_nonempty in Hf.
  - case_bool_decide as Hne; cbn.
    + rewrite elem_of_app, list_elem_of_singleton. split.
      * intros [?| ->]; [tauto|]. right. split; [done|]. congruence.
      * intros [?|[[= <-] _]]; tauto.
    + split; [tauto|]. intros [?|[[= <-] Hd]]; [done|].
      exfalso. now apply Hd.
  - cbn. split; [tauto|]. now intros [?|[[=] _]].
Qed.

Lemma check_listener_keep plan d t :
  t ∈ listeners_to_keep (check_listener es plan d)
  ↔ t ∈ listeners_to_keep plan
    ∨ (existing_listener_found es (params.load_balancer_port d) = Some t
       ∧ t = _listener_as_tuple d).
Proof.
  unfold check_listener.
  destruct (existing_listener_found es (params.load_balancer_port d))
    as [[|v f]|] eqn:Hf.
  - now apply found_nonempty in Hf.
  - case_bool_decide as Hne; cbn.
    + split; [tauto|]. intros [?|[[= <-] Hd]]; [done|]. congruence.
    + rewrite elem_of_app, list_elem_of_singleton. split.
      * intros [?| ->]; [tauto|]. right. split; [done|]. congruence.
      * intros [?|[[= <-] _]]; tauto.
  - cbn. split; [tauto|]. now intros [?|[[=] _]].
Qed.

Lemma checked_add ds plan t :
  t ∈ listeners_to_add (fold_left (check_listener es) ds plan)
  ↔ t ∈ listeners_to_add plan
    ∨ ∃ d, d ∈ ds ∧ t = _listener_as_tuple d ∧ overwrites es d.
Proof.
  revert plan. induction ds as [|d ds IH]; intros plan; cbn.
  - split; [tauto|]. intros [?|(d & Hd & _)]; [done|inversion Hd].
  - rewrite IH, check_listener_add. split.
    + intros [[?|[-> Ho]]|(d' & Hd' & Hrest)]; [tauto| |].
      * right. exists d. split; [left|done].
      * right. exists d'. split; [now right|done].
    + intros [?|(d' & [-> |Hd']%elem_of_cons & Ht & Ho)]; [tauto| |].
      * left. now right.
      * right. eauto.
Qed.

Lemma checked_remove ds plan t :
  t ∈ listeners_to_remove (fold_left (check_listener es) ds plan)
  ↔ t ∈ listeners_to_remove plan
    ∨ ∃ d, d ∈ ds
           ∧ existing_listener_found es (params.load_balancer_port d) = Some t
           ∧ t ≠ _listener_as_tuple d.
Proof.
  revert plan. induction ds as [|d ds IH]; intros plan; cbn.
  - split; [tauto|]. intros [?|(d & Hd & _)]; [done|inversion Hd].
  - rewrite IH, check_listener_remove. split.
    + intros [[?|[Hf Hne]]|(d' & Hd' & Hrest)]; [tauto| |].
      * right. exists d. split; [left|done].
      * right. exists d'. split; [now right|done].
    + intros [?|(d' & [-> |Hd']%elem_of_cons & Ht & Ho)]; [tauto| |].
      * left. now right.
      * right. eauto.
Qed.

Lemma checked_keep ds plan t :
  t ∈ listeners_to_keep (fold_left (check_listener es) ds plan)
  ↔ t ∈ listeners_to_keep plan
    ∨ ∃ d, d ∈ ds
           ∧ existing_listener_found es (params.load_balancer_port d) = Some t
           ∧ t = _listener_as_tuple d.
Proof.
  revert plan. induction ds as [|d ds IH]; intros plan; cbn.
  - split; [tauto|]. intros [?|(d & Hd & _)]; [done|inversion Hd].
  - rewrite IH, check_listener_keep. split.
    + intros [[?|[Hf Hne]]|(d' & Hd' & Hrest)]; [tauto| |].
      * right. exists d. split; [left|done].
      * right. exists d'. split; [now right|done].
    + intros [?|(d' & [-> |Hd']%elem_of_cons & Ht & Ho)]; [tauto| |].
      * left. now right.
      * right. eauto.
Qed.

End ListenerDiff.

Lemma purge_listener_add plan e :
  listeners_to_add (purge_listener plan e) = listeners_to_add plan.
Proof. unfold purge_listener. now repeat case_bool_decide. Qed.

Lemma purge_listener_keep plan e :
  listeners_to_keep (purge_listener plan e) = listeners_to_keep plan.
Proof. unfold purge_listener. now repeat case_bool_decide. Qed.

Lemma purge_listener_remove plan e t :
  t ∈ listeners_to_remove (purge_listener plan e)
  ↔ t ∈ listeners_to_remove plan
    ∨ (t = _api_listener_as_tuple e ∧ t ∉ listeners_to_keep plan).
Proof.
  unfold purge_listener. case_bool_decide as Hr; [|case_bool_decide as Hk]; cbn.
  - split; [tauto|]. now intros [?|[-> _]].
  - split; [tauto|]. now intros [?|[-> ?]].
  - rewrite elem_of_app, list_elem_of_singleton. split; [|tauto].
    intros [?| ->]; tauto.
Qed.

Lemma purged_add es plan :
  listeners_to_add (fold_left purge_listener es plan) = listeners_to_add plan.
Proof.
  revert plan. induction es as [|e es IH]; intros plan; cbn; [done|].
  now rewrite IH, purge_listener_add.
Qed.

Lemma purged_keep es plan :
  listeners_to_keep (fold_left purge_listener es plan) = listeners_to_keep plan.
Proof.
  revert plan. induction es as [|e es IH]; intros plan; cbn; [done|].
  now rewrite IH, purge_listener_keep.
Qed.

Lemma purged_remove es plan t :
  t ∈ listeners_to_remove (fold_left purge_listener es plan)
  ↔ t ∈ listeners_to_remove plan
    ∨ ∃ e, e ∈ es ∧ t = _api_listener_as_tuple e ∧ t ∉ listeners_to_keep plan.
Proof.
  revert plan. induction es as [|e es IH]; intros plan; cbn.
  - split; [tauto|]. intros [?|(e & He & _)]; [done|inversion He].
  - rewrite IH, purge_listener_remove, purge_listener_keep. split.
    + intros [[?|[-> Hk]]|(e' & He' & Hrest)]; [tauto| |].
      * right. exists e. split; [left|done].
      * right. exists e'. split; [now right|done].
    + intros [?|(e' & [-> |He']%elem_of_cons & Ht & Hk)]; [tauto| |].
      * left. now right.
      * right. eauto.
Qed.

Lemma plan_add ds purge es t :
  t ∈ listeners_to_add (listener_plan ds purge es)
  ↔ ∃ d, d ∈ ds ∧ t = _listener_as_tuple d ∧ overwrites es d.
Proof.
  unfold listener_plan, checked_plan.
  destruct purge; rewrite ?purged_add, checked_add; cbn;
    (split; [intros [H|H]; [inversion H|exact H]|auto]).
Qed.

Lemma plan_keep ds es t :
  t ∈ listeners_to_keep (checked_plan ds es)
  ↔ ∃ d, d ∈ ds
         ∧ existing_listener_found es (params.load_balancer_port d) = Some t
         ∧ t = _listener_as_tuple d.
Proof.
  unfold checked_plan. rewrite checked_keep. cbn.
  split; [intros [H|H]; [inversion H|exact H]|auto].
Qed.

Lemma plan_checked_remove ds es t :
  t ∈ listeners_to_remove (checked_plan ds es)
  ↔ ∃ d, d ∈ ds
         ∧ existing_listener_found es (params.load_balancer_port d) = Some t
         ∧ t ≠ _listener_as_tuple d.
Proof.
  unfold checked_plan. rewrite checked_remove. cbn.
  split; [intros [H|H]; [inversion H|exact H]|auto].
Qed.

Lemma plan_remove ds purge es t :
  t ∈ listeners_to_remove (listener_plan ds purge es)
  ↔ t ∈ listeners_to_remove (checked_plan ds es)
    ∨ (purge = true
       ∧ ∃ e, e ∈ es ∧ t = _api_listener_as_tuple e
              ∧ t ∉ listeners_to_keep (checked_plan ds es)).
Proof.
  unfold listener_plan. destruct purge.
  - rewrite purged_remove. split; intros [?|?]; auto. right. tauto.
  - split; [tauto|]. now intros [?|[[=] _]].
Qed.

Lemma plan_remove_nonempty ds purge es t :
  t ∈ listeners_to_remove (listener_plan ds purge es) → t ≠ [].
Proof.
  rewrite plan_remove, plan_checked_remove.
  intros [(d & _ & Hf & _)|(_ & e & _ & -> & _)].
  - now apply found_nonempty in Hf.
  - apply api_tuple_nonempty.
Qed.

(** With one live listener per port, what the inner loop finds does not
    depend on the order of the live listeners. *)
Lemma found_Permutation es es' port :
  NoDup (map boto.load_balancer_port es) → es ≡ₚ es' →
  existing_listener_found es port = existing_listener_found es' port.
Proof.
  intros Hnd Hp.
  assert (Hnd' : NoDup (map boto.load_balancer_port es')).
  { now rewrite <- (Permutation_map boto.load_balancer_port Hp). }
  destruct (existing_listener_found es port) as [t|] eqn:Hf.
  - apply found_Some_elem in Hf as (e & He & <- & <-).
    symmetry. apply found_Some_NoDup; [exact Hnd'|]. now rewrite <- Hp.
  - symmetry. apply found_None. intros e He.
    apply (proj1 (found_None es port) Hf). now rewrite Hp.
Qed.

Lemma check_listener_Permutation es es' plan d :
  NoDup (map boto.load_balancer_port es) → es ≡ₚ es' →
  check_listener es plan d = check_listener es' plan d.
Proof.
  intros Hnd Hp. unfold check_listener.
  now rewrite (found_Permutation es es' _ Hnd Hp).
Qed.

Lemma checked_plan_Permutation ds es es' :
  NoDup (map boto.load_balancer_port es) → es ≡ₚ es' →
  checked_plan ds es = checked_plan ds es'.
Proof.
  intros Hnd Hp. unfold checked_plan. generalize empty_plan.
  induction ds as [|d ds IH]; intros plan; cbn; [done|].
  now rewrite IH, (check_listener_Permutation es es' _ _ Hnd Hp).
Qed.

Lemma overwrites_Permutation es es' d :
  NoDup (map boto.load_balancer_port es) → es ≡ₚ es' →
  overwrites es d ↔ overwrites es' d.
Proof.
  intros Hnd Hp. unfold overwrites.
  now rewrite (found_Permutation es es' _ Hnd Hp).
Qed.

(** The additions and removals as sets do not depend on the order of
    either input, when the live listeners have distinct ports. *)
Lemma listener_plan_Permutation ds ds' purge es es' t :
  NoDup (map boto.load_balancer_port es) → ds ≡ₚ ds' → es ≡ₚ es' →
  (t ∈ listeners_to_add (listener_plan ds purge es)
   ↔ t ∈ listeners_to_add (listener_plan ds' purge es'))
  ∧ (t ∈ listeners_to_remove (listener_plan ds purge es)
     ↔ t ∈ listeners_to_remove (listener_plan ds' purge es')).
Proof.
  intros Hnd Hd He. split.
  - rewrite !plan_add. split; intros (d & Hin & Ht & Ho); exists d.
    + rewrite <- Hd. split; [done|]. split; [done|].
      now apply (overwrites_Permutation es es' d Hnd He).
    + rewrite Hd. split; [done|]. split; [done|].
      now apply (overwrites_Permutation es es' d Hnd He).
  - assert (Hk : ∀ u, u ∈ listeners_to_keep (checked_plan ds es)
                      ↔ u ∈ listeners_to_keep (checked_plan ds' es')).
    { intros u. rewrite !plan_keep.
      split; intros (d & Hin & Hf & Hu); exists d.
      - rewrite <- Hd, <- (found_Permutation es es' _ Hnd He). done.
      - rewrite Hd, (found_Permutation es es' _ Hnd He). done. }
    assert (Hr : ∀ u, u ∈ listeners_to_remove (checked_plan ds es)
                      ↔ u ∈ listeners_to_remove (checked_plan ds' es')).
    { intros u. rewrite !plan_checked_remove.
      split; intros (d & Hin & Hf & Hu); exists d.
      - rewrite <- Hd, <- (found_Permutation es es' _ Hnd He). done.
      - rewrite Hd, (found_Permutation es es' _ Hnd He). done. }
    rewrite !plan_remove, Hr. split.
    + intros [?|(Hpurge & e & Hin & Hte & Hnk)]; [tauto|]. right.
      split; [done|]. exists e. split; [now rewrite <- He|].
      split; [done|]. now rewrite <- Hk.
    + intros [?|(Hpurge & e & Hin & Hte & Hnk)]; [tauto|]. right.
      split; [done|]. exists e. split; [now rewrite He|].
      split; [done|]. now rewrite Hk.
Qed.

(** ** Running [_set_elb_listeners] *)

Lemma ports_of_nonempty (ls : list ListenerTuple) :
  (∀ t, t ∈ ls → t ≠ []) → is_Some (ports_of ls).
Proof.
  unfold ports_of. induction ls as [|t ls IH]; intros Hne; cbn; [eauto|].
  destruct t as [|v t]; [now destruct (Hne [] ltac:(left))|]. cbn.
  destruct IH as [ports ->]; [|cbn; eauto].
  intros u Hu. apply Hne. now right.
Qed.

Lemma _set_elb_listeners_run self ds lb :
  listeners (args self) = Some ds → elb self = Some lb →
  let plan := listener_plan ds (purge_listeners (args self)) (boto.listeners lb) in
  ∃ self',
    _set_elb_listeners self = Return tt self'
    ∧ provider.log (elb_conn self')
      = provider.log (elb_conn self) ++ listener_calls (name (args self)) plan
    ∧ changed self'
      = (if listener_calls (name (args self)) plan is [] then changed self else true)
    ∧ args self' = args self ∧ elb self' = elb self.
Proof.
  intros Hds Hlb plan.
  unfold _set_elb_listeners, mbind, M_bind, get, the_elb.
  rewrite Hds.
  destruct (bool_decide (ds = []) && negb (purge_listeners (args self))) eqn:Hnone.
  { apply andb_prop in Hnone as [Hnil%bool_decide_eq_true Hpurge%negb_true_iff].
    exists self. subst plan. rewrite Hnil, Hpurge. cbn.
    rewrite app_nil_r. done. }
  rewrite Hlb. fold plan. unfold listener_calls.
  pose proof (plan_remove_nonempty ds (purge_listeners (args self))
                (boto.listeners lb)) as Hne.
  fold plan in Hne. apply ports_of_nonempty in Hne as [ports Hports].
  destruct (listeners_to_remove plan) as [|r rs] eqn:Hr,
           (listeners_to_add plan) as [|a as'] eqn:Ha; cbn -[ports_of].
  - eexists. repeat split; cbn; rewrite ?app_nil_r; done.
  - eexists. repeat split; cbn; done.
  - unfold _delete_elb_listeners. rewrite Hports. cbn -[ports_of].
    eexists. repeat split; cbn -[ports_of]; rewrite ?Hports, ?app_nil_r; done.
  - unfold _delete_elb_listeners. rewrite Hports. cbn -[ports_of].
    eexists. repeat split; cbn -[ports_of]; rewrite ?Hports, <- ?app_assoc; done.
Qed.

Lemma api_tuple_head e :
  head (_api_listener_as_tuple e) = Some (VInt (boto.load_balancer_port e)).
Proof.
  unfold _api_listener_as_tuple, boto.get_complex_tuple.
  destruct (boto.ssl_certificate_id e) as [c|]; [|done].
  now destruct (negb (String.eqb c "") && _).
Qed.

(** Every tuple queued for removal is the tuple of a live listener. *)
Lemma plan_remove_live ds purge es t :
  t ∈ listeners_to_remove (listener_plan ds purge es) →
  ∃ e, e ∈ es ∧ t = _api_listener_as_tuple e.
Proof.
  rewrite plan_remove, plan_checked_remove.
  intros [(d & _ & Hf & _)|(_ & e & He & Ht & _)].
  - apply found_Some_elem in Hf as (e & He & _ & Ht). eauto.
  - eauto.
Qed.

(** The ports [_delete_elb_listeners] hands to the call: for each tuple
    of live listeners, in their order, the port of the listener. *)
Lemma ports_of_live (es : list boto.Listener) (ls : list ListenerTuple) :
  (∀ t, t ∈ ls → ∃ e, e ∈ es ∧ t = _api_listener_as_tuple e) →
  ∃ ports,
    ports_of ls = Some ports
    ∧ Forall2 (λ port t, ∃ e, e ∈ es ∧ t = _api_listener_as_tuple e
                              ∧ port = VInt (boto.load_balancer_port e))
        ports ls.
Proof.
  unfold ports_of. induction ls as [|t ls IH]; intros Hlive.
  - exists []. split; [reflexivity|constructor].
  - destruct (Hlive t ltac:(left)) as (e & He & Ht).
    destruct IH as (ports & Hports & Hall).
    { intros t' Ht'. apply Hlive. now right. }
    exists (VInt (boto.load_balancer_port e) :: ports). split.
    + cbn. rewrite Ht, api_tuple_head. cbn. now rewrite Hports.
    + constructor; [eauto|exact Hall].
Qed.

(** C1. The listener diff of [_set_elb_listeners], for every desired
    list [ds], live list [es] and purge flag.  A desired listener is
    added iff no live listener is on its port or the live listener found
    on its port has another tuple, and nothing else is added.  A live
    listener is removed iff it is the listener found on the port of a
    desired listener whose tuple differs, or purge is on and its tuple is
    neither kept nor already queued for removal, and nothing else is
    removed.  The removals go out in one call, which names the ports of
    the live listeners whose tuples are queued, one port for each tuple
    and in the order of the queue, before the one call with the
    additions.  When the live listeners have one listener per port,
    the listener found on a port is the live listener of that port, and
    the additions and removals are the same whatever the order of the
    desired and of the live listeners. *)
Theorem C1_listener_diff (ds : list params.Listener) (purge : bool)
    (es : list boto.Listener) :
  let plan := listener_plan ds purge es in
  let checked := checked_plan ds es in
  (∀ d, d ∈ ds →
     (_listener_as_tuple d ∈ listeners_to_add plan
      ↔ ((∀ e, e ∈ es → boto.load_balancer_port e ≠ params.load_balancer_port d)
         ∨ ∃ t, existing_listener_found es (params.load_balancer_port d) = Some t
                ∧ t ≠ _listener_as_tuple d)))
  ∧ (∀ t, t ∈ listeners_to_add plan → ∃ d, d ∈ ds ∧ t = _listener_as_tuple d)
  ∧ (∀ e, e ∈ es →
       (_api_listener_as_tuple e ∈ listeners_to_remove plan
        ↔ (∃ d, d ∈ ds
                ∧ existing_listener_found es (params.load_balancer_port d)
                  = Some (_api_listener_as_tuple e)
                ∧ _api_listener_as_tuple e ≠ _listener_as_tuple d)
          ∨ (purge = true
             ∧ (_api_listener_as_tuple e ∉ listeners_to_keep checked)
             ∧ (_api_listener_as_tuple e ∉ listeners_to_remove checked))))
  ∧ (∀ t, t ∈ listeners_to_remove plan → ∃ e, e ∈ es ∧ t = _api_listener_as_tuple e)
  ∧ (∀ t, t ∈ listeners_to_keep checked
          ↔ ∃ d, d ∈ ds
                 ∧ existing_listener_found es (params.load_balancer_port d) = Some t
                 ∧ t = _listener_as_tuple d)
  ∧ (∀ port t, existing_listener_found es port = Some t →
               ∃ e, e ∈ es ∧ boto.load_balancer_port e = port
                    ∧ _api_listener_as_tuple e = t)
  ∧ (∀ self lb,
       listeners (args self) = Some ds → purge_listeners (args self) = purge →
       elb self = Some lb → boto.listeners lb = es →
       ∃ ports self',
         ports_of (listeners_to_remove plan) = Some ports
         ∧ Forall2 (λ port t, ∃ e, e ∈ es ∧ t = _api_listener_as_tuple e
                                   ∧ port = VInt (boto.load_balancer_port e))
             ports (listeners_to_remove plan)
         ∧ _set_elb_listeners self = Return tt self'
         ∧ provider.log (elb_conn self')
           = provider.log (elb_conn self)
             ++ (if listeners_to_remove plan is [] then []
                 else [delete_load_balancer_listeners (name (args self)) ports])
             ++ (if listeners_to_add plan is [] then []
                 else [create_load_balancer_listeners (name (args self))
                         (listeners_to_add plan)]))
  ∧ (NoDup (map boto.load_balancer_port es) →
       (∀ e, e ∈ es →
          existing_listener_found es (boto.load_balancer_port e)
          = Some (_api_listener_as_tuple e))
       ∧ ∀ ds' es', ds ≡ₚ ds' → es ≡ₚ es' →
           ∀ t,
             (t ∈ listeners_to_add plan
              ↔ t ∈ listeners_to_add (listener_plan ds' purge es'))
             ∧ (t ∈ listeners_to_remove plan
                ↔ t ∈ listeners_to_remove (listener_plan ds' purge es'))).
Proof.
  cbv zeta. repeat apply conj.
  - intros d Hd. rewrite plan_add, <- found_None. split.
    + intros (d' & _ & Ht & Ho). unfold overwrites in Ho.
      assert (Hp : params.load_balancer_port d' = params.load_balancer_port d).
      { rewrite !listener_tuple_shape in Ht. now injection Ht. }
      now rewrite Hp, <- Ht in Ho.
    + intros Ho. exists d. done.
  - intros t (d & Hd & Ht & _)%plan_add. eauto.
  - intros e He. rewrite plan_remove. split.
    + intros [Hin|(Hpurge & e' & He' & Ht & Hk)].
      * left. now apply plan_checked_remove in Hin.
      * destruct (decide (_api_listener_as_tuple e
                          ∈ listeners_to_remove (checked_plan ds es)))
          as [Hin|Hnin].
        -- left. now apply plan_checked_remove in Hin.
        -- right. done.
    + intros [Hex|(Hpurge & Hk & Hr)].
      * left. now apply plan_checked_remove.
      * right. split; [done|]. eauto.
  - intros t. apply plan_remove_live.
  - intros t. apply plan_keep.
  - intros port t. apply found_Some_elem.
  - intros self lb Hds Hpurge Hlb Hes.
    destruct (ports_of_live es (listeners_to_remove (listener_plan ds purge es)))
      as (ports & Hports & Hall).
    { intros t. apply plan_remove_live. }
    destruct (_set_elb_listeners_run self ds lb Hds Hlb)
      as (self' & Hrun & Hlog & _).
    rewrite Hpurge, Hes in Hlog. unfold listener_calls in Hlog.
    exists ports, self'.
    split; [exact Hports|]. split; [exact Hall|]. split; [exact Hrun|].
    rewrite Hlog.
    destruct (listeners_to_remove (listener_plan ds purge es)) as [|r rs];
      [|rewrite Hports];
      now destruct (listeners_to_add (listener_plan ds purge es)).
  - intros Hnd. split.
    + intros e He. now apply found_Some_NoDup.
    + intros ds' es' Hd He t. now apply listener_plan_Permutation.
Qed.

Lemma C1_listener_diff_witness :
  let ds := [http_80; https_443] in
  let es := [live_80_to_8080; live_22] in
  let self := manager (want_web ds None None) sample_runtime (web es [] no_policies) in
  NoDup (map boto.load_balancer_port es)
  ∧ (∀ t,
       t ∈ listeners_to_remove (listener_plan ds true es)
       ↔ t ∈ listeners_to_remove
               (listener_plan [https_443; http_80] true [live_22; live_80_to_8080]))
  ∧ ∃ self',
      _set_elb_listeners self = Return tt self'
      ∧ provider.log (elb_conn self')
        = [delete_load_balancer_listeners "web" [VInt 80; VInt 22];
           create_load_balancer_listeners "web"
             [_listener_as_tuple http_80; _listener_as_tuple https_443]].
Proof.
  intros ds es self.
  assert (Hnd : NoDup (map boto.load_balancer_port es)).
  { apply (bool_decide_unpack _). vm_compute. exact I. }
  destruct (C1_listener_diff ds true es)
    as (_ & _ & _ & _ & _ & _ & Hrun & Hord).
  split; [exact Hnd|]. split.
  - intros t.
    exact (proj2 (proj2 (Hord Hnd) [https_443; http_80] [live_22; live_80_to_8080]
                    (perm_swap _ _ _) (perm_swap _ _ _) t)).
  - destruct (Hrun self (web es [] no_policies) eq_refl eq_refl eq_refl eq_refl)
      as (ports & self' & Hports & _ & Hself' & Hlog).
    exists self'. split; [exact Hself'|]. rewrite Hlog.
    vm_compute in Hports. injection Hports as <-. reflexivity.
Defined.

(** ** Zones and subnets *)

(** Unfolds the monad operations in the goal. *)
Ltac run :=
  unfold mbind, M_bind, mret, M_ret, get, modify, call, refused_call,
    the_elb, when, fail_json, raise; cbn -[named].

Lemma elem_of_set_minus a b z : z ∈ set_minus a b ↔ z ∈ a ∧ z ∉ b.
Proof.
  unfold set_minus.
  now rewrite elem_of_elements, elem_of_difference, !elem_of_list_to_set.
Qed.

Lemma _enable_zones_run zs self lb :
  elb self = Some lb → provider.zone_fault (elb_conn self) = None →
  ∃ self' lb',
    _enable_zones zs self = Return tt self'
    ∧ provider.log (elb_conn self')
      = provider.log (elb_conn self) ++ [enable_zones (boto.name lb) zs]
    ∧ provider.zone_fault (elb_conn self') = None
    ∧ elb self' = Some lb' ∧ boto.name lb' = boto.name lb
    ∧ args self' = args self ∧ changed self' = true.
Proof.
  intros Hlb Hfault. unfold _enable_zones, refresh_zones. run.
  rewrite Hlb. cbn -[named]. rewrite Hfault. cbn -[named].
  destruct (named _ _); cbn; eexists _, _; repeat split; try done; cbn; eauto.
Qed.

Lemma _disable_zones_run zs self lb :
  elb self = Some lb → provider.zone_fault (elb_conn self) = None →
  ∃ self' lb',
    _disable_zones zs self = Return tt self'
    ∧ provider.log (elb_conn self')
      = provider.log (elb_conn self) ++ [disable_zones (boto.name lb) zs]
    ∧ provider.zone_fault (elb_conn self') = None
    ∧ elb self' = Some lb' ∧ boto.name lb' = boto.name lb
    ∧ args self' = args self ∧ changed self' = true.
Proof.
  intros Hlb Hfault. unfold _disable_zones, refresh_zones. run.
  rewrite Hlb. cbn -[named]. rewrite Hfault. cbn -[named].
  destruct (named _ _); cbn; eexists _, _; repeat split; try done; cbn; eauto.
Qed.

Lemma _set_zones_run self desired lb :
  zones (args self) = Some desired → desired ≠ [] → elb self = Some lb →
  provider.zone_fault (elb_conn self) = None →
  ∃ self',
    _set_zones self = Return tt self'
    ∧ provider.log (elb_conn self')
      = provider.log (elb_conn self)
        ++ zone_calls (boto.name lb) (purge_zones (args self)) desired
             (boto.availability_zones lb).
Proof.
  intros Hz Hne Hlb Hfault. unfold _set_zones, zone_calls.
  unfold mbind, M_bind, get, the_elb, when. rewrite Hz.
  destruct desired as [|z0 desired]; [done|]. cbn [nonempty provider.or_empty].
  rewrite Hlb.
  destruct (to_enable (z0 :: desired) (boto.availability_zones lb))
    as [|e0 en] eqn:Hen.
  - destruct (to_disable _ _ _) as [[|d0 dis]|] eqn:Hdis; cbn.
    + eexists. split; [reflexivity|]. now rewrite app_nil_r.
    + destruct (_disable_zones_run (d0 :: dis) self lb Hlb Hfault)
        as (self' & lb' & -> & Hlog & _). eauto.
    + eexists. split; [reflexivity|]. now rewrite app_nil_r.
  - destruct (_enable_zones_run (e0 :: en) self lb Hlb Hfault)
      as (self1 & lb1 & Hrun1 & Hlog1 & Hfault1 & Hlb1 & Hname1 & _).
    cbn [nonempty]. rewrite Hrun1.
    destruct (to_disable _ _ _) as [[|d0 dis]|] eqn:Hdis; cbn.
    + eexists. split; [reflexivity|]. now rewrite Hlog1.
    + destruct (_disable_zones_run (d0 :: dis) self1 lb1 Hlb1 Hfault1)
        as (self2 & lb2 & -> & Hlog2 & _).
      eexists. split; [reflexivity|].
      now rewrite Hlog2, Hlog1, Hname1, <- app_assoc.
    + eexists. split; [reflexivity|]. now rewrite Hlog1.
Qed.

Lemma _set_subnets_run self desired lb :
  subnets (args self) = Some desired → desired ≠ [] → elb self = Some lb →
  ∃ self',
    _set_subnets self = Return tt self'
    ∧ provider.log (elb_conn self')
      = provider.log (elb_conn self)
        ++ subnet_calls (name (args self)) (purge_subnets (args self)) desired
             (boto.subnets lb).
Proof.
  intros Hz Hne Hlb. unfold _set_subnets, subnet_calls.
  run. rewrite Hz. destruct desired as [|z0 desired]; [done|]. cbn.
  unfold the_elb. rewrite Hlb. cbn.
  destruct (to_enable (z0 :: desired) (boto.subnets lb)) as [|e0 en] eqn:Hen,
           (to_disable _ _ _) as [[|d0 dis]|] eqn:Hdis; cbn;
    (eexists; split; [reflexivity|]); cbn;
    rewrite ?app_nil_r, <- ?app_assoc; reflexivity.
Qed.

Lemma _enable_zones_refused zs self lb msg :
  elb self = Some lb → provider.zone_fault (elb_conn self) = Some msg →
  ∃ m, _enable_zones zs self
       = Exit m (set_elb_conn
                   (provider.refused (enable_zones (boto.name lb) zs) (elb_conn self))
                   self).
Proof.
  intros Hlb Hfault. unfold _enable_zones, zone_error. run.
  rewrite Hlb. cbn. rewrite Hfault. cbn.
  destruct (contains msg _); eauto.
Qed.

Lemma _disable_zones_refused zs self lb msg :
  elb self = Some lb → provider.zone_fault (elb_conn self) = Some msg →
  ∃ m, _disable_zones zs self
       = Exit m (set_elb_conn
                   (provider.refused (disable_zones (boto.name lb) zs) (elb_conn self))
                   self).
Proof.
  intros Hlb Hfault. unfold _disable_zones, zone_error. run.
  rewrite Hlb. cbn. rewrite Hfault. cbn.
  destruct (contains msg _); eauto.
Qed.

(** When the service refuses zone calls, the module exits on the first
    one it makes. *)
Lemma _set_zones_refused self desired lb msg :
  zones (args self) = Some desired → desired ≠ [] → elb self = Some lb →
  provider.zone_fault (elb_conn self) = Some msg →
  provider.log (elb_conn (final (_set_zones self)))
  = provider.log (elb_conn self)
    ++ take 1 (zone_calls (boto.name lb) (purge_zones (args self)) desired
                 (boto.availability_zones lb)).
Proof.
  intros Hz Hne Hlb Hfault. unfold _set_zones, zone_calls.
  unfold mbind, M_bind, get, the_elb, when. rewrite Hz.
  destruct desired as [|z0 desired]; [done|]. cbn [nonempty provider.or_empty].
  rewrite Hlb.
  destruct (to_enable (z0 :: desired) (boto.availability_zones lb))
    as [|e0 en] eqn:Hen.
  - destruct (to_disable _ _ _) as [[|d0 dis]|] eqn:Hdis; cbn.
    + now rewrite app_nil_r.
    + now destruct (_disable_zones_refused (d0 :: dis) self lb msg Hlb Hfault)
        as (m & ->).
    + now rewrite app_nil_r.
  - cbn [nonempty].
    now destruct (_enable_zones_refused (e0 :: en) self lb msg Hlb Hfault)
      as (m & ->).
Qed.

(** C6. For the zones and likewise for the subnets: what is enabled is
    the desired minus the live set, what is disabled is the live minus
    the desired set and only under the purge flag, the two are disjoint,
    nothing is disabled without the purge flag, and the enable (attach)
    call goes out before the disable (detach) call. *)
Theorem C6_zone_subnet_diff (desired live : list string) (purge : bool) :
  (∀ z, z ∈ to_enable desired live ↔ z ∈ desired ∧ z ∉ live)
  ∧ (∀ z, z ∈ default [] (to_disable purge desired live)
          ↔ purge = true ∧ z ∈ live ∧ z ∉ desired)
  ∧ (∀ z, z ∈ to_enable desired live →
          z ∉ default [] (to_disable purge desired live))
  ∧ (purge = false →
       to_disable purge desired live = None
       ∧ ∀ n, zone_calls n purge desired live
              = match to_enable desired live with
                | [] => []
                | zs => [enable_zones n zs]
                end)
  ∧ (∀ n e0 en d0 dis,
       to_enable desired live = e0 :: en →
       to_disable purge desired live = Some (d0 :: dis) →
       zone_calls n purge desired live
       = [enable_zones n (e0 :: en); disable_zones n (d0 :: dis)]
       ∧ subnet_calls n purge desired live
         = [attach_lb_to_subnets n (e0 :: en);
            detach_lb_from_subnets n (d0 :: dis)])
  ∧ (∀ self lb,
       zones (args self) = Some desired → desired ≠ [] →
       purge_zones (args self) = purge → elb self = Some lb →
       boto.availability_zones lb = live →
       (provider.zone_fault (elb_conn self) = None →
        ∃ self',
          _set_zones self = Return tt self'
          ∧ provider.log (elb_conn self')
            = provider.log (elb_conn self)
              ++ zone_calls (boto.name lb) purge desired live)
       ∧ (is_Some (provider.zone_fault (elb_conn self)) →
          provider.log (elb_conn (final (_set_zones self)))
          = provider.log (elb_conn self)
            ++ take 1 (zone_calls (boto.name lb) purge desired live)))
  ∧ (∀ self lb,
       subnets (args self) = Some desired → desired ≠ [] →
       purge_subnets (args self) = purge → elb self = Some lb →
       boto.subnets lb = live →
       ∃ self',
         _set_subnets self = Return tt self'
         ∧ provider.log (elb_conn self')
           = provider.log (elb_conn self)
             ++ subnet_calls (name (args self)) purge desired live).
Proof.
  assert (Hen : ∀ z, z ∈ to_enable desired live ↔ z ∈ desired ∧ z ∉ live).
  { intros z. apply elem_of_set_minus. }
  assert (Hdis : ∀ z, z ∈ default [] (to_disable purge desired live)
                      ↔ purge = true ∧ z ∈ live ∧ z ∉ desired).
  { intros z. unfold to_disable. destruct purge; cbn.
    - rewrite elem_of_set_minus. tauto.
    - split; [inversion 1|]. now intros [[=] _]. }
  split; [exact Hen|]. split; [exact Hdis|]. split.
  { intros z [Hd Hl]%Hen [_ [Hl' _]]%Hdis. done. }
  split.
  { intros ->. split; [done|]. intros n. unfold zone_calls. cbn.
    now rewrite app_nil_r. }
  split.
  { intros n e0 en d0 dis Hen' Hdis'. unfold zone_calls, subnet_calls.
    now rewrite Hen', Hdis'. }
  split.
  { intros self lb Hz Hne <- Hlb <-. split.
    - intros Hfault. now apply _set_zones_run.
    - intros [msg Hfault]. now apply (_set_zones_refused self desired lb msg). }
  intros self lb Hs Hne <- Hlb <-. now apply _set_subnets_run.
Qed.

Lemma C6_zone_subnet_diff_witness :
  let desired := ["us-east-1a"; "us-east-1b"] in
  let self :=
    manager (want_placement (Some desired) true None false) sample_runtime
      web_placed in
  to_disable false desired ["us-east-1b"; "us-east-1c"] = None
  ∧ ∃ self',
      _set_zones self = Return tt self'
      ∧ provider.log (elb_conn self')
        = [enable_zones "web" ["us-east-1a"]; disable_zones "web" ["us-east-1c"]].
Proof.
  intros desired self.
  destruct (C6_zone_subnet_diff desired ["us-east-1b"; "us-east-1c"] false)
    as (_ & _ & _ & Hoff & _).
  destruct (C6_zone_subnet_diff desired ["us-east-1b"; "us-east-1c"] true)
    as (_ & _ & _ & _ & _ & Hzones & _).
  split; [exact (proj1 (Hoff eq_refl))|].
  destruct (Hzones self web_placed eq_refl ltac:(discriminate) eq_refl eq_refl eq_refl)
    as [Hok _].
  destruct (Hok eq_refl) as (self' & Hrun & Hlog).
  exists self'. split; [exact Hrun|]. rewrite Hlog. vm_compute. reflexivity.
Defined.

(** ** Security groups *)

(** [_set_security_groups] leaves [changed] as it finds it. *)
Lemma _set_security_groups_changed self :
  changed (final (_set_security_groups self)) = changed self.
Proof.
  unfold _set_security_groups. run.
  destruct (security_group_ids (args self)); [|done].
  destruct (elb self); cbn; [|done]. now case_bool_decide.
Qed.

(** The calls of [_set_security_groups]: one
    [apply_security_groups_to_lb] when the desired groups are given and
    differ as a set from the live ones, none otherwise. *)
Lemma _set_security_groups_log self :
  provider.log (elb_conn (final (_set_security_groups self)))
  = provider.log (elb_conn self)
    ++ match security_group_ids (args self), elb self with
       | Some ids, Some lb =>
           if bool_decide ((list_to_set (boto.security_groups lb) : gset string)
                           ≠ list_to_set ids)
           then [apply_security_groups_to_lb (name (args self)) ids]
           else []
       | _, _ => []
       end.
Proof.
  unfold _set_security_groups. run.
  destruct (security_group_ids (args self)); [|now rewrite app_nil_r].
  destruct (elb self); cbn; [|now rewrite app_nil_r].
  case_bool_decide; cbn; [done|now rewrite app_nil_r].
Qed.

(** C3. [_set_security_groups] makes one [apply_security_groups_to_lb]
    call when the desired groups are given and differ as a set from the
    live ones, and no call otherwise; but it never assigns [changed]:
    however the step ends, [changed] is what it was.  On a load balancer
    in group [sg-1] with [sg-2] desired it makes the one call, sets the
    attribute [Changed], and leaves [changed] false. *)
Theorem C3_security_groups_changed_flag :
  (∀ self,
     provider.log (elb_conn (final (_set_security_groups self)))
     = provider.log (elb_conn self)
       ++ match security_group_ids (args self), elb self with
          | Some ids, Some lb =>
              if bool_decide ((list_to_set (boto.security_groups lb) : gset string)
                              ≠ list_to_set ids)
              then [apply_security_groups_to_lb (name (args self)) ids]
              else []
          | _, _ => []
          end)
  ∧ (∀ self, changed (final (_set_security_groups self)) = changed self)
  ∧ let self :=
      manager (want_web [http_80] (Some ["sg-2"]) None) sample_runtime
        (web [live_80] ["sg-1"] no_policies) in
    ∃ self',
      _set_security_groups self = Return tt self'
      ∧ provider.log (elb_conn self') = [apply_security_groups_to_lb "web" ["sg-2"]]
      ∧ Changed self' = Some true
      ∧ changed self = false ∧ changed self' = false.
Proof.
  split; [exact _set_security_groups_log|].
  split; [exact _set_security_groups_changed|].
  intros self. exists (final (_set_security_groups self)).
  vm_compute. repeat split.
Qed.

(** ** Health check *)

Lemma compare_attr_step hc b attr v :
  compare_attr (hc, b) (attr, v)
  = (setattr hc attr v, b || bool_decide (getattr hc attr ≠ v)).
Proof.
  unfold compare_attr. case_bool_decide as H.
  - now rewrite orb_true_r.
  - rewrite orb_false_r. f_equal.
    destruct hc, attr; unfold setattr; cbn in *; congruence.
Qed.

(** The loop over [health_check_config] ends with the desired health
    check, and with [update_health_check] set iff the current one was
    different. *)
Lemma compare_attr_fold current desired :
  ∃ update,
    fold_left compare_attr (health_check_config desired) (current, false)
    = (desired_health_check desired, update)
    ∧ (update = true ↔ current ≠ desired_health_check desired).
Proof.
  destruct current as [t to i u h]. unfold health_check_config, desired_health_check.
  cbn [fold_left]. rewrite !compare_attr_step. cbn.
  eexists. split; [reflexivity|].
  repeat case_bool_decide; subst; cbn; split; try done; try congruence.
Qed.




(** ** Deletion *)

Lemma named_after_delete n lbs :
  named n (provider.effect (delete_load_balancer n) lbs) = [].
Proof.
  cbn. induction lbs as [|lb lbs IH]; cbn; [done|].
  destruct (String.eqb (boto.name lb) n) eqn:E; cbn; [done|].
  now rewrite E.
Qed.

Lemma __init___found a rt conn lb rest :
  named (name a) (provider.region_lbs conn) = lb :: rest →
  __init__ a rt conn
  = Return tt
      {| args := a; runtime := rt; changed := false; Changed := None;
         status := ok;
         elb_conn := provider.received (get_all_load_balancers None) conn;
         elb := Some lb |}.
Proof.
  intros Hnamed. unfold __init__, _get_elb. run. now rewrite Hnamed.
Qed.

Lemma __init___absent a rt conn :
  named (name a) (provider.region_lbs conn) = [] →
  __init__ a rt conn
  = Return tt
      {| args := a; runtime := rt; changed := false; Changed := None;
         status := gone;
         elb_conn := provider.received (get_all_load_balancers None) conn;
         elb := None |}.
Proof.
  intros Hnamed. unfold __init__, _get_elb. run. now rewrite Hnamed.
Qed.

(** C8. [ensure_gone] on a manager that holds a load balancer deletes it:
    one [delete_load_balancer] call, [changed] true, status [deleted],
    and the region has no load balancer of that name afterwards.  On a
    manager that holds none it does nothing.  A run with [state: absent]
    therefore reports [changed] true and status [deleted] when the region
    has a load balancer of the name, and [changed] false, after the one
    read call of the constructor and no other call, when it has none. *)
Theorem C8_ensure_gone :
  (∀ self lb, elb self = Some lb →
     ∃ self',
       ensure_gone self = Return tt self'
       ∧ changed self' = true ∧ status self' = deleted
       ∧ provider.log (elb_conn self')
         = provider.log (elb_conn self) ++ [delete_load_balancer (name (args self))]
       ∧ named (name (args self)) (provider.region_lbs (elb_conn self')) = [])
  ∧ (∀ self, elb self = None → ensure_gone self = Return tt self)
  ∧ (∀ a rt conn,
       (named (name a) (provider.region_lbs conn) ≠ [] →
        ∃ self',
          run_absent a rt conn = Return tt self'
          ∧ changed self' = true ∧ status self' = deleted
          ∧ provider.log (elb_conn self')
            = provider.log conn
              ++ [get_all_load_balancers None; delete_load_balancer (name a)]
          ∧ named (name a) (provider.region_lbs (elb_conn self')) = [])
       ∧ (named (name a) (provider.region_lbs conn) = [] →
          ∃ self',
            run_absent a rt conn = Return tt self'
            ∧ changed self' = false ∧ status self' = gone
            ∧ provider.log (elb_conn self')
              = provider.log conn ++ [get_all_load_balancers None]
            ∧ is_mutation (get_all_load_balancers None) = false
            ∧ provider.region_lbs (elb_conn self') = provider.region_lbs conn)).
Proof.
  split; [|split].
  - intros self lb Hlb. unfold ensure_gone, _delete_elb. run. rewrite Hlb.
    eexists. split; [reflexivity|]. cbn -[named provider.effect].
    repeat split. apply named_after_delete.
  - intros self Hnone. unfold ensure_gone. run. now rewrite Hnone.
  - intros a rt conn. split.
    + intros Hex. destruct (named (name a) (provider.region_lbs conn))
        as [|lb rest] eqn:Hnamed; [done|].
      unfold run_absent. rewrite (__init___found a rt conn lb rest Hnamed).
      unfold ensure_gone, _delete_elb. run.
      eexists. split; [reflexivity|]. cbn -[named provider.effect].
      repeat split; [now rewrite <- app_assoc|apply named_after_delete].
    + intros Hnamed. unfold run_absent. rewrite (__init___absent a rt conn Hnamed).
      unfold ensure_gone. run. eexists. split; [reflexivity|]. done.
Qed.

Lemma C8_ensure_gone_witness :
  (∃ self',
     run_absent (want_web [http_80] None None) sample_runtime
       (region [web [live_80] [] no_policies]) = Return tt self'
     ∧ changed self' = true ∧ status self' = deleted
     ∧ provider.region_lbs (elb_conn self') = [])
  ∧ (∃ self',
       run_absent (want_web [http_80] None None) sample_runtime (region [])
       = Return tt self'
       ∧ changed self' = false
       ∧ provider.log (elb_conn self') = [get_all_load_balancers None]).
Proof.
  destruct C8_ensure_gone as (_ & _ & Hrun). split.
  - destruct (proj1 (Hrun (want_web [http_80] None None) sample_runtime
                       (region [web [live_80] [] no_policies])))
      as (self' & Hself' & Hchanged & Hstatus & _ & _); [discriminate|].
    exists self'. rewrite Hself'. repeat split; try assumption.
    injection Hself' as <-. reflexivity.
  - destruct (proj2 (Hrun (want_web [http_80] None None) sample_runtime (region []))
                eq_refl)
      as (self' & Hself' & Hchanged & _ & Hlog & _).
    exists self'. repeat split; assumption.
Defined.

(** ** Load balancer attributes *)

(** C10. The connection-draining step and the cross-zone step each read
    the attributes and then call [modify_lb_attribute], whatever the
    live attributes are, and neither assigns [changed], however the
    step ends. *)
Theorem C10_attribute_steps (self : ElbManager) :
  changed (final (_set_connection_draining_timeout self)) = changed self
  ∧ changed (final (_set_cross_az_load_balancing self)) = changed self
  ∧ (∀ lb live rest,
       elb self = Some lb →
       named (boto.name lb) (provider.region_lbs (elb_conn self)) = live :: rest →
       (∃ self',
          _set_connection_draining_timeout self = Return tt self'
          ∧ provider.log (elb_conn self')
            = provider.log (elb_conn self)
              ++ [get_attributes (boto.name lb);
                  modify_lb_attribute (name (args self)) "ConnectionDraining"
                    (AttrDraining
                       match connection_draining_timeout (args self) with
                       | VNone =>
                           {| boto.draining_enabled := false;
                              boto.draining_timeout :=
                                boto.draining_timeout
                                  (boto.connection_draining (boto.attributes live)) |}
                       | t => {| boto.draining_enabled := true;
                                 boto.draining_timeout := t |}
                       end)]
          ∧ changed self' = changed self)
       ∧ (∃ self',
            _set_cross_az_load_balancing self = Return tt self'
            ∧ provider.log (elb_conn self')
              = provider.log (elb_conn self)
                ++ [get_attributes (boto.name lb);
                    modify_lb_attribute (name (args self)) "CrossZoneLoadBalancing"
                      (AttrBool (truthy (cross_az_load_balancing (args self))))]
            ∧ changed self' = changed self)).
Proof.
  split; [|split].
  - unfold _set_connection_draining_timeout, elb_get_attributes. run.
    destruct (elb self) as [lb|]; cbn -[named]; [|done].
    destruct (named _ _); cbn; [done|].
    now destruct (connection_draining_timeout (args self)).
  - unfold _set_cross_az_load_balancing, elb_get_attributes. run.
    destruct (elb self) as [lb|]; cbn -[named]; [|done].
    now destruct (named _ _).
  - intros lb live rest Hlb Hlive. split.
    + unfold _set_connection_draining_timeout, elb_get_attributes. run.
      rewrite Hlb. cbn -[named]. rewrite Hlive. cbn.
      destruct (connection_draining_timeout (args self)); cbn;
        eexists; (split; [reflexivity|]); cbn; now rewrite <- app_assoc.
    + unfold _set_cross_az_load_balancing, elb_get_attributes. run.
      rewrite Hlb. cbn -[named]. rewrite Hlive. cbn.
      eexists. split; [reflexivity|]. cbn. rewrite <- app_assoc.
      now destruct (truthy _).
Qed.

Lemma C10_attribute_steps_witness :
  let lb := web [live_80] [] no_policies in
  let self := manager (want_web [http_80] None None) sample_runtime lb in
  boto.cross_zone_load_balancing_enabled (boto.attributes lb)
  = truthy (cross_az_load_balancing (args self))
  ∧ ∃ self',
      _set_cross_az_load_balancing self = Return tt self'
      ∧ provider.log (elb_conn self')
        = [get_attributes "web";
           modify_lb_attribute "web" "CrossZoneLoadBalancing" (AttrBool false)]
      ∧ changed self' = false.
Proof.
  intros lb self. split; [reflexivity|].
  destruct (C10_attribute_steps self) as (_ & _ & Hrun).
  destruct (Hrun lb lb [] eq_refl eq_refl) as (_ & self' & Hself' & Hlog & Hchanged).
  exists self'. split; [exact Hself'|]. split; [rewrite Hlog; reflexivity|].
  rewrite Hchanged. reflexivity.
Defined.

(** ** Stickiness *)

Lemma set_elb_conn_same self : set_elb_conn (elb_conn self) self = self.
Proof. now destruct self. Qed.

Lemma call_on_elb self lb (f : boto.LoadBalancer → Call) :
  elb self = Some lb →
  (the_elb ≫= λ lb, call (f lb)) self
  = Return tt (set_elb_conn (provider.received (f lb) (elb_conn self)) self).
Proof. intros Hlb. unfold mbind, M_bind, the_elb. now rewrite Hlb. Qed.

(** [_set_listener_policy] changes nothing but the connection, on which
    it makes exactly the calls of [listener_policy_calls]. *)
Lemma _set_listener_policy_run d policy self lb :
  elb self = Some lb →
  ∃ conn,
    _set_listener_policy d policy self = Return tt (set_elb_conn conn self)
    ∧ provider.log conn
      = provider.log (elb_conn self) ++ listener_policy_calls (boto.name lb) d policy
    ∧ provider.region_lbs conn
      = fold_left (fun lbs c => provider.effect c lbs)
          (listener_policy_calls (boto.name lb) d policy)
          (provider.region_lbs (elb_conn self)).
Proof.
  intros Hlb. unfold _set_listener_policy, listener_policy_calls.
  generalize (map_to_list d). intros l. revert self Hlb.
  induction l as [|[port proto] l IH]; intros self Hlb; cbn [for_each flat_map].
  - exists (elb_conn self). rewrite set_elb_conn_same, app_nil_r. done.
  - unfold mbind at 1. unfold M_bind at 1. cbv beta iota.
    destruct (startswith proto "HTTP").
    + rewrite (call_on_elb self lb
                 (fun lb => set_lb_policies_of_listener (boto.name lb) port policy)
                 Hlb).
      set (self1 := set_elb_conn _ self).
      destruct (IH self1 Hlb) as (conn & -> & Hlog & Hregion).
      exists conn. split; [reflexivity|]. split.
      * rewrite Hlog. cbn. now rewrite <- app_assoc.
      * exact Hregion.
    + change (@mret M M_ret unit tt self) with (Return tt self).
      destruct (IH self Hlb) as (conn & -> & Hlog & Hregion).
      exists conn. done.
Qed.



Lemma listener_policy_calls_spec n d policy c :
  c ∈ listener_policy_calls n d policy
  ↔ ∃ port proto,
      d !! port = Some proto ∧ startswith proto "HTTP" = true
      ∧ c = set_lb_policies_of_listener n port policy.
Proof.
  unfold listener_policy_calls. rewrite list_elem_of_In, in_flat_map. split.
  - intros ([port proto] & Hin & Hc). exists port, proto.
    apply list_elem_of_In, elem_of_map_to_list in Hin.
    destruct (startswith proto "HTTP"); [|inversion Hc].
    destruct Hc as [<-|[]]. done.
  - intros (port & proto & Hd & Hhttp & ->). exists (port, proto). split.
    + now apply list_elem_of_In, elem_of_map_to_list.
    + rewrite Hhttp. now left.
Qed.






(** ** The constructor arguments are never assigned *)

Lemma keeps_args_bind {A B} (m : M A) (k : A → M B) :
  keeps_args m → (∀ a, keeps_args (k a)) → keeps_args (m ≫= k).
Proof.
  intros Hm Hk self. unfold mbind, M_bind.
  specialize (Hm self). destruct (m self) as [a s1|msg s1|exc s1]; cbn in *; [|done|done].
  now rewrite Hk.
Qed.

Lemma keeps_args_primitive {A} (m : M A) : primitive m → keeps_args m.
Proof.
  intros Hm self. destruct Hm; try reflexivity.
  - unfold the_elb. now destruct (elb self).
  - unfold refresh_zones, modify. cbn. now destruct (named _ _).
  - unfold zone_error. now destruct (contains _ _).
Qed.

Lemma keeps_args_when c m : keeps_args m → keeps_args (when c m).
Proof.
  intros Hm. unfold when. destruct c; [exact Hm|].
  apply keeps_args_primitive. constructor.
Qed.

(** Goes through a method bind by bind and branch by branch; [prim],
    [bind] and [cond] are the lemmas for the primitives, for a bind and
    for [when], and methods dealt with before are taken from the
    context. *)
Ltac frame_with prim bind cond :=
  repeat first
    [ progress intros
    | assumption
    | solve [apply prim; constructor]
    | apply bind
    | apply cond
    | match goal with
      | |- _ (match ?x with _ => _ end) => destruct x
      | |- _ (let '(_, _) := ?x in _) => destruct x
      end ].










Lemma keeps_args__get_elb : keeps_args _get_elb.
Proof.
  unfold _get_elb.
  frame_with @keeps_args_primitive @keeps_args_bind keeps_args_when.
Qed.


Lemma keeps_args_Return {A} (m : M A) self a s1 :
  keeps_args m → m self = Return a s1 → args s1 = args self.
Proof. intros Hm Hrun. specialize (Hm self). now rewrite Hrun in Hm. Qed.

(** ** Conflicting stickiness parameters *)





(** ** Two runs in a row *)

(** C2. A load balancer in group [sg-1] with [sg-2] desired and all else
    in line: the first run makes one mutating call,
    [apply_security_groups_to_lb], and reports [changed] false; the
    second run, on the region the first has left, makes none and reports
    [changed] false as well. *)
Theorem C2_ensure_ok_twice :
  let a := want_web [http_80] (Some ["sg-2"]) None in
  let conn := region [web [live_80] ["sg-1"] no_policies] in
  ∃ first second,
    run_present a old_runtime conn = Return tt first
    ∧ List.filter is_mutation (provider.log (elb_conn first))
      = [apply_security_groups_to_lb "web" ["sg-2"]]
    ∧ changed first = false
    ∧ run_present a old_runtime (elb_conn first) = Return tt second
    ∧ List.filter is_mutation
        (drop (length (provider.log (elb_conn first)))
           (provider.log (elb_conn second))) = []
    ∧ changed second = false.
Proof.
  intros a conn.
  exists (final (run_present a old_runtime conn)).
  exists (final (run_present a old_runtime
                   (elb_conn (final (run_present a old_runtime conn))))).
  vm_compute. repeat split.
Qed.

(** * Further properties *)

(** ** The calls of a run: their order and their addressee *)

Lemma in_step_order_app l1 l2 :
  in_step_order l1 → in_step_order l2 →
  (∀ c1 c2, c1 ∈ l1 → c2 ∈ l2 → (phase c1 ≤ phase c2)%nat) →
  in_step_order (l1 ++ l2).
Proof.
  induction l1 as [|c l1 IH]; cbn; [done|].
  intros [Hc Hl1] Hl2 Hcross. split.
  - apply Forall_app. split; [exact Hc|].
    apply Forall_forall. intros c2 Hc2. apply Hcross; [left|exact Hc2].
  - apply IH; [done|done|]. intros c1 c2 Hc1 Hc2. apply Hcross; [now right|done].
Qed.

(** Brings the name of the manager into the context. *)
Ltac with_own :=
  let H := fresh "Hown" in
  let Hn := fresh "Hn" in
  intros H; pose proof (proj1 H) as Hn; revert H.

(** The call is addressed to the manager's name or to the name of the
    load balancer held. *)
Ltac addr :=
  eexists; (split; [reflexivity|]);
  first [ assumption | left; assumption | left; congruence | right; assumption ].

Section Emits.

Variables (n : string) (n' : option string).

Lemma emits_at_weaken lo hi lo' hi' {A} (m : M A) self :
  emits_at n n' lo hi m self → (lo' ≤ lo)%nat → (hi ≤ hi')%nat →
  emits_at n n' lo' hi' m self.
Proof.
  intros Hm Hlo Hhi Hown. destruct (Hm Hown) as (Hown' & calls & Hlog & Hall & Hord).
  split; [exact Hown'|]. exists calls. split; [exact Hlog|]. split; [|exact Hord].
  eapply Forall_impl; [exact Hall|]. cbn. intros c [? ?]. split; [done|lia].
Qed.

(** A bind of a method with calls up to step [mid] and one with calls
    from step [mid] on. *)
Lemma emits_at_bind mid lo hi {A B} (m : M A) (k : A → M B) self :
  emits_at n n' lo mid m self → (∀ a, emits n n' mid hi (k a)) →
  (lo ≤ mid ≤ hi)%nat →
  emits_at n n' lo hi (m ≫= k) self.
Proof.
  intros Hm Hk Hrange Hown.
  destruct (Hm Hown) as (Hown1 & calls1 & Hlog1 & Hall1 & Hord1).
  unfold mbind, M_bind.
  assert (Hweak1 : Forall (λ c, addressed n n' c ∧ (lo ≤ phase c ≤ hi)%nat) calls1).
  { eapply Forall_impl; [exact Hall1|]. cbn. intros c [? ?]. split; [done|lia]. }
  destruct (m self) as [a s1|msg s1|exc s1]; cbn in *;
    [|split; [done|]; exists calls1; done..].
  destruct (Hk a s1 Hown1) as (Hown2 & calls2 & Hlog2 & Hall2 & Hord2).
  split; [exact Hown2|]. exists (calls1 ++ calls2).
  split; [now rewrite Hlog2, Hlog1, app_assoc|]. split.
  - apply Forall_app. split; [exact Hweak1|].
    eapply Forall_impl; [exact Hall2|]. cbn. intros c [? ?]. split; [done|lia].
  - apply in_step_order_app; [done|done|].
    intros c1 c2 Hc1 Hc2.
    pose proof (proj1 (Forall_forall _ _) Hall1 c1 Hc1) as [_ ?].
    pose proof (proj1 (Forall_forall _ _) Hall2 c2 Hc2) as [_ ?]. lia.
Qed.

(** [self ← get; k self] runs [k self] on [self]. *)
Lemma emits_at_get lo hi {B} (k : ElbManager → M B) self :
  emits_at n n' lo hi (k self) self → emits_at n n' lo hi (get ≫= k) self.
Proof. exact id. Qed.

(** [lb ← the_elb; k lb] runs [k] on the load balancer held, whose name
    is known. *)
Lemma emits_at_the_elb lo hi {B} (k : boto.LoadBalancer → M B) self :
  (∀ lb, elb self = Some lb → boto.name lb = n ∨ Some (boto.name lb) = n' →
         emits_at n n' lo hi (k lb) self) →
  emits_at n n' lo hi (the_elb ≫= k) self.
Proof.
  intros Hk Hown. unfold mbind, M_bind, the_elb.
  destruct (elb self) as [lb|] eqn:Hlb.
  - apply Hk; [done| |done]. now apply (proj2 Hown).
  - cbn. split; [done|]. exists []. now rewrite app_nil_r.
Qed.

(** A method that makes no call and keeps [own]. *)
Lemma emits_at_quiet lo hi {A} (m : M A) self :
  (own n n' self → own n n' (final (m self))) →
  elb_conn (final (m self)) = elb_conn self →
  emits_at n n' lo hi m self.
Proof.
  intros Hown' Hconn Hown. split; [auto|]. exists [].
  rewrite Hconn, app_nil_r. done.
Qed.

Lemma emits_at_call lo hi c self :
  addressed n n' c → (lo ≤ phase c ≤ hi)%nat →
  emits_at n n' lo hi (call c) self.
Proof.
  intros Hc Hphase Hown. split; [exact Hown|]. exists [c]. cbn.
  split; [done|]. split; [|done]. constructor; [done|constructor].
Qed.

Lemma emits_at_refused_call lo hi c self :
  addressed n n' c → (lo ≤ phase c ≤ hi)%nat →
  emits_at n n' lo hi (refused_call c) self.
Proof.
  intros Hc Hphase Hown. split; [exact Hown|]. exists [c]. cbn.
  split; [done|]. split; [|done]. constructor; [done|constructor].
Qed.

Lemma emits_at_when lo hi c m self :
  emits_at n n' lo hi m self → emits_at n n' lo hi (when c m) self.
Proof.
  intros Hm. unfold when. destruct c; [exact Hm|].
  now apply emits_at_quiet.
Qed.

Lemma emits_at_for_each p {A} (l : list A) body self :
  (∀ x, emits n n' p p (body x)) →
  emits_at n n' p p (for_each l body) self.
Proof.
  intros Hbody. revert self.
  induction l as [|x l IH]; intros self; cbn [for_each].
  - now apply emits_at_quiet.
  - apply (emits_at_bind p); [apply Hbody|intros _; exact IH|lia].
Qed.

Lemma emits_zone_error lo hi {A} msg : emits n n' lo hi (@zone_error A msg).
Proof.
  intros self. apply emits_at_quiet; unfold zone_error;
    now destruct (contains _ _).
Qed.

Lemma emits_refresh_zones lo hi lb :
  boto.name lb = n ∨ Some (boto.name lb) = n' →
  emits n n' lo hi (refresh_zones lb).
Proof.
  intros Hname self. apply emits_at_quiet; unfold refresh_zones, modify; cbn;
    destruct (named _ _); cbn; try done.
  intros [Hn _]. split; [done|]. intros lb' [= <-]. exact Hname.
Qed.

Lemma emits_set_changed lo hi b : emits n n' lo hi (modify (set_changed b)).
Proof. intros self. (apply emits_at_quiet; cbn; try done). Qed.

Lemma emits__enable_zones zs : emits n n' 2 2 (_enable_zones zs).
Proof.
  intros self. unfold _enable_zones.
  apply emits_at_the_elb. intros lb Hlb Hname. apply emits_at_get.
  apply (emits_at_bind 2); [|intros _; apply emits_set_changed|lia].
  destruct (provider.zone_fault (elb_conn self)).
  - apply (emits_at_bind 2); [|intros _; apply emits_zone_error|lia].
    apply emits_at_refused_call; [addr|cbn; lia].
  - apply (emits_at_bind 2); [|intros _; now apply emits_refresh_zones|lia].
    apply emits_at_call; [addr|cbn; lia].
Qed.

Lemma emits__disable_zones zs : emits n n' 3 3 (_disable_zones zs).
Proof.
  intros self. unfold _disable_zones.
  apply emits_at_the_elb. intros lb Hlb Hname. apply emits_at_get.
  apply (emits_at_bind 3); [|intros _; apply emits_set_changed|lia].
  destruct (provider.zone_fault (elb_conn self)).
  - apply (emits_at_bind 3); [|intros _; apply emits_zone_error|lia].
    apply emits_at_refused_call; [addr|cbn; lia].
  - apply (emits_at_bind 3); [|intros _; now apply emits_refresh_zones|lia].
    apply emits_at_call; [addr|cbn; lia].
Qed.

Lemma emits__set_zones : emits n n' 2 3 _set_zones.
Proof.
  intros self. unfold _set_zones. apply emits_at_get.
  destruct (nonempty (zones (args self))); [|(apply emits_at_quiet; cbn; try done)].
  apply emits_at_the_elb. intros lb Hlb Hname.
  apply (emits_at_bind 2); [| |lia].
  - apply emits_at_when. apply emits__enable_zones.
  - intros _ s. apply emits_at_when.
    eapply emits_at_weaken; [apply emits__disable_zones|lia|lia].
Qed.

Lemma emits__set_security_groups : emits n n' 4 4 _set_security_groups.
Proof.
  intros self. unfold _set_security_groups. with_own. apply emits_at_get.
  destruct (security_group_ids (args self)) as [ids|]; [|(apply emits_at_quiet; cbn; try done)].
  apply emits_at_the_elb. intros lb Hlb Hname.
  case_bool_decide; [|(apply emits_at_quiet; cbn; try done)].
  apply (emits_at_bind 4); [|intros _ s; (apply emits_at_quiet; cbn; try done)|lia].
  apply emits_at_call; [addr|cbn; lia].
Qed.

Lemma emits__delete_elb_listeners ls : emits n n' 5 5 (_delete_elb_listeners ls).
Proof.
  intros self. unfold _delete_elb_listeners.
  destruct (ports_of ls); [|(apply emits_at_quiet; cbn; try done)]. with_own. apply emits_at_get.
  apply (emits_at_bind 5); [|intros _ s; (apply emits_at_quiet; cbn; try done)|lia].
  apply emits_at_call; [addr|cbn; lia].
Qed.

Lemma emits__create_elb_listeners ls : emits n n' 6 6 (_create_elb_listeners ls).
Proof.
  intros self. unfold _create_elb_listeners. with_own. apply emits_at_get.
  apply (emits_at_bind 6); [|intros _ s; (apply emits_at_quiet; cbn; try done)|lia].
  apply emits_at_call; [addr|cbn; lia].
Qed.

Lemma emits__set_elb_listeners : emits n n' 5 6 _set_elb_listeners.
Proof.
  intros self. unfold _set_elb_listeners. apply emits_at_get.
  destruct (listeners (args self)) as [ds|]; [|(apply emits_at_quiet; cbn; try done)].
  destruct (_ && _); [(apply emits_at_quiet; cbn; try done)|].
  apply emits_at_the_elb. intros lb Hlb Hname.
  apply (emits_at_bind 5); [| |lia].
  - apply emits_at_when. apply emits__delete_elb_listeners.
  - intros _ s. apply emits_at_when.
    eapply emits_at_weaken; [apply emits__create_elb_listeners|lia|lia].
Qed.

Lemma emits__set_subnets : emits n n' 7 8 _set_subnets.
Proof.
  intros self. unfold _set_subnets. apply emits_at_get.
  destruct (nonempty (subnets (args self))); [|(apply emits_at_quiet; cbn; try done)].
  apply emits_at_the_elb. intros lb Hlb Hname.
  apply (emits_at_bind 7); [| |lia].
  - apply emits_at_when. unfold _attach_subnets. with_own. apply emits_at_get.
    apply (emits_at_bind 7); [|intros _ s; (apply emits_at_quiet; cbn; try done)|lia].
    apply emits_at_call; [addr|cbn; lia].
  - intros _ s. apply emits_at_when. unfold _detach_subnets. with_own.
    apply emits_at_get.
    apply (emits_at_bind 8); [|intros _ s'; (apply emits_at_quiet; cbn; try done)|lia].
    apply emits_at_call; [addr|cbn; lia].
Qed.

Lemma emits__set_health_check : emits n n' 9 9 _set_health_check.
Proof.
  intros self. unfold _set_health_check. apply emits_at_get.
  destruct (health_check (args self)) as [desired|]; [|(apply emits_at_quiet; cbn; try done)].
  apply emits_at_the_elb. intros lb Hlb Hname.
  destruct (fold_left _ _ _) as [hc update].
  apply (emits_at_bind 9); [| |lia].
  - apply emits_at_quiet; cbn; [|done].
    intros [Hn _]. split; [done|]. intros lb' [= <-]. exact Hname.
  - intros _ s. destruct update; [|(apply emits_at_quiet; cbn; try done)].
    apply (emits_at_bind 9); [|intros _ s'; (apply emits_at_quiet; cbn; try done)|lia].
    apply emits_at_call; [addr|cbn; lia].
Qed.

Lemma emits_elb_get_attributes k lo hi :
  (lo ≤ 10 ≤ hi)%nat → (∀ a, emits n n' 10 hi (k a)) →
  emits n n' lo hi (elb_get_attributes ≫= k : M unit).
Proof.
  intros Hrange Hk self. apply (emits_at_bind 10); [|exact Hk|lia].
  unfold elb_get_attributes.
  apply emits_at_the_elb. intros lb Hlb Hname.
  apply (emits_at_bind 10); [| |lia].
  - apply emits_at_call; [addr|cbn; lia].
  - intros _ s. apply emits_at_get. destruct (named _ _); (apply emits_at_quiet; cbn; try done).
Qed.

Lemma emits__set_connection_draining_timeout :
  emits n n' 10 10 _set_connection_draining_timeout.
Proof.
  unfold _set_connection_draining_timeout.
  apply emits_elb_get_attributes; [lia|]. intros attributes self.
  with_own. apply emits_at_get.
  destruct (connection_draining_timeout (args self));
    (apply emits_at_call; [addr|cbn; lia]).
Qed.

Lemma emits__set_cross_az_load_balancing :
  emits n n' 10 11 _set_cross_az_load_balancing.
Proof.
  unfold _set_cross_az_load_balancing.
  apply emits_elb_get_attributes; [lia|]. intros attributes self.
  with_own. apply emits_at_get.
  apply emits_at_call; [addr|cbn; lia].
Qed.

Lemma emits__set_listener_policy d policy :
  emits n n' 12 12 (_set_listener_policy d policy).
Proof.
  intros self. unfold _set_listener_policy. apply emits_at_for_each.
  intros [port proto] s. destruct (startswith proto "HTTP");
    [|apply emits_at_quiet; cbn; try done].
  apply emits_at_the_elb. intros lb Hlb Hname.
  apply emits_at_call; [addr|cbn; lia].
Qed.

Lemma emits__create_policy param meth policy :
  emits n n' 12 12 (_create_policy param meth policy).
Proof.
  intros self. unfold _create_policy.
  apply emits_at_the_elb. intros lb Hlb Hname.
  apply emits_at_call; [addr|cbn; lia].
Qed.

Lemma emits__delete_policy elb_name policy :
  elb_name = n ∨ Some elb_name = n' →
  emits n n' 12 12 (_delete_policy elb_name policy).
Proof.
  intros Hname self. unfold _delete_policy.
  apply emits_at_call; [addr|cbn; lia].
Qed.

Lemma emits__set_stickiness_policy elb_info d policy attrs :
  emits n n' 12 12 (_set_stickiness_policy elb_info d policy attrs).
Proof.
  intros self. unfold _set_stickiness_policy.
  destruct (policies_getattr _ _) as [ps|]; [|apply emits_at_quiet; cbn; try done].
  destruct policy as [|policy0 ?]; [apply emits_at_quiet; cbn; try done|].
  apply (emits_at_bind 12); [|intros _; apply emits__set_listener_policy|lia].
  destruct (first_named policy0 ps) as [p|].
  - apply emits_at_when.
    apply (emits_at_bind 12); [apply emits__set_listener_policy| |lia].
    intros _ s. apply (emits_at_bind 12);
      [|intros _ s'; apply emits_at_quiet; cbn; try done|lia].
    unfold _update_policy. apply emits_at_the_elb. intros lb Hlb Hname.
    apply (emits_at_bind 12);
      [now apply emits__delete_policy|intros _; apply emits__create_policy|lia].
  - apply (emits_at_bind 12);
      [apply emits__create_policy|intros _ s; apply emits_at_quiet; cbn; try done|lia].
Qed.

Lemma emits_select_stickiness_policy : emits n n' 12 12 select_stickiness_policy.
Proof.
  intros self. unfold select_stickiness_policy. apply emits_at_get.
  destruct (stickiness (args self)) as [sticky|];
    [|apply emits_at_quiet; cbn; try done].
  apply (emits_at_bind 12); [| |lia].
  { apply emits_at_when. apply emits_at_quiet; cbn; try done. }
  intros _ s. apply emits_at_the_elb. intros lb Hlb Hname.
  apply (emits_at_bind 12); [apply emits_at_call; [addr|cbn; lia]| |lia].
  intros _ s1. apply emits_at_get.
  destruct (named _ _) as [|elb_info rest]; [apply emits_at_quiet; cbn; try done|].
  assert (Hoff : ∀ (first : M unit) ptype s2,
            (∀ s3, emits_at n n' 12 12 first s3) →
            emits_at n n' 12 12
              (first;;
               _set_listener_policy (listeners_dict_of (boto.listeners elb_info)) [];;
               _delete_policy (boto.name lb) (_policy_name s1 ptype)) s2).
  { intros first ptype s2 Hfirst.
    apply (emits_at_bind 12); [apply Hfirst| |lia].
    intros _ s3. apply (emits_at_bind 12);
      [apply emits__set_listener_policy
      |intros _; now apply emits__delete_policy|lia]. }
  destruct (String.eqb (params.type sticky) "loadbalancer").
  - destruct (params.enabled sticky) as [[]|];
      [|apply Hoff|apply emits_at_quiet; cbn; try done].
    + destruct (params.expiration sticky);
        [apply emits__set_stickiness_policy|apply emits_at_quiet; cbn; try done].
    + intros s3. destruct (boto.lb_cookie_stickiness_policies _);
        [apply emits_at_quiet; cbn; try done|].
      apply emits_at_when. apply emits_at_quiet; cbn; try done.
  - destruct (String.eqb (params.type sticky) "application");
      [|apply emits__set_listener_policy].
    destruct (params.enabled sticky) as [[]|];
      [|apply Hoff|apply emits_at_quiet; cbn; try done].
    + destruct (params.cookie sticky);
        [apply emits__set_stickiness_policy|apply emits_at_quiet; cbn; try done].
    + intros s3. destruct (boto.app_cookie_stickiness_policies _);
        [apply emits_at_quiet; cbn; try done|].
      apply emits_at_when. apply emits_at_quiet; cbn; try done.
Qed.

Lemma emits__create_elb : emits n n' 1 1 _create_elb.
Proof.
  intros self. unfold _create_elb. with_own. apply emits_at_get.
  destruct (listeners (args self)) as [ls|]; [|apply emits_at_quiet; cbn; try done].
  apply (emits_at_bind 1); [apply emits_at_call; [addr|cbn; lia]| |lia].
  intros _ s. apply (emits_at_bind 1); [| |lia].
  - apply emits_at_quiet; cbn; [|done].
    intros [Hn' _]. split; [done|]. intros lb' [= <-]. now left.
  - intros _ s1. apply (emits_at_bind 1);
      [apply emits_at_quiet; cbn; try done
      |intros _ s2; apply emits_at_quiet; cbn; try done|lia].
Qed.

(** The steps of [ensure_ok] after creation or synchronisation. *)
Lemma emits_after_sync :
  emits n n' 9 12
    (_set_health_check;;
     self ← get;
     when (_check_attribute_support self "connection_draining")
       _set_connection_draining_timeout;;
     when (_check_attribute_support self "cross_zone_load_balancing")
       _set_cross_az_load_balancing;;
     select_stickiness_policy).
Proof.
  intros self.
  apply (emits_at_bind 9); [apply emits__set_health_check| |lia].
  intros _ s. apply emits_at_get.
  apply (emits_at_bind 10); [| |lia].
  { apply emits_at_when. eapply emits_at_weaken;
      [apply emits__set_connection_draining_timeout|lia|lia]. }
  intros _ s1. apply (emits_at_bind 11); [| |lia].
  { apply emits_at_when. apply emits__set_cross_az_load_balancing. }
  intros _ s2. eapply emits_at_weaken; [apply emits_select_stickiness_policy|lia|lia].
Qed.

Lemma emits_sync :
  emits n n' 2 8
    (_set_zones;; _set_security_groups;; _set_elb_listeners;; _set_subnets).
Proof.
  intros self.
  apply (emits_at_bind 3);
    [eapply emits_at_weaken; [apply emits__set_zones|lia|lia]| |lia].
  intros _ s. apply (emits_at_bind 4);
    [eapply emits_at_weaken; [apply emits__set_security_groups|lia|lia]| |lia].
  intros _ s1. apply (emits_at_bind 6);
    [eapply emits_at_weaken; [apply emits__set_elb_listeners|lia|lia]| |lia].
  intros _ s2. eapply emits_at_weaken; [apply emits__set_subnets|lia|lia].
Qed.

Lemma emits_ensure_ok_found self :
  elb self ≠ None → emits_at n n' 2 12 ensure_ok self.
Proof.
  intros Hfound. unfold ensure_ok. apply emits_at_get.
  destruct (elb self) as [lb|]; [|done].
  apply (emits_at_bind 9);
    [eapply emits_at_weaken; [apply emits_sync|lia|lia]| |lia].
  intros _ s. apply emits_after_sync.
Qed.

Lemma emits_ensure_ok self : emits_at n n' 1 12 ensure_ok self.
Proof.
  destruct (elb self) as [lb|] eqn:Hlb.
  - eapply emits_at_weaken; [apply emits_ensure_ok_found; congruence|lia|lia].
  - unfold ensure_ok. apply emits_at_get. rewrite Hlb.
    apply (emits_at_bind 9);
      [eapply emits_at_weaken; [apply emits__create_elb|lia|lia]| |lia].
    intros _ s. apply emits_after_sync.
Qed.

Lemma emits_ensure_gone : emits n n' 13 13 ensure_gone.
Proof.
  intros self. unfold ensure_gone. apply emits_at_get.
  destruct (elb self); [|apply emits_at_quiet; cbn; try done].
  unfold _delete_elb. with_own. apply emits_at_get.
  apply (emits_at_bind 13); [apply emits_at_call; [addr|cbn; lia]| |lia].
  intros _ s. apply (emits_at_bind 13);
    [apply emits_at_quiet; cbn; try done
    |intros _ s1; apply emits_at_quiet; cbn; try done|lia].
Qed.

End Emits.

Lemma own_initially self :
  own (name (args self)) (boto.name <$> elb self) self.
Proof. split; [done|]. intros lb ->. now right. Qed.

(** X1. Whatever the manager and however [ensure_ok] ends, the calls it
    makes come in the order of its steps: creation; enabling, then
    disabling zones; security groups; deleting, then creating listeners;
    attaching, then detaching subnets; the health check; connection
    draining; cross-zone balancing; stickiness. *)
Theorem ensure_ok_calls_in_step_order (self : ElbManager) :
  ∃ calls,
    provider.log (elb_conn (final (ensure_ok self)))
    = provider.log (elb_conn self) ++ calls
    ∧ in_step_order calls
    ∧ ∀ i j c c', (i < j)%nat → calls !! i = Some c → calls !! j = Some c' →
                  (phase c ≤ phase c')%nat.
Proof.
  destruct (emits_ensure_ok _ _ self (own_initially self))
    as (_ & calls & Hlog & _ & Hord).
  exists calls. split; [exact Hlog|]. split; [exact Hord|].
  clear Hlog. induction calls as [|c0 calls IH]; intros i j c c' Hij Hi Hj.
  - done.
  - destruct Hord as [Hc0 Hord]. destruct j as [|j]; [lia|]. cbn in Hj.
    destruct i as [|i]; cbn in Hi.
    + injection Hi as ->.
      exact (proj1 (Forall_forall _ _) Hc0 c' (list_elem_of_lookup_2 _ _ _ Hj)).
    + apply (IH Hord i j); [lia|done|done].
Qed.

Lemma ensure_ok_calls_in_step_order_witness :
  let self := manager (want_web [http_80] (Some ["sg-2"]) None) sample_runtime
                (web [live_22] ["sg-1"] no_policies) in
  ∃ c c',
    provider.log (elb_conn (final (ensure_ok self))) !! 1%nat = Some c
    ∧ provider.log (elb_conn (final (ensure_ok self))) !! 2%nat = Some c'
    ∧ c = delete_load_balancer_listeners "web" [VInt 22]
    ∧ c' = create_load_balancer_listeners "web" [_listener_as_tuple http_80]
    ∧ (phase c ≤ phase c')%nat.
Proof.
  intros self.
  destruct (ensure_ok_calls_in_step_order self) as (calls & Hlog & _ & Hord).
  vm_compute in Hlog. subst calls.
  eexists _, _. split; [vm_compute; reflexivity|].
  split; [vm_compute; reflexivity|]. split; [reflexivity|]. split; [reflexivity|].
  eapply (Hord 1%nat 2%nat); [lia|reflexivity|reflexivity].
Defined.

(** X2. [ensure_ok] and [ensure_gone] address every call to the load
    balancer the manager is named after or to the one it holds; after
    the constructor, which lists the load balancers and picks one of the
    manager's name, a run addresses every call to that name. *)
Theorem run_addresses_own_load_balancer :
  (∀ self,
     ∃ calls,
       provider.log (elb_conn (final (ensure_ok self)))
       = provider.log (elb_conn self) ++ calls
       ∧ ∀ c, c ∈ calls →
              ∃ m, lb_name_of c = Some m
                   ∧ (m = name (args self) ∨ Some m = boto.name <$> elb self))
  ∧ (∀ a rt conn,
       ∃ calls,
         provider.log (elb_conn (final (run_present a rt conn)))
         = provider.log conn ++ get_all_load_balancers None :: calls
         ∧ ∀ c, c ∈ calls → lb_name_of c = Some (name a))
  ∧ (∀ a rt conn,
       ∃ calls,
         provider.log (elb_conn (final (run_absent a rt conn)))
         = provider.log conn ++ get_all_load_balancers None :: calls
         ∧ ∀ c, c ∈ calls → lb_name_of c = Some (name a)).
Proof.
  assert (Hinit : ∀ a rt conn,
            ∃ self, __init__ a rt conn = Return tt self
                    ∧ own (name a) None self
                    ∧ provider.log (elb_conn self)
                      = provider.log conn ++ [get_all_load_balancers None]).
  { intros a rt conn.
    destruct (named (name a) (provider.region_lbs conn)) as [|lb rest] eqn:Hnamed.
    - rewrite (__init___absent a rt conn Hnamed). eexists. split; [done|].
      split; [|done]. split; [done|]. intros lb [=].
    - rewrite (__init___found a rt conn lb rest Hnamed). eexists. split; [done|].
      split; [|done]. split; [done|]. intros lb' [= <-]. left.
      assert (Hin : lb ∈ named (name a) (provider.region_lbs conn))
        by (rewrite Hnamed; left).
      apply list_elem_of_In, filter_In in Hin as [_ Heq].
      now apply String.eqb_eq in Heq. }
  assert (Hrun : ∀ (m : M unit) a rt conn lo hi,
            emits (name a) None lo hi m →
            ∃ calls,
              provider.log
                (elb_conn (final (match __init__ a rt conn with
                                  | Return _ self => m self
                                  | o => o
                                  end)))
              = provider.log conn ++ get_all_load_balancers None :: calls
              ∧ ∀ c, c ∈ calls → lb_name_of c = Some (name a)).
  { intros m a rt conn lo hi Hm.
    destruct (Hinit a rt conn) as (self & -> & Hown & Hlog).
    destruct (Hm self Hown) as (_ & calls & Hlog' & Hall & _).
    exists calls. split; [now rewrite Hlog', Hlog, <- app_assoc|].
    intros c Hc.
    destruct (proj1 (Forall_forall _ _) Hall c Hc) as [(m' & -> & [-> |[=]]) _].
    done. }
  split; [|split].
  - intros self.
    destruct (emits_ensure_ok _ _ self (own_initially self))
      as (_ & calls & Hlog & Hall & _).
    exists calls. split; [exact Hlog|]. intros c Hc.
    exact (proj1 (proj1 (Forall_forall _ _) Hall c Hc)).
  - intros a rt conn. apply (Hrun ensure_ok a rt conn 1%nat 12%nat).
    intros self. apply emits_ensure_ok.
  - intros a rt conn. apply (Hrun ensure_gone a rt conn 13%nat 13%nat).
    apply emits_ensure_gone.
Qed.

Lemma run_addresses_own_load_balancer_witness :
  let a := want_web [http_80] (Some ["sg-2"]) None in
  let conn := region [web [live_22] ["sg-1"] no_policies] in
  ∃ calls,
    provider.log (elb_conn (final (run_present a sample_runtime conn)))
    = get_all_load_balancers None :: calls
    ∧ apply_security_groups_to_lb "web" ["sg-2"] ∈ calls
    ∧ lb_name_of (apply_security_groups_to_lb "web" ["sg-2"]) = Some "web".
Proof.
  intros a conn.
  destruct run_addresses_own_load_balancer as (_ & Hpresent & _).
  destruct (Hpresent a sample_runtime conn) as (calls & Hlog & Hall).
  exists calls. split; [exact Hlog|].
  assert (Hin : apply_security_groups_to_lb "web" ["sg-2"] ∈ calls).
  { vm_compute in Hlog. injection Hlog as <-. left. }
  split; [exact Hin|]. exact (Hall _ Hin).
Defined.

Lemma ensure_ok_absent_calls self :
  elb self = None →
  ∃ calls,
    provider.log (elb_conn (final (ensure_ok self)))
    = provider.log (elb_conn self) ++ calls
    ∧ Forall (λ c, phase c = 1 ∨ 9 ≤ phase c ≤ 12)%nat calls.
Proof.
  intros Hnone.
  pose proof (own_initially self) as Hown.
  destruct (emits__create_elb _ _ self Hown) as (Hown1 & calls1 & Hlog1 & Hall1 & _).
  assert (Hcalls1 : Forall (λ c, phase c = 1 ∨ 9 ≤ phase c ≤ 12)%nat calls1).
  { eapply Forall_impl; [exact Hall1|]. cbn. intros c [_ ?]. lia. }
  assert (Hrun : ensure_ok self
                 = (_create_elb ≫= λ _,
                    _set_health_check;;
                    self ← get;
                    when (_check_attribute_support self "connection_draining")
                      _set_connection_draining_timeout;;
                    when (_check_attribute_support self "cross_zone_load_balancing")
                      _set_cross_az_load_balancing;;
                    select_stickiness_policy) self).
  { unfold ensure_ok. unfold mbind at 1. unfold M_bind at 1. unfold get at 1.
    now rewrite Hnone. }
  rewrite Hrun. unfold mbind at 1. unfold M_bind at 1.
  destruct (_create_elb self) as [[] s1|msg s1|exc s1]; cbn in Hlog1, Hown1;
    [|exists calls1; done..].
  destruct (emits_after_sync _ _ s1 Hown1) as (_ & calls2 & Hlog2 & Hall2 & _).
  exists (calls1 ++ calls2). split; [now rewrite Hlog2, Hlog1, app_assoc|].
  apply Forall_app. split; [exact Hcalls1|].
  eapply Forall_impl; [exact Hall2|]. cbn. intros c [_ ?]. lia.
Qed.

(** X3. [ensure_ok] never deletes the load balancer.  Holding a load
    balancer it never creates one; holding none it makes none of the
    calls of the zone, security-group, listener and subnet steps, since
    all of these go into the creation call. *)
Theorem ensure_ok_creates_or_synchronises (self : ElbManager) :
  ∃ calls,
    provider.log (elb_conn (final (ensure_ok self)))
    = provider.log (elb_conn self) ++ calls
    ∧ (∀ c, c ∈ calls → is_delete_call c = false)
    ∧ (elb self ≠ None → ∀ c, c ∈ calls → is_create_call c = false)
    ∧ (elb self = None → ∀ c, c ∈ calls → is_sync_call c = false).
Proof.
  destruct (elb self) as [lb|] eqn:Hlb.
  - destruct (emits_ensure_ok_found _ _ self ltac:(congruence) (own_initially self))
      as (_ & calls & Hlog & Hall & _).
    exists calls. split; [exact Hlog|]. split; [|split]; [| |done].
    + intros c Hc.
      destruct (proj1 (Forall_forall _ _) Hall c Hc) as [_ Hphase].
      destruct c; try done. cbn in Hphase. lia.
    + intros _ c Hc.
      destruct (proj1 (Forall_forall _ _) Hall c Hc) as [_ Hphase].
      destruct c; try done. cbn in Hphase. lia.
  - destruct (ensure_ok_absent_calls self Hlb) as (calls & Hlog & Hall).
    exists calls. split; [exact Hlog|]. split; [|split]; [|done|].
    + intros c Hc. pose proof (proj1 (Forall_forall _ _) Hall c Hc) as Hphase.
      destruct c; try done. cbn in Hphase. lia.
    + intros _ c Hc. pose proof (proj1 (Forall_forall _ _) Hall c Hc) as Hphase.
      destruct c; try done; cbn in Hphase; lia.
Qed.

Lemma ensure_ok_creates_or_synchronises_witness :
  let self := manager (want_web [http_80] (Some ["sg-2"]) None) sample_runtime
                (web [live_22] ["sg-1"] no_policies) in
  ∃ calls,
    provider.log (elb_conn (final (ensure_ok self))) = calls
    ∧ apply_security_groups_to_lb "web" ["sg-2"] ∈ calls
    ∧ ∀ c, c ∈ calls → is_create_call c = false.
Proof.
  intros self.
  destruct (ensure_ok_creates_or_synchronises self)
    as (calls & Hlog & _ & Hfound & _).
  exists calls. split; [exact Hlog|]. split.
  - vm_compute in Hlog. subst calls. left.
  - apply Hfound. discriminate.
Defined.

(** ** Stickiness enabled *)

Lemma _set_stickiness_policy_run elb_info d policy attrs ps self lb :
  policies_getattr (boto.policies elb_info) (pa_attr attrs) = Some ps →
  elb self = Some lb →
  ∃ self',
    _set_stickiness_policy elb_info d [policy] attrs self = Return tt self'
    ∧ provider.log (elb_conn self')
      = provider.log (elb_conn self)
        ++ policy_calls (boto.name lb) d ps policy (pa_method attrs)
             (pa_param_value attrs)
        ++ listener_policy_calls (boto.name lb) d [policy]
    ∧ changed self'
      = match first_named policy ps with
        | None => true
        | Some p =>
            if String.eqb (py_str (boto.policy_param p))
                 (py_str (pa_param_value attrs))
            then changed self else true
        end.
Proof.
  intros Hps Hlb. unfold _set_stickiness_policy, policy_calls. rewrite Hps.
  assert (Hattach : ∀ s : ElbManager, elb s = Some lb →
            ∃ self',
              _set_listener_policy d [policy] s = Return tt self'
              ∧ provider.log (elb_conn self')
                = provider.log (elb_conn s)
                  ++ listener_policy_calls (boto.name lb) d [policy]
              ∧ changed self' = changed s).
  { intros s Hs.
    destruct (_set_listener_policy_run d [policy] s lb Hs) as (conn & Hrun & Hlog & _).
    eexists. split; [exact Hrun|]. done. }
  unfold mbind at 1. unfold M_bind at 1.
  destruct (first_named policy ps) as [p|].
  - unfold when. destruct (String.eqb _ _); cbn [negb].
    + change (@mret M M_ret unit tt self) with (Return tt self). cbv beta iota.
      destruct (Hattach self Hlb) as (self' & -> & Hlog & Hchanged).
      exists self'. now rewrite Hlog, Hchanged.
    + destruct (_set_listener_policy_run d [] self lb Hlb)
        as (conn & Hdetach & Hlog0 & _).
      unfold mbind at 1. unfold M_bind at 1. rewrite Hdetach.
      unfold _update_policy, _delete_policy, _create_policy.
      unfold mbind, M_bind, the_elb, call, modify. cbn [elb set_elb_conn].
      rewrite Hlb. cbn [elb set_elb_conn set_changed].
      rewrite Hlb.
      match goal with
      | |- ∃ self', _set_listener_policy _ _ ?s = _ ∧ _ =>
          destruct (Hattach s Hlb) as (self' & -> & Hlog & Hchanged)
      end.
      exists self'. split; [done|]. rewrite Hlog, Hchanged. cbn.
      rewrite Hlog0. split; [|done]. now rewrite <- !app_assoc.
  - unfold _create_policy, mbind, M_bind, the_elb, call, modify.
    rewrite Hlb. cbn [elb set_elb_conn set_changed].
    match goal with
    | |- ∃ self', _set_listener_policy _ _ ?s = _ ∧ _ =>
        destruct (Hattach s Hlb) as (self' & -> & Hlog & Hchanged)
    end.
    exists self'. split; [done|]. rewrite Hlog, Hchanged. cbn.
    split; [|done]. now rewrite <- !app_assoc.
Qed.

(** Runs [select_stickiness_policy] up to the branch on the policy type:
    the check of the two keys, the reading of the load balancer and the
    building of [listeners_dict]. *)
Ltac open_stickiness self Hsticky Hboth Hlb Hinfo :=
  unfold select_stickiness_policy;
  unfold mbind at 1; unfold M_bind at 1; unfold get at 1; rewrite Hsticky;
  rewrite Hboth; unfold when;
  unfold mbind at 1; unfold M_bind at 1;
  change (@mret M M_ret unit tt self) with (Return tt self);
  cbv beta iota;
  unfold mbind at 1; unfold M_bind at 1; unfold the_elb at 1; rewrite Hlb;
  unfold mbind at 1; unfold M_bind at 1; unfold call at 1, modify at 1;
  unfold mbind at 1; unfold M_bind at 1; unfold get at 1;
  cbn [elb_conn set_elb_conn provider.region_lbs provider.received provider.effect];
  rewrite Hinfo.

Lemma not_both_keys sticky :
  params.cookie sticky = None ∨ params.expiration sticky = None →
  bool_decide (is_Some (params.cookie sticky))
  && bool_decide (is_Some (params.expiration sticky)) = false.
Proof. intros [-> | ->]; [done|]. now rewrite andb_false_r. Qed.

(** X4. With stickiness enabled, of type [loadbalancer] with an
    expiration or of type [application] with a cookie: the step reads
    the load balancer; creates the policy of the deterministic name when
    none of that name is there, leaves it alone when the one there has
    the desired parameter (compared as strings), and otherwise detaches
    it from the HTTP listeners, deletes it and creates it anew, the
    deletion before the creation; and in every case ends by attaching
    the policy to every port whose protocol starts with HTTP.  [changed]
    becomes true exactly when a policy was created. *)
Theorem enabled_stickiness (self : ElbManager) (sticky : params.Stickiness)
    (lb elb_info : boto.LoadBalancer) (rest : list boto.LoadBalancer)
    (policy_type meth : string) (ps : list boto.Policy) (param : value) :
  stickiness (args self) = Some sticky →
  params.cookie sticky = None ∨ params.expiration sticky = None →
  params.enabled sticky = Some true →
  elb self = Some lb →
  named (boto.name lb) (provider.region_lbs (elb_conn self)) = elb_info :: rest →
  (params.type sticky = "loadbalancer"
   ∧ policy_type = "LBCookieStickinessPolicyType"
   ∧ meth = "create_lb_cookie_stickiness_policy"
   ∧ ps = boto.lb_cookie_stickiness_policies (boto.policies elb_info)
   ∧ params.expiration sticky = Some param)
  ∨ (params.type sticky = "application"
     ∧ policy_type = "AppCookieStickinessPolicyType"
     ∧ meth = "create_app_cookie_stickiness_policy"
     ∧ ps = boto.app_cookie_stickiness_policies (boto.policies elb_info)
     ∧ params.cookie sticky = Some param) →
  let listeners_dict := listeners_dict_of (boto.listeners elb_info) in
  let policy := _policy_name self policy_type in
  ∃ self',
    select_stickiness_policy self = Return tt self'
    ∧ provider.log (elb_conn self')
      = provider.log (elb_conn self)
        ++ [get_all_load_balancers (Some (boto.name lb))]
        ++ policy_calls (boto.name lb) listeners_dict ps policy meth param
        ++ listener_policy_calls (boto.name lb) listeners_dict [policy]
    ∧ (changed self' = true
       ↔ changed self = true
         ∨ create_cookie_stickiness_policy meth param (boto.name lb) policy
           ∈ policy_calls (boto.name lb) listeners_dict ps policy meth param)
    ∧ (∀ p, first_named policy ps = Some p →
            py_str (boto.policy_param p) = py_str param →
            policy_calls (boto.name lb) listeners_dict ps policy meth param = [])
    ∧ (∀ p, first_named policy ps = Some p →
            py_str (boto.policy_param p) ≠ py_str param →
            policy_calls (boto.name lb) listeners_dict ps policy meth param
            = listener_policy_calls (boto.name lb) listeners_dict []
              ++ [delete_lb_policy (boto.name lb) policy;
                  create_cookie_stickiness_policy meth param (boto.name lb) policy])
    ∧ (first_named policy ps = None →
       policy_calls (boto.name lb) listeners_dict ps policy meth param
       = [create_cookie_stickiness_policy meth param (boto.name lb) policy]).
Proof.
  intros Hsticky Hkeys Hon Hlb Hinfo Hkind listeners_dict policy.
  pose proof (not_both_keys sticky Hkeys) as Hboth.
  assert (Hrun : ∃ self',
            select_stickiness_policy self = Return tt self'
            ∧ provider.log (elb_conn self')
              = provider.log (elb_conn self)
                ++ [get_all_load_balancers (Some (boto.name lb))]
                ++ policy_calls (boto.name lb) listeners_dict ps policy meth param
                ++ listener_policy_calls (boto.name lb) listeners_dict [policy]
            ∧ changed self'
              = match first_named policy ps with
                | None => true
                | Some p =>
                    if String.eqb (py_str (boto.policy_param p)) (py_str param)
                    then changed self else true
                end).
  { open_stickiness self Hsticky Hboth Hlb Hinfo. rewrite Hon.
    set (self1 := set_elb_conn _ self).
    change (_policy_name self1) with (_policy_name self).
    destruct Hkind as [(Htype & -> & -> & -> & Hparam)|(Htype & -> & -> & -> & Hparam)];
      rewrite Htype, Hparam; cbn [String.eqb Ascii.eqb Bool.eqb andb].
    - edestruct (_set_stickiness_policy_run elb_info listeners_dict policy
                   {| pa_type := "LBCookieStickinessPolicyType";
                      pa_attr := "lb_cookie_stickiness_policies";
                      pa_method := "create_lb_cookie_stickiness_policy";
                      pa_dict_key := "cookie_expiration_period";
                      pa_param_value := param |} _ self1 lb eq_refl Hlb)
        as (self' & Hrun & Hlog & Hchanged).
      exists self'. split; [exact Hrun|]. split; [|exact Hchanged].
      rewrite Hlog. cbn. now rewrite <- !app_assoc.
    - edestruct (_set_stickiness_policy_run elb_info listeners_dict policy
                   {| pa_type := "AppCookieStickinessPolicyType";
                      pa_attr := "app_cookie_stickiness_policies";
                      pa_method := "create_app_cookie_stickiness_policy";
                      pa_dict_key := "cookie_name";
                      pa_param_value := param |} _ self1 lb eq_refl Hlb)
        as (self' & Hrun & Hlog & Hchanged).
      exists self'. split; [exact Hrun|]. split; [|exact Hchanged].
      rewrite Hlog. cbn. now rewrite <- !app_assoc. }
  destruct Hrun as (self' & Hrun & Hlog & Hchanged).
  exists self'. split; [exact Hrun|]. split; [exact Hlog|].
  assert (Hdetach : ∀ c, c ∈ listener_policy_calls (boto.name lb) listeners_dict [] →
            c ≠ create_cookie_stickiness_policy meth param (boto.name lb) policy).
  { intros c (port & proto & _ & _ & ->)%listener_policy_calls_spec. done. }
  unfold policy_calls. split; [|split; [|split]].
  - rewrite Hchanged. destruct (first_named policy ps) as [p|].
    + destruct (String.eqb _ _).
      * split; [tauto|]. intros [?|Hin]; [done|inversion Hin].
      * split; [|done]. intros _. right.
        apply elem_of_app. right. right. left.
    + split; [|done]. intros _. right. left.
  - intros p -> Heq. apply String.eqb_eq in Heq. now rewrite Heq.
  - intros p -> Hne. apply String.eqb_neq in Hne. now rewrite Hne.
  - now intros ->.
Qed.

Lemma enabled_stickiness_witness :
  let lb := web [live_80; live_22] [] stale_policies in
  let self := manager (want_web [http_80] None (Some lb_sticky_on))
                sample_runtime lb in
  ∃ self',
    select_stickiness_policy self = Return tt self'
    ∧ provider.log (elb_conn self')
      = [get_all_load_balancers (Some "web");
         set_lb_policies_of_listener "web" 80 [];
         delete_lb_policy "web" "ec2-elb-lb-LBCookieStickinessPolicyType";
         create_cookie_stickiness_policy "create_lb_cookie_stickiness_policy"
           (VInt 300) "web" "ec2-elb-lb-LBCookieStickinessPolicyType";
         set_lb_policies_of_listener "web" 80
           ["ec2-elb-lb-LBCookieStickinessPolicyType"]]
    ∧ changed self' = true.
Proof.
  intros lb self.
  destruct (enabled_stickiness self lb_sticky_on lb lb []
              "LBCookieStickinessPolicyType" "create_lb_cookie_stickiness_policy"
              (boto.lb_cookie_stickiness_policies stale_policies) (VInt 300)
              eq_refl (or_introl eq_refl) eq_refl eq_refl eq_refl
              (or_introl (conj eq_refl (conj eq_refl (conj eq_refl
                 (conj eq_refl eq_refl))))))
    as (self' & Hrun & Hlog & Hchanged & _).
  exists self'. split; [exact Hrun|]. split.
  - rewrite Hlog. vm_compute. reflexivity.
  - apply Hchanged. right. vm_compute. right. right. left.
Defined.

(** ** Stickiness settings the step cannot carry out *)


Lemma run_present_through_ensure_ok a rt conn self' :
  run_present a rt conn = Return tt self' →
  ∃ self, args self = a ∧ ensure_ok self = Return tt self'.
Proof.
  intros Hrun. unfold run_present in Hrun.
  destruct (__init__ a rt conn) as [[] s0|msg s0|exc s0] eqn:Hinit; [|done|done].
  exists s0. split; [|exact Hrun].
  unfold __init__ in Hinit.
  refine (keeps_args_Return _ _ _ _ _ Hinit).
  apply keeps_args_bind; [exact keeps_args__get_elb|].
  intros e. apply keeps_args_primitive. constructor.
Qed.



(** X6. Stickiness settings the step does not recognise.  With a type
    that is neither [loadbalancer] nor [application] the step, after its
    reading call, detaches the policies of every HTTP listener, whatever
    [enabled] says, and makes no other call; with a known type and an
    [enabled] value that equals neither [True] nor [False] it makes the
    reading call only.  Both return, with [changed] as it was. *)
Theorem unrecognised_stickiness (self : ElbManager) (sticky : params.Stickiness)
    (lb elb_info : boto.LoadBalancer) (rest : list boto.LoadBalancer) :
  stickiness (args self) = Some sticky →
  params.cookie sticky = None ∨ params.expiration sticky = None →
  elb self = Some lb →
  named (boto.name lb) (provider.region_lbs (elb_conn self)) = elb_info :: rest →
  let listeners_dict := listeners_dict_of (boto.listeners elb_info) in
  (params.type sticky ≠ "loadbalancer" → params.type sticky ≠ "application" →
   ∃ self',
     select_stickiness_policy self = Return tt self'
     ∧ provider.log (elb_conn self')
       = provider.log (elb_conn self)
         ++ [get_all_load_balancers (Some (boto.name lb))]
         ++ listener_policy_calls (boto.name lb) listeners_dict []
     ∧ changed self' = changed self)
  ∧ (params.type sticky = "loadbalancer" ∨ params.type sticky = "application" →
     params.enabled sticky = None →
     ∃ self',
       select_stickiness_policy self = Return tt self'
       ∧ provider.log (elb_conn self')
         = provider.log (elb_conn self)
           ++ [get_all_load_balancers (Some (boto.name lb))]
       ∧ changed self' = changed self).
Proof.
  intros Hsticky Hkeys Hlb Hinfo listeners_dict.
  pose proof (not_both_keys sticky Hkeys) as Hboth.
  split.
  - intros Hnot_lb Hnot_app.
    open_stickiness self Hsticky Hboth Hlb Hinfo.
    apply String.eqb_neq in Hnot_lb, Hnot_app. rewrite Hnot_lb, Hnot_app.
    set (self1 := set_elb_conn _ self).
    destruct (_set_listener_policy_run listeners_dict [] self1 lb Hlb)
      as (conn & Hrun & Hlog & _).
    exists (set_elb_conn conn self1). split; [exact Hrun|]. split; [|done].
    cbn [elb_conn set_elb_conn]. rewrite Hlog. cbn. now rewrite <- app_assoc.
  - intros Htype Hnone.
    open_stickiness self Hsticky Hboth Hlb Hinfo. rewrite Hnone.
    eexists. split.
    + destruct Htype as [-> | ->]; reflexivity.
    + cbn. done.
Qed.

Lemma unrecognised_stickiness_witness :
  let lb := web [live_80; live_22] [] stale_policies in
  let self := manager (want_web [http_80] None (Some sticky_unknown_type))
                sample_runtime lb in
  ∃ self',
    select_stickiness_policy self = Return tt self'
    ∧ provider.log (elb_conn self')
      = [get_all_load_balancers (Some "web");
         set_lb_policies_of_listener "web" 80 []]
    ∧ changed self' = false.
Proof.
  intros lb self.
  destruct (unrecognised_stickiness self sticky_unknown_type lb lb []
              eq_refl (or_introl eq_refl) eq_refl eq_refl) as [Hunknown _].
  destruct (Hunknown ltac:(discriminate) ltac:(discriminate))
    as (self' & Hrun & Hlog & Hchanged).
  exists self'. split; [exact Hrun|]. split.
  - rewrite Hlog. vm_compute. reflexivity.
  - rewrite Hchanged. reflexivity.
Defined.

(** ** What [changed] reports *)

(** Goes through a method as [frame_with] does; [known] is tried first,
    for the methods dealt with before. *)
Ltac walk_with prim bind cond known :=
  repeat first
    [ progress intros
    | assumption
    | solve [known]
    | solve [apply prim; repeat constructor]
    | apply bind
    | apply cond
    | match goal with
      | |- _ (match ?x with _ => _ end) => destruct x
      | |- _ (let '(_, _) := ?x in _) => destruct x
      end ].

Lemma accounted_refl self : accounted self self.
Proof.
  split; [done|]. split; [|auto].
  exists []. rewrite app_nil_r. auto.
Qed.

Lemma accounted_trans s0 s1 s2 :
  accounted s0 s1 → accounted s1 s2 → accounted s0 s2.
Proof.
  intros (Ha1 & (calls1 & Hlog1 & Hup1) & Hdown1)
         (Ha2 & (calls2 & Hlog2 & Hup2) & Hdown2).
  split; [congruence|]. split.
  - exists (calls1 ++ calls2). split; [now rewrite Hlog2, Hlog1, app_assoc|].
    intros Hc. destruct (Hup2 Hc) as [Hc1|(c & Hin & Hmut)].
    + destruct (Hup1 Hc1) as [?|(c & Hin & Hmut)]; [now left|].
      right. exists c. split; [|exact Hmut]. apply elem_of_app. now left.
    + right. exists c. split; [|exact Hmut]. apply elem_of_app. now right.
  - intros Hc. destruct (Hdown1 Hc) as [Hc1|?]; [|now right].
    destruct (Hdown2 Hc1) as [?|?]; [now left|]. right. now rewrite <- Ha1.
Qed.

(** Nothing but reading and calling: [changed] is as it was. *)
Lemma accounted_same self self' calls :
  args self' = args self →
  provider.log (elb_conn self') = provider.log (elb_conn self) ++ calls →
  changed self' = changed self →
  accounted self self'.
Proof.
  intros Ha Hlog Hc. split; [exact Ha|]. split.
  - exists calls. split; [exact Hlog|]. rewrite Hc. auto.
  - rewrite Hc. auto.
Qed.

(** A mutating call, and [changed] set. *)
Lemma accounted_set self self' calls c :
  args self' = args self →
  provider.log (elb_conn self') = provider.log (elb_conn self) ++ calls →
  c ∈ calls → is_mutation c = true →
  changed self' = true →
  accounted self self'.
Proof.
  intros Ha Hlog Hin Hmut Hc. split; [exact Ha|]. split.
  - exists calls. split; [exact Hlog|]. intros _. right. now exists c.
  - auto.
Qed.

Lemma accounts_bind {A B} (m : M A) (k : A → M B) :
  accounts m → (∀ a, accounts (k a)) → accounts (m ≫= k).
Proof.
  intros Hm Hk self. specialize (Hm self).
  unfold mbind, M_bind. destruct (m self) as [a s1|msg s1|exc s1]; [|exact Hm..].
  exact (accounted_trans _ _ _ Hm (Hk a s1)).
Qed.

Lemma accounts_leaves_changed {A} (m : M A) : leaves_changed m → accounts m.
Proof.
  intros Hm self.
  destruct Hm; try exact (accounted_refl self).
  - unfold the_elb. destruct (elb self); exact (accounted_refl self).
  - now apply (accounted_same _ _ [c]).
  - now apply (accounted_same _ _ [c]).
  - unfold refresh_zones, modify. cbn.
    destruct (named _ _); exact (accounted_refl self).
  - unfold zone_error. destruct (contains _ _); exact (accounted_refl self).
Qed.

Lemma accounts_when c m : accounts m → accounts (when c m).
Proof.
  intros Hm. unfold when. destruct c; [exact Hm|].
  apply accounts_leaves_changed. constructor.
Qed.

Lemma accounts_for_each {A} (l : list A) (body : A → M unit) :
  (∀ x, accounts (body x)) → accounts (for_each l body).
Proof.
  intros Hbody. induction l as [|x l IH]; cbn [for_each].
  - apply accounts_leaves_changed. constructor.
  - apply accounts_bind; [apply Hbody|]. intros _. exact IH.
Qed.

(** The methods that assign [changed], each after a mutating call. *)
Lemma accounts_call_set c :
  is_mutation c = true → accounts (call c;; modify (set_changed true)).
Proof.
  intros Hmut self.
  apply (accounted_set _ _ [c] c); [done|done|left|exact Hmut|done].
Qed.

Lemma accounts__create_elb_listeners ls : accounts (_create_elb_listeners ls).
Proof.
  intros self.
  exact (accounts_call_set
           (create_load_balancer_listeners (name (args self)) ls) eq_refl self).
Qed.

Lemma accounts__delete_elb_listeners ls : accounts (_delete_elb_listeners ls).
Proof.
  intros self. unfold _delete_elb_listeners.
  destruct (ports_of ls) as [ports|]; [|exact (accounted_refl self)].
  exact (accounts_call_set
           (delete_load_balancer_listeners (name (args self)) ports) eq_refl self).
Qed.

Lemma accounts__attach_subnets ss : accounts (_attach_subnets ss).
Proof.
  intros self.
  exact (accounts_call_set (attach_lb_to_subnets (name (args self)) ss) eq_refl self).
Qed.

Lemma accounts__detach_subnets ss : accounts (_detach_subnets ss).
Proof.
  intros self.
  exact (accounts_call_set (detach_lb_from_subnets (name (args self)) ss) eq_refl self).
Qed.

Lemma accounts_zone_call (c : Call) (lb : boto.LoadBalancer) :
  is_mutation c = true →
  accounts (self ← get;
            match provider.zone_fault (elb_conn self) with
            | Some error_message => refused_call c;; zone_error error_message
            | None => call c;; refresh_zones lb
            end;;
            modify (set_changed true)).
Proof.
  intros Hmut self. unfold mbind, M_bind, get. cbv beta iota.
  destruct (provider.zone_fault (elb_conn self)) as [msg|].
  - unfold refused_call, modify, zone_error.
    destruct (contains msg _); now apply (accounted_same _ _ [c]).
  - unfold call, refresh_zones, modify. cbv beta iota.
    destruct (named _ _);
      (apply (accounted_set _ _ [c] c); [done|done|left|exact Hmut|done]).
Qed.

Lemma accounts__enable_zones zs : accounts (_enable_zones zs).
Proof.
  unfold _enable_zones.
  apply accounts_bind; [apply accounts_leaves_changed; constructor|].
  intros lb. now apply accounts_zone_call.
Qed.

Lemma accounts__disable_zones zs : accounts (_disable_zones zs).
Proof.
  unfold _disable_zones.
  apply accounts_bind; [apply accounts_leaves_changed; constructor|].
  intros lb. now apply accounts_zone_call.
Qed.

Lemma accounts__set_zones : accounts _set_zones.
Proof.
  unfold _set_zones.
  walk_with @accounts_leaves_changed @accounts_bind accounts_when
    ltac:(idtac; lazymatch goal with
          | |- accounts (_enable_zones _) => apply accounts__enable_zones
          | |- accounts (_disable_zones _) => apply accounts__disable_zones
          end).
Qed.

Lemma accounts__set_security_groups : accounts _set_security_groups.
Proof.
  unfold _set_security_groups.
  walk_with @accounts_leaves_changed @accounts_bind accounts_when ltac:(fail).
Qed.

Lemma accounts__set_elb_listeners : accounts _set_elb_listeners.
Proof.
  unfold _set_elb_listeners.
  walk_with @accounts_leaves_changed @accounts_bind accounts_when
    ltac:(idtac; lazymatch goal with
          | |- accounts (_delete_elb_listeners _) =>
              apply accounts__delete_elb_listeners
          | |- accounts (_create_elb_listeners _) =>
              apply accounts__create_elb_listeners
          end).
Qed.

Lemma accounts__set_subnets : accounts _set_subnets.
Proof.
  unfold _set_subnets.
  walk_with @accounts_leaves_changed @accounts_bind accounts_when
    ltac:(idtac; lazymatch goal with
          | |- accounts (_attach_subnets _) => apply accounts__attach_subnets
          | |- accounts (_detach_subnets _) => apply accounts__detach_subnets
          end).
Qed.

Lemma accounts__set_health_check : accounts _set_health_check.
Proof.
  unfold _set_health_check.
  walk_with @accounts_leaves_changed @accounts_bind accounts_when
    ltac:(idtac; lazymatch goal with
          | |- accounts (call _;; modify (set_changed true)) =>
              now apply accounts_call_set
          end).
Qed.

Lemma accounts_elb_get_attributes : accounts elb_get_attributes.
Proof.
  unfold elb_get_attributes.
  walk_with @accounts_leaves_changed @accounts_bind accounts_when ltac:(fail).
Qed.

Lemma accounts__set_connection_draining_timeout :
  accounts _set_connection_draining_timeout.
Proof.
  unfold _set_connection_draining_timeout.
  walk_with @accounts_leaves_changed @accounts_bind accounts_when
    ltac:(idtac; lazymatch goal with
          | |- accounts elb_get_attributes => apply accounts_elb_get_attributes
          end).
Qed.

Lemma accounts__set_cross_az_load_balancing :
  accounts _set_cross_az_load_balancing.
Proof.
  unfold _set_cross_az_load_balancing.
  walk_with @accounts_leaves_changed @accounts_bind accounts_when
    ltac:(idtac; lazymatch goal with
          | |- accounts elb_get_attributes => apply accounts_elb_get_attributes
          end).
Qed.

Lemma accounts__set_listener_policy d policy :
  accounts (_set_listener_policy d policy).
Proof.
  unfold _set_listener_policy. apply accounts_for_each. intros [port proto].
  walk_with @accounts_leaves_changed @accounts_bind accounts_when ltac:(fail).
Qed.

Lemma accounts__create_elb : accounts _create_elb.
Proof.
  intros self. unfold _create_elb, mbind, M_bind, get. cbv beta iota.
  destruct (listeners (args self)) as [ls|]; [|exact (accounted_refl self)].
  eapply (accounted_set _ _ [_]); [done|done|left|done|done].
Qed.

Lemma accounts__delete_elb : accounts _delete_elb.
Proof.
  intros self.
  eapply (accounted_set _ _ [delete_load_balancer (name (args self))]);
    [done|done|left|done|done].
Qed.

Lemma accounts_create_policy_set v meth policy :
  accounts (_create_policy v meth policy;; modify (set_changed true)).
Proof.
  intros self. unfold _create_policy, mbind, M_bind, the_elb.
  destruct (elb self) as [lb|]; [|exact (accounted_refl self)].
  eapply (accounted_set _ _ [_]); [done|done|left|done|done].
Qed.

Lemma accounts_update_policy_set v meth attr policy :
  accounts (_update_policy v meth attr policy;; modify (set_changed true)).
Proof.
  intros self. unfold _update_policy, _create_policy, _delete_policy.
  unfold mbind, M_bind, the_elb.
  destruct (elb self) as [lb|] eqn:Hlb; [|exact (accounted_refl self)].
  cbn. rewrite Hlb.
  eapply (accounted_set _ _ [_; _]);
    [done|cbn; now rewrite <- app_assoc|left|done|done].
Qed.

Lemma accounts__set_stickiness_policy elb_info d policy attrs :
  accounts (_set_stickiness_policy elb_info d policy attrs).
Proof.
  unfold _set_stickiness_policy.
  walk_with @accounts_leaves_changed @accounts_bind accounts_when
    ltac:(idtac; lazymatch goal with
          | |- accounts (_set_listener_policy _ _) =>
              apply accounts__set_listener_policy
          | |- accounts (_create_policy _ _ _;; modify (set_changed true)) =>
              apply accounts_create_policy_set
          | |- accounts (_update_policy _ _ _ _;; modify (set_changed true)) =>
              apply accounts_update_policy_set
          end).
Qed.

(** Switching stickiness off: [changed] is assigned before the calls,
    and the deletion of the policy, a mutating call, always follows. *)
Lemma accounted_switch_off (pre : M unit) d policy self s1 lb :
  elb self = Some lb →
  pre self = Return tt s1 →
  args s1 = args self → elb_conn s1 = elb_conn self → elb s1 = elb self →
  (changed self = true → changed s1 = true ∨ resets_changed (args self)) →
  accounted self
    (final ((pre;; _set_listener_policy d [];;
             _delete_policy (boto.name lb) policy) self)).
Proof.
  intros Hlb Hpre Hargs Hconn Helb Hdown.
  unfold mbind at 1. unfold M_bind at 1. rewrite Hpre.
  assert (Hlb1 : elb s1 = Some lb) by congruence.
  destruct (_set_listener_policy_run d [] s1 lb Hlb1) as (conn & Hrun & Hlog & _).
  unfold mbind at 1. unfold M_bind at 1. rewrite Hrun.
  unfold _delete_policy, call, modify. cbn [final].
  split; [exact Hargs|]. split.
  - eexists. split.
    + cbn. rewrite Hlog, Hconn, <- app_assoc. reflexivity.
    + intros _. right. exists (delete_lb_policy (boto.name lb) policy).
      split; [|done]. apply elem_of_app. right. left.
  - exact Hdown.
Qed.

Lemma accounts_select_stickiness_policy : accounts select_stickiness_policy.
Proof.
  intros self. unfold select_stickiness_policy.
  unfold mbind at 1. unfold M_bind at 1. unfold get at 1. cbv beta iota.
  destruct (stickiness (args self)) as [sticky|] eqn:Hsticky;
    [|exact (accounted_refl self)].
  unfold when.
  destruct (bool_decide _ && bool_decide _); [exact (accounted_refl self)|].
  unfold mbind at 1. unfold M_bind at 1.
  change (@mret M M_ret unit tt self) with (Return tt self). cbv beta iota.
  unfold mbind at 1. unfold M_bind at 1. unfold the_elb at 1.
  destruct (elb self) as [lb|] eqn:Hlb; [|exact (accounted_refl self)].
  unfold mbind at 1. unfold M_bind at 1. unfold call at 1, modify at 1.
  unfold mbind at 1. unfold M_bind at 1. unfold get at 1. cbv beta iota.
  set (self1 := set_elb_conn _ self).
  assert (H1 : accounted self self1).
  { now apply (accounted_same _ _ [get_all_load_balancers (Some (boto.name lb))]). }
  apply (accounted_trans _ _ _ H1).
  assert (Hlb1 : elb self1 = Some lb) by exact Hlb.
  assert (Hsticky1 : stickiness (args self1) = Some sticky) by exact Hsticky.
  clearbody self1. clear H1 Hlb Hsticky self.
  destruct (named _ _) as [|elb_info rest]; [exact (accounted_refl self1)|].
  cbv zeta.
  destruct (String.eqb (params.type sticky) "loadbalancer") eqn:Htype.
  - apply String.eqb_eq in Htype.
    destruct (params.enabled sticky) as [[]|] eqn:Hon;
      [|
       |exact (accounted_refl self1)].
    + destruct (params.expiration sticky); [|exact (accounted_refl self1)].
      apply accounts__set_stickiness_policy.
    + assert (Hresets : resets_changed (args self1)) by now exists sticky.
      destruct (boto.lb_cookie_stickiness_policies (boto.policies elb_info))
        as [|p ps].
      * now apply (accounted_switch_off _ _ _ self1 (set_changed false self1) lb);
          [..|right].
      * unfold when. destruct (first_policy_is _ _).
        -- now apply (accounted_switch_off _ _ _ self1 (set_changed true self1) lb);
             [..|left].
        -- now apply (accounted_switch_off _ _ _ self1 self1 lb); [..|left].
  - destruct (String.eqb (params.type sticky) "application").
    + destruct (params.enabled sticky) as [[]|];
        [|
         |exact (accounted_refl self1)].
      * destruct (params.cookie sticky); [|exact (accounted_refl self1)].
        apply accounts__set_stickiness_policy.
      * destruct (boto.app_cookie_stickiness_policies (boto.policies elb_info))
          as [|p ps].
        -- now apply (accounted_switch_off _ _ _ self1 self1 lb); [..|left].
        -- unfold when. destruct (first_policy_is _ _).
           ++ now apply (accounted_switch_off _ _ _ self1 (set_changed true self1) lb);
                [..|left].
           ++ now apply (accounted_switch_off _ _ _ self1 self1 lb); [..|left].
    + apply accounts__set_listener_policy.
Qed.

Lemma accounts_ensure_ok : accounts ensure_ok.
Proof.
  unfold ensure_ok.
  walk_with @accounts_leaves_changed @accounts_bind accounts_when
    ltac:(idtac; lazymatch goal with
          | |- accounts _create_elb => apply accounts__create_elb
          | |- accounts _set_zones => apply accounts__set_zones
          | |- accounts _set_security_groups => apply accounts__set_security_groups
          | |- accounts _set_elb_listeners => apply accounts__set_elb_listeners
          | |- accounts _set_subnets => apply accounts__set_subnets
          | |- accounts _set_health_check => apply accounts__set_health_check
          | |- accounts _set_connection_draining_timeout =>
              apply accounts__set_connection_draining_timeout
          | |- accounts _set_cross_az_load_balancing =>
              apply accounts__set_cross_az_load_balancing
          | |- accounts select_stickiness_policy =>
              apply accounts_select_stickiness_policy
          end).
Qed.

Lemma accounts_ensure_gone : accounts ensure_gone.
Proof.
  unfold ensure_gone.
  walk_with @accounts_leaves_changed @accounts_bind accounts_when
    ltac:(idtac; lazymatch goal with
          | |- accounts _delete_elb => apply accounts__delete_elb
          end).
Qed.

(** X7. [changed] is sound: [ensure_ok] and [ensure_gone], however they
    end, leave [changed] true only if it was true before or a mutating
    call has gone out, and a [changed] that was true stays true unless
    the settings are those of switched-off [loadbalancer] stickiness.  A
    run, which starts with [changed] false, reports [changed] true only
    after a mutating call. *)
Theorem changed_only_after_mutation :
  (∀ self, accounted self (final (ensure_ok self)))
  ∧ (∀ self, accounted self (final (ensure_gone self)))
  ∧ (∀ a rt conn o,
       o = run_present a rt conn ∨ o = run_absent a rt conn →
       ∃ calls,
         provider.log (elb_conn (final o))
         = provider.log conn ++ get_all_load_balancers None :: calls
         ∧ (changed (final o) = true → ∃ c, c ∈ calls ∧ is_mutation c = true)).
Proof.
  split; [exact accounts_ensure_ok|]. split; [exact accounts_ensure_gone|].
  assert (Hrun : ∀ (m : M unit) a rt conn,
            accounts m →
            ∃ calls,
              provider.log
                (elb_conn (final (match __init__ a rt conn with
                                  | Return _ self => m self
                                  | o => o
                                  end)))
              = provider.log conn ++ get_all_load_balancers None :: calls
              ∧ (changed (final (match __init__ a rt conn with
                                 | Return _ self => m self
                                 | o => o
                                 end)) = true →
                 ∃ c, c ∈ calls ∧ is_mutation c = true)).
  { intros m a rt conn Hm.
    assert (Hinit : ∃ self, __init__ a rt conn = Return tt self
                            ∧ changed self = false
                            ∧ provider.log (elb_conn self)
                              = provider.log conn ++ [get_all_load_balancers None]).
    { destruct (named (name a) (provider.region_lbs conn)) as [|lb rest] eqn:Hnamed.
      - rewrite (__init___absent a rt conn Hnamed). now eexists.
      - rewrite (__init___found a rt conn lb rest Hnamed). now eexists. }
    destruct Hinit as (self & -> & Hchanged & Hlog).
    destruct (Hm self) as (_ & (calls & Hlog' & Hup) & _).
    exists calls. split; [now rewrite Hlog', Hlog, <- app_assoc|].
    intros Hc. destruct (Hup Hc) as [?|?]; [congruence|done]. }
  intros a rt conn o [-> | ->].
  - exact (Hrun ensure_ok a rt conn accounts_ensure_ok).
  - exact (Hrun ensure_gone a rt conn accounts_ensure_gone).
Qed.

Lemma changed_only_after_mutation_witness :
  let a := want_web [http_80] None None in
  changed (final (run_present a sample_runtime (region []))) = true
  ∧ ∃ calls,
      provider.log (elb_conn (final (run_present a sample_runtime (region []))))
      = get_all_load_balancers None :: calls
      ∧ ∃ c, c ∈ calls ∧ is_mutation c = true.
Proof.
  intros a. split; [vm_compute; reflexivity|].
  destruct changed_only_after_mutation as (_ & _ & Hrun).
  destruct (Hrun a sample_runtime (region []) _ (or_introl eq_refl))
    as (calls & Hlog & Hmut).
  exists calls. split; [exact Hlog|]. apply Hmut. vm_compute. reflexivity.
Defined.

(** ** Invariants of the steps *)

Lemma invariant_bind P {A B} (m : M A) (k : A → M B) :
  invariant P m → (∀ a, invariant P (k a)) → invariant P (m ≫= k).
Proof.
  intros Hm Hk self HP. specialize (Hm self HP).
  unfold mbind, M_bind. destruct (m self) as [a s1|msg s1|exc s1]; [|exact Hm..].
  exact (Hk a s1 Hm).
Qed.

Lemma invariant_made_of P allowed {A} (m : M A) :
  (∀ u self, allowed u → P self → P (updated u self)) →
  made_of allowed m → invariant P m.
Proof.
  intros Hclosed Hm self HP.
  destruct Hm as [| | | | | |c Hu|c Hu|b Hu|b Hu|s Hu|e Hu|lb Hu];
    try exact HP; try exact (Hclosed _ self Hu HP).
  - unfold the_elb. now destruct (elb self).
  - unfold zone_error. now destruct (contains _ _).
Qed.

Lemma invariant_when P c m : invariant P m → invariant P (when c m).
Proof. intros Hm. unfold when. destruct c; [exact Hm|]. now intros self. Qed.

Lemma invariant_for_each P {A} (l : list A) (body : A → M unit) :
  (∀ x, invariant P (body x)) → invariant P (for_each l body).
Proof.
  intros Hbody. induction l as [|x l IH]; cbn [for_each].
  - now intros self.
  - apply invariant_bind; [apply Hbody|]. intros _. exact IH.
Qed.

Section Closing.

Variable P : ElbManager → Prop.
Hypothesis P_closed : ∀ u self, closing_update u → P self → P (updated u self).

Lemma closing_made_of {A} (m : M A) : made_of closing_update m → invariant P m.
Proof. exact (invariant_made_of P closing_update m P_closed). Qed.

Lemma closing__set_listener_policy d policy :
  invariant P (_set_listener_policy d policy).
Proof.
  unfold _set_listener_policy. apply invariant_for_each. intros [port proto].
  walk_with @closing_made_of (@invariant_bind P) (invariant_when P) ltac:(fail).
Qed.

Lemma closing_select_stickiness_policy : invariant P select_stickiness_policy.
Proof.
  unfold select_stickiness_policy, _set_stickiness_policy, _update_policy,
    _create_policy, _delete_policy.
  walk_with @closing_made_of (@invariant_bind P) (invariant_when P)
    ltac:(idtac; lazymatch goal with
          | |- invariant _ (_set_listener_policy _ _) =>
              apply closing__set_listener_policy
          end).
Qed.

(** An invariant of the updates of the closing steps is an invariant of
    the closing steps. *)
Lemma closing_steps_invariant : invariant P closing_steps.
Proof.
  unfold closing_steps, _set_health_check, _set_connection_draining_timeout,
    _set_cross_az_load_balancing, elb_get_attributes.
  walk_with @closing_made_of (@invariant_bind P) (invariant_when P)
    ltac:(idtac; lazymatch goal with
          | |- invariant _ select_stickiness_policy =>
              apply closing_select_stickiness_policy
          end).
Qed.

End Closing.

(** ** Creation *)

Lemma named_on_lb n n' f lbs :
  (∀ lb, boto.name (f lb) = boto.name lb) →
  named n (provider.on_lb n' f lbs)
  = map (λ lb, if String.eqb (boto.name lb) n' then f lb else lb) (named n lbs).
Proof.
  intros Hf. unfold named, provider.on_lb.
  induction lbs as [|lb lbs IH]; [done|]. cbn.
  assert (Hname : boto.name (if String.eqb (boto.name lb) n' then f lb else lb)
                  = boto.name lb).
  { destruct (String.eqb (boto.name lb) n'); [apply Hf|done]. }
  rewrite Hname. destruct (String.eqb (boto.name lb) n); cbn; now rewrite IH.
Qed.

Lemma same_placement_refl lb : same_placement lb lb.
Proof. repeat split. Qed.

Lemma placed_on_lb n n' f lbs lb rest lb0 :
  (∀ lb, same_placement (f lb) lb) →
  named n lbs = lb :: rest → same_placement lb lb0 →
  ∃ lb' rest',
    named n (provider.on_lb n' f lbs) = lb' :: rest' ∧ same_placement lb' lb0.
Proof.
  intros Hf Hnamed Hsame.
  rewrite named_on_lb by (intros lb1; apply (Hf lb1)).
  rewrite Hnamed. cbn [map]. eexists _, _. split; [reflexivity|].
  destruct (String.eqb (boto.name lb) n'); [|exact Hsame].
  destruct (Hf lb) as (H1 & H2 & H3 & H4 & H5 & H6).
  destruct Hsame as (G1 & G2 & G3 & G4 & G5 & G6).
  repeat split; congruence.
Qed.

Lemma api_tuple_with_policy_names p l :
  _api_listener_as_tuple (provider.with_policy_names p l) = _api_listener_as_tuple l.
Proof. reflexivity. Qed.

(** The calls of the closing steps leave the placement alone. *)
Lemma closing_call_keeps_placement c n lbs lb rest lb0 :
  (9 ≤ phase c ≤ 12)%nat →
  named n lbs = lb :: rest → same_placement lb lb0 →
  ∃ lb' rest',
    named n (provider.effect c lbs) = lb' :: rest' ∧ same_placement lb' lb0.
Proof.
  intros Hphase Hnamed Hsame.
  destruct c; cbn in Hphase; try lia; cbn [provider.effect];
    try (now exists lb, rest).
  - apply (placed_on_lb _ _ _ _ lb rest); [|done|done].
    intros lb1. repeat split.
  - apply (placed_on_lb _ _ _ _ lb rest); [|done|done].
    intros lb1. destruct v; repeat case_match; repeat split.
  - apply (placed_on_lb _ _ _ _ lb rest); [|done|done].
    intros lb1. cbv zeta.
    destruct (String.eqb meth _); [repeat split|].
    destruct (String.eqb meth _); repeat split.
  - apply (placed_on_lb _ _ _ _ lb rest); [|done|done].
    intros lb1. repeat split.
  - apply (placed_on_lb _ _ _ _ lb rest); [|done|done].
    intros lb1. repeat split. cbn. rewrite map_map. apply map_ext.
    intros l. now destruct (boto.load_balancer_port l =? port).
Qed.

Lemma placed_as_closed n lb0 u self :
  closing_update u → placed_as n lb0 self → placed_as n lb0 (updated u self).
Proof.
  intros Hu (lb & rest & Hnamed & Hsame).
  destruct u; cbn in Hu; try done; try (now exists lb, rest).
  exact (closing_call_keeps_placement c n _ lb rest lb0 Hu Hnamed Hsame).
Qed.

Lemma status_closed s u self :
  closing_update u → status self = s → status (updated u self) = s.
Proof. intros Hu Hs. destruct u; cbn in Hu; done. Qed.

Lemma accounts_closing_steps : accounts closing_steps.
Proof.
  unfold closing_steps.
  walk_with @accounts_leaves_changed @accounts_bind accounts_when
    ltac:(idtac; lazymatch goal with
          | |- accounts _set_health_check => apply accounts__set_health_check
          | |- accounts _set_connection_draining_timeout =>
              apply accounts__set_connection_draining_timeout
          | |- accounts _set_cross_az_load_balancing =>
              apply accounts__set_cross_az_load_balancing
          | |- accounts select_stickiness_policy =>
              apply accounts_select_stickiness_policy
          end).
Qed.

(** The service makes of the tuple of a desired listener a listener that
    reads back as the same tuple, unless the certificate is the empty
    string: that listener reads back without its certificate. *)
Lemma listener_round_trip d :
  ∃ l,
    provider.listener_of_tuple (_listener_as_tuple d) = Some l
    ∧ (certificate_kept d → _api_listener_as_tuple l = _listener_as_tuple d)
    ∧ (¬ certificate_kept d →
       _api_listener_as_tuple l = take 4 (_listener_as_tuple d)).
Proof.
  unfold _listener_as_tuple, certificate_kept.
  destruct (params.instance_protocol d) as [q|];
    destruct (params.ssl_certificate_id d) as [c|]; cbn;
    eexists; (split; [reflexivity|]); unfold _api_listener_as_tuple; cbn.
  all: try (split; [done|]; intros Hnot; exfalso; apply Hnot; intros c' [=]).
  all: destruct (String.eqb (py_str c) "") eqn:Hc; cbn.
  all: try (apply String.eqb_eq in Hc; split;
            [intros Hkept; now destruct (Hkept c eq_refl)|done]).
  all: try (apply String.eqb_neq in Hc; split; [done|];
            intros Hnot; exfalso; apply Hnot; now intros c' [= <-]).
Qed.

Lemma named_app n lbs lbs' : named n (lbs ++ lbs') = named n lbs ++ named n lbs'.
Proof. unfold named. induction lbs as [|lb lbs IH]; cbn; [done|]. destruct (String.eqb _ _); cbn; now rewrite IH. Qed.

Lemma round_trip_all ls :
  Forall certificate_kept ls →
  map _api_listener_as_tuple
    (omap provider.listener_of_tuple (map _listener_as_tuple ls))
  = map _listener_as_tuple ls.
Proof.
  induction 1 as [|d ls Hd _ IH]; [done|]. cbn.
  destruct (listener_round_trip d) as (l & -> & Hkept & _). cbn.
  now rewrite IH, (Hkept Hd).
Qed.

(** In a region without a load balancer of the name, a run with
    [state: present] is the creation followed by the closing steps. *)
Lemma run_present_creates a rt conn ls :
  named (name a) (provider.region_lbs conn) = [] →
  listeners a = Some ls →
  run_present a rt conn = closing_steps (created_manager a rt conn ls).
Proof.
  intros Hnamed Hls.
  unfold run_present. rewrite (__init___absent a rt conn Hnamed).
  set (s0 := {| args := a; elb := None |}).
  change ((_create_elb;; closing_steps) s0
          = closing_steps (created_manager a rt conn ls)).
  unfold mbind at 1. unfold M_bind at 1.
  unfold _create_elb. unfold mbind at 1. unfold M_bind at 1.
  unfold get at 1. cbv beta iota.
  change (listeners (args s0)) with (listeners a). now rewrite Hls.
Qed.

Lemma created_manager_listed a rt conn ls :
  listed (name a) (created_manager a rt conn ls).
Proof.
  unfold listed, created_manager.
  cbn [elb_conn provider.received provider.region_lbs provider.effect].
  rewrite named_app. cbn. rewrite String.eqb_refl.
  now destruct (named _ _).
Qed.

(** X8. A run with [state: present] in a region that has no load
    balancer of the name: after the listing, one [create_load_balancer]
    call carries the name, zones, security groups, subnets, scheme and
    the tuples of the desired listeners; only calls of the health check,
    attribute and stickiness steps follow, all addressed to the name.
    However the run ends, the status is [created], [changed] is true
    unless switched-off [loadbalancer] stickiness took it back, and the
    region has a load balancer of the name with the zones, security
    groups, subnets and scheme asked for, whose listeners read back as
    the tuples of the desired ones when no certificate is the empty
    string. *)
Theorem creation (a : Desired) (rt : Runtime) (conn : provider.Conn)
    (ls : list params.Listener) :
  named (name a) (provider.region_lbs conn) = [] →
  listeners a = Some ls →
  let self' := final (run_present a rt conn) in
  let create :=
    create_load_balancer (name a) (zones a) (security_group_ids a)
      (map _listener_as_tuple ls) (subnets a) (scheme a) in
  (∃ later,
     provider.log (elb_conn self')
     = provider.log conn ++ [get_all_load_balancers None; create] ++ later
     ∧ ∀ c, c ∈ later →
            (9 ≤ phase c ≤ 12)%nat ∧ lb_name_of c = Some (name a))
  ∧ status self' = created
  ∧ (changed self' = true ∨ resets_changed a)
  ∧ ∃ lb rest,
      named (name a) (provider.region_lbs (elb_conn self')) = lb :: rest
      ∧ boto.availability_zones lb = provider.or_empty (zones a)
      ∧ boto.security_groups lb = provider.or_empty (security_group_ids a)
      ∧ boto.subnets lb = provider.or_empty (subnets a)
      ∧ boto.scheme lb = scheme a
      ∧ (Forall certificate_kept ls →
         map _api_listener_as_tuple (boto.listeners lb)
         = map _listener_as_tuple ls).
Proof.
  intros Hnamed Hls self' create.
  set (s1 := created_manager a rt conn ls).
  subst self'. rewrite (run_present_creates a rt conn ls Hnamed Hls). fold s1.
  set (lb0 := {| boto.name := name a;
                 boto.availability_zones := provider.or_empty (zones a);
                 boto.security_groups := provider.or_empty (security_group_ids a);
                 boto.listeners :=
                   omap provider.listener_of_tuple (map _listener_as_tuple ls);
                 boto.subnets := provider.or_empty (subnets a);
                 boto.scheme := scheme a;
                 boto.health_check := None;
                 boto.policies :=
                   {| boto.lb_cookie_stickiness_policies := [];
                      boto.app_cookie_stickiness_policies := [] |};
                 boto.attributes := provider.default_attributes |}).
  assert (Hplaced : placed_as (name a) lb0 s1).
  { exists lb0, []. split; [|apply same_placement_refl].
    cbn [s1 created_manager elb_conn provider.received provider.region_lbs
         provider.effect].
    rewrite named_app, Hnamed. cbn. now rewrite String.eqb_refl. }
  assert (Hown : own (name a) None s1).
  { split; [done|]. intros lb [= <-]. now left. }
  destruct (emits_after_sync (name a) None s1 Hown) as (_ & later & Hlog & Hall & _).
  fold closing_steps in Hlog.
  pose proof (closing_steps_invariant (λ s, status s = created)
                (status_closed created) s1 eq_refl) as Hstatus.
  pose proof (closing_steps_invariant (placed_as (name a) lb0)
                (placed_as_closed (name a) lb0) s1 Hplaced) as Hregion.
  destruct (accounts_closing_steps s1) as (_ & _ & Hdown).
  split; [|split; [exact Hstatus|split; [exact (Hdown eq_refl)|]]].
  - exists later. split.
    + rewrite Hlog. cbn. now rewrite <- !app_assoc.
    + intros c Hc.
      destruct (proj1 (Forall_forall _ _) Hall c Hc) as [(m & Hm & [-> |[=]]) Hphase].
      done.
  - destruct Hregion as (lb & rest & Hlb & H1 & H2 & H3 & H4 & H5 & H6).
    exists lb, rest. split; [exact Hlb|]. repeat split; try done.
    intros Hkept. rewrite H6. cbn. now apply round_trip_all.
Qed.

Lemma creation_witness :
  let a := want_web [http_80] None None in
  let self' := final (run_present a sample_runtime (region [])) in
  status self' = created
  ∧ ∃ lb rest,
      named "web" (provider.region_lbs (elb_conn self')) = lb :: rest
      ∧ boto.availability_zones lb = ["us-east-1a"]
      ∧ map _api_listener_as_tuple (boto.listeners lb) = [_listener_as_tuple http_80].
Proof.
  intros a self'.
  destruct (creation a sample_runtime (region []) [http_80] eq_refl eq_refl)
    as (_ & Hstatus & _ & lb & rest & Hnamed & Hzones & _ & _ & _ & Hlisteners).
  split; [exact Hstatus|]. exists lb, rest. split; [exact Hnamed|].
  split; [exact Hzones|]. apply Hlisteners.
  constructor; [|constructor]. intros c Hc. discriminate Hc.
Defined.

(** ** Zone calls the service refuses *)

Lemma zone_refused_exit (c : Call) (lb : boto.LoadBalancer) msg self :
  provider.zone_fault (elb_conn self) = Some msg →
  (self ← get;
   match provider.zone_fault (elb_conn self) with
   | Some error_message => refused_call c;; zone_error error_message
   | None => call c;; refresh_zones lb
   end;;
   modify (set_changed true)) self
  = Exit (if contains msg "Invalid Availability Zone" then msg
          else "an unknown server error occurred, please try again later")
      (set_elb_conn (provider.refused c (elb_conn self)) self).
Proof.
  intros Hfault. unfold mbind, M_bind, get. cbv beta iota. rewrite Hfault.
  unfold refused_call, modify, zone_error. now destruct (contains msg _).
Qed.

Lemma _set_zones_steps self desired lb :
  zones (args self) = Some desired → desired ≠ [] → elb self = Some lb →
  _set_zones self
  = (when (nonempty (Some (to_enable desired (boto.availability_zones lb))))
       (_enable_zones (to_enable desired (boto.availability_zones lb)));;
     when (nonempty (to_disable (purge_zones (args self)) desired
                       (boto.availability_zones lb)))
       (_disable_zones
          (provider.or_empty
             (to_disable (purge_zones (args self)) desired
                (boto.availability_zones lb))))) self.
Proof.
  intros Hz Hne Hlb. unfold _set_zones.
  unfold mbind at 1. unfold M_bind at 1. unfold get at 1. cbv beta iota.
  rewrite Hz. destruct desired as [|z0 desired]; [done|].
  cbn [nonempty provider.or_empty].
  unfold mbind at 1. unfold M_bind at 1. unfold the_elb at 1. now rewrite Hlb.
Qed.

(** X9. When the service refuses zone calls and the zones are not in
    line, [_set_zones] exits through [fail_json] after the first call it
    tries: with the message of the service when that contains
    [Invalid Availability Zone], and with a fixed message otherwise.
    [changed] is not set, the load balancer held and the region are as
    before, and after a refused [enable_zones] no [disable_zones] is
    tried.  [ensure_ok], whose first step this is, exits likewise. *)
Theorem refused_zone_call (self : ElbManager) (desired : list string)
    (lb : boto.LoadBalancer) (msg : string) :
  zones (args self) = Some desired → desired ≠ [] →
  elb self = Some lb →
  provider.zone_fault (elb_conn self) = Some msg →
  let calls := zone_calls (boto.name lb) (purge_zones (args self)) desired
                 (boto.availability_zones lb) in
  let reported :=
    if contains msg "Invalid Availability Zone" then msg
    else "an unknown server error occurred, please try again later" in
  (calls = [] → _set_zones self = Return tt self)
  ∧ (∀ c later, calls = c :: later →
       let self' := set_elb_conn (provider.refused c (elb_conn self)) self in
       _set_zones self = Exit reported self'
       ∧ ensure_ok self = Exit reported self'
       ∧ provider.log (elb_conn self') = provider.log (elb_conn self) ++ [c]
       ∧ provider.region_lbs (elb_conn self') = provider.region_lbs (elb_conn self)
       ∧ changed self' = changed self ∧ elb self' = elb self).
Proof.
  intros Hz Hne Hlb Hfault calls reported.
  pose proof (_set_zones_steps self desired lb Hz Hne Hlb) as Hsteps.
  assert (Hen : ∀ zs, _enable_zones zs self
                      = Exit reported
                          (set_elb_conn
                             (provider.refused (enable_zones (boto.name lb) zs)
                                (elb_conn self)) self)).
  { intros zs. unfold _enable_zones.
    unfold mbind at 1. unfold M_bind at 1. unfold the_elb at 1. rewrite Hlb.
    now apply zone_refused_exit. }
  assert (Hdis : ∀ zs, _disable_zones zs self
                       = Exit reported
                           (set_elb_conn
                              (provider.refused (disable_zones (boto.name lb) zs)
                                 (elb_conn self)) self)).
  { intros zs. unfold _disable_zones.
    unfold mbind at 1. unfold M_bind at 1. unfold the_elb at 1. rewrite Hlb.
    now apply zone_refused_exit. }
  assert (Hstep : (calls = [] → _set_zones self = Return tt self)
                  ∧ ∀ c later, calls = c :: later →
                      _set_zones self
                      = Exit reported
                          (set_elb_conn (provider.refused c (elb_conn self)) self)).
  { subst calls. rewrite Hsteps. unfold zone_calls. clear Hsteps.
    unfold mbind, M_bind.
    destruct (to_enable desired (boto.availability_zones lb)) as [|e0 en].
    - cbn [nonempty when app].
      change (@mret M M_ret unit tt self) with (Return tt self). cbv beta iota.
      destruct (to_disable _ _ _) as [[|d0 dis]|];
        cbn [nonempty when provider.or_empty].
      + split; [done|]. intros c later [=].
      + split; [intros [=]|]. intros c later [= <- <-]. apply Hdis.
      + split; [done|]. intros c later [=].
    - cbn [nonempty when]. split; [intros [=]|]. intros c later [= <- _].
      now rewrite Hen. }
  destruct Hstep as [Hnone Hsome]. split; [exact Hnone|].
  intros c later Hcalls self'. split; [exact (Hsome c later Hcalls)|].
  split; [|done].
  unfold ensure_ok. unfold mbind at 1. unfold M_bind at 1. unfold get at 1.
  cbv beta iota. rewrite Hlb.
  unfold mbind at 1. unfold M_bind at 1.
  unfold mbind at 1. unfold M_bind at 1.
  now rewrite (Hsome c later Hcalls).
Qed.

Lemma refused_zone_call_witness :
  let lb := web [live_80] [] no_policies in
  let conn := {| provider.region_lbs := [lb]; provider.log := [];
                 provider.zone_fault := Some "Invalid Availability Zone: us-east-9z" |} in
  let self := set_elb_conn conn
                (manager (want_placement (Some ["us-east-9z"]) true None false)
                   sample_runtime lb) in
  ∃ self',
    ensure_ok self = Exit "Invalid Availability Zone: us-east-9z" self'
    ∧ provider.log (elb_conn self') = [enable_zones "web" ["us-east-9z"]]
    ∧ changed self' = false.
Proof.
  intros lb conn self.
  destruct (refused_zone_call self ["us-east-9z"] lb
              "Invalid Availability Zone: us-east-9z"
              eq_refl ltac:(discriminate) eq_refl eq_refl) as [_ Hexit].
  destruct (Hexit (enable_zones "web" ["us-east-9z"])
              [disable_zones "web" ["us-east-1a"]] ltac:(vm_compute; reflexivity))
    as (_ & Hrun & Hlog & _ & Hchanged & _).
  eexists. split; [exact Hrun|]. split; [exact Hlog|exact Hchanged].
Defined.

(** ** The steps on a load balancer found *)

Lemma closing_sync_update u : closing_update u → sync_update u.
Proof.
  destruct u as [c| | | | | |]; cbn; try done.
  intros Hphase. destruct c; cbn in Hphase; try done; lia.
Qed.

Section Found.

Variable P : ElbManager → Prop.
Hypothesis P_closed : ∀ u self, sync_update u → P self → P (updated u self).

Lemma found_made_of {A} (m : M A) : made_of sync_update m → invariant P m.
Proof. exact (invariant_made_of P sync_update m P_closed). Qed.

Lemma sync_steps_invariant : invariant P sync_steps.
Proof.
  unfold sync_steps, _set_zones, _enable_zones, _disable_zones,
    _set_security_groups, _set_elb_listeners, _delete_elb_listeners,
    _create_elb_listeners, _set_subnets, _attach_subnets, _detach_subnets.
  walk_with @found_made_of (@invariant_bind P) (invariant_when P) ltac:(fail).
Qed.

(** An invariant of these updates is an invariant of [ensure_ok] on a
    manager that holds a load balancer. *)
Lemma ensure_ok_found_invariant self :
  elb self ≠ None → P self → P (final (ensure_ok self)).
Proof.
  intros Hlb HP.
  assert (Hrun : ensure_ok self = (sync_steps;; closing_steps) self).
  { unfold ensure_ok. unfold mbind at 1. unfold M_bind at 1. unfold get at 1.
    cbv beta iota. destruct (elb self); [reflexivity|done]. }
  rewrite Hrun. revert HP. apply invariant_bind; [exact sync_steps_invariant|].
  intros _. apply closing_steps_invariant.
  intros u s Hu. apply P_closed. now apply closing_sync_update.
Qed.

End Found.

Lemma named_nonempty n lbs : named n lbs ≠ [] ↔ n ∈ map boto.name lbs.
Proof.
  unfold named. induction lbs as [|lb lbs IH]; cbn.
  - split; [done|]. intros Hin. inversion Hin.
  - destruct (String.eqb (boto.name lb) n) eqn:Heq.
    + apply String.eqb_eq in Heq. split; [|done]. intros _. rewrite Heq. left.
    + apply String.eqb_neq in Heq. rewrite IH. split; [now right|].
      intros Hin. apply elem_of_cons in Hin as [?|?]; [congruence|done].
Qed.

Lemma names_on_lb n f lbs :
  (∀ lb, boto.name (f lb) = boto.name lb) →
  map boto.name (provider.on_lb n f lbs) = map boto.name lbs.
Proof.
  intros Hf. unfold provider.on_lb. rewrite map_map. apply map_ext.
  intros lb. destruct (String.eqb _ _); [apply Hf|done].
Qed.

(** No call but a deletion takes a load balancer out of the region, and
    none but a creation adds one. *)
Lemma effect_keeps_names c lbs :
  is_delete_call c = false → is_create_call c = false →
  map boto.name (provider.effect c lbs) = map boto.name lbs.
Proof.
  intros Hdel Hcre. destruct c; try done; cbn [provider.effect];
    try (apply names_on_lb; intros lb; reflexivity).
  - apply names_on_lb. intros lb. destruct v; repeat case_match; reflexivity.
  - apply names_on_lb. intros lb. cbv zeta. repeat case_match; reflexivity.
Qed.

Lemma listed_closed n u self :
  sync_update u → listed n self → listed n (updated u self).
Proof.
  unfold listed. intros Hu Hlisted.
  destruct u as [c| | | | | |lb]; cbn in Hu; try done.
  - destruct Hu as [Hdel Hcre]. cbn.
    apply named_nonempty. rewrite (effect_keeps_names c _ Hdel Hcre).
    now apply named_nonempty.
  - cbn. now destruct (named (boto.name lb) _).
Qed.

Lemma status_sync_closed s u self :
  sync_update u → status self = s → status (updated u self) = s.
Proof.
  intros Hu Hs. destruct u as [c| | | | | |lb]; cbn in Hu; try done.
  cbn. now destruct (named (boto.name lb) _).
Qed.

(** ** The facts reported *)

Lemma count_states_from health i o u :
  fold_left
    (fun '(in_service, out_of_service, unknown) instance_state =>
       if String.eqb (instance.state instance_state) "InService"
       then (in_service + 1, out_of_service, unknown)
       else if String.eqb (instance.state instance_state) "OutOfService"
       then (in_service, out_of_service + 1, unknown)
       else (in_service, out_of_service, unknown + 1))
    health (i, o, u)
  = (i + Z.of_nat (length (in_state "InService" health)),
     o + Z.of_nat (length (in_state "OutOfService" health)),
     u + Z.of_nat (length (in_other_state health))).
Proof.
  revert i o u. unfold in_state, in_other_state.
  induction health as [|s health IH]; intros i o u; cbn [fold_left List.filter].
  - cbn. now rewrite !Z.add_0_r.
  - destruct (String.eqb (instance.state s) "InService") eqn:Hin.
    + apply String.eqb_eq in Hin. rewrite Hin. cbn [String.eqb Ascii.eqb Bool.eqb andb negb].
      rewrite IH. cbn [length].
      apply (f_equal2 pair); [apply (f_equal2 pair)|]; lia.
    + destruct (String.eqb (instance.state s) "OutOfService") eqn:Hout;
        cbn [andb negb]; rewrite IH; cbn [length];
        (apply (f_equal2 pair); [apply (f_equal2 pair)|]; lia).
Qed.

Lemma count_states_spec health :
  count_states health
  = (Z.of_nat (length (in_state "InService" health)),
     Z.of_nat (length (in_state "OutOfService" health)),
     Z.of_nat (length (in_other_state health))).
Proof. unfold count_states. now rewrite count_states_from. Qed.

Lemma states_partition health :
  (length (in_state "InService" health)
   + length (in_state "OutOfService" health)
   + length (in_other_state health) = length health)%nat.
Proof.
  unfold in_state, in_other_state. induction health as [|s health IH]; [done|].
  cbn [List.filter].
  destruct (String.eqb (instance.state s) "InService") eqn:Hin.
  - apply String.eqb_eq in Hin. rewrite Hin. cbn. lia.
  - destruct (String.eqb (instance.state s) "OutOfService"); cbn; lia.
Qed.

Lemma get_info_absent region facts self :
  named (name (args self)) (provider.region_lbs (elb_conn self)) = [] →
  get_info region facts self
  = Return {| info.name := name (args self); info.status := status self;
              info.region := region; info.details := None |}
      (set_elb_conn
         (provider.received (get_all_load_balancers (Some (name (args self))))
            (elb_conn self)) self).
Proof.
  intros Hnamed. unfold get_info, mbind, M_bind, get, call, modify.
  cbn -[named]. now rewrite Hnamed.
Qed.

(** [get_info] on a manager whose region lists a load balancer of its
    name: the calls, the manager left, and the facts. *)
Lemma get_info_found region facts self check_elb rest :
  named (name (args self)) (provider.region_lbs (elb_conn self))
  = check_elb :: rest →
  let n := name (args self) in
  let supports attr := bool_decide (attr ∈ lb_attribute_names (runtime self)) in
  let read :=
    get_all_load_balancers (Some n)
    :: (if instances facts is [] then [] else [describe_instance_health n]) in
  let attribute_calls :=
    (if supports "connection_draining"
     then [get_lb_attribute n "ConnectionDraining"] else [])
    ++ (if supports "cross_zone_load_balancing"
        then [get_lb_attribute n "CrossZoneLoadBalancing"] else []) in
  let health := if instances facts is [] then [] else instance_states facts in
  ∃ self',
    args self' = args self ∧ changed self' = changed self
    ∧ status self' = status self ∧ elb self' = elb self
    ∧ provider.region_lbs (elb_conn self') = provider.region_lbs (elb_conn self)
    ∧ ((boto.listeners check_elb = [] ∧ status self = created
        ∧ listeners (args self) = None
        ∧ get_info region facts self = Raise "TypeError" self'
        ∧ provider.log (elb_conn self') = provider.log (elb_conn self) ++ read)
       ∨ (¬ (boto.listeners check_elb = [] ∧ status self = created
             ∧ listeners (args self) = None)
          ∧ provider.log (elb_conn self')
            = provider.log (elb_conn self) ++ read ++ attribute_calls
          ∧ ∃ i d,
              get_info region facts self = Return i self'
              ∧ info.name i = n ∧ info.status i = status self
              ∧ info.region i = region ∧ info.details i = Some d
              ∧ info.instances d = instances facts
              ∧ info.instance_health d = health
              ∧ (info.in_service_count d, info.out_of_service_count d,
                 info.unknown_instance_state_count d) = count_states health
              ∧ info.zones d = boto.availability_zones check_elb
              ∧ info.subnets d = subnets (args self)
              ∧ info.listeners d
                = match boto.listeners check_elb with
                  | _ :: _ => map _api_listener_as_tuple (boto.listeners check_elb)
                  | [] =>
                      match status self, listeners (args self) with
                      | created, Some ls => map _listener_as_tuple ls
                      | _, _ => []
                      end
                  end)).
Proof.
  intros Hnamed n supports read attribute_calls health.
  assert (Hname : boto.name check_elb = n).
  { assert (Hin : check_elb ∈ named n (provider.region_lbs (elb_conn self)))
      by (subst n; rewrite Hnamed; left).
    apply list_elem_of_In, filter_In in Hin as [_ Heq].
    now apply String.eqb_eq in Heq. }
  remember (get_info region facts self) as o eqn:Ho.
  exists (final o).
  unfold get_info in Ho. unfold mbind at 1, M_bind at 1, get at 1 in Ho.
  cbv beta iota in Ho.
  unfold mbind at 1, M_bind at 1, call at 1, modify at 1 in Ho.
  cbv beta iota in Ho.
  unfold mbind at 1, M_bind at 1, get at 1 in Ho. cbv beta iota in Ho.
  cbn [elb_conn set_elb_conn args provider.region_lbs provider.received
       provider.effect status] in Ho.
  rewrite Hnamed in Ho.
  unfold _check_attribute_support in Ho.
  cbn [runtime set_elb_conn] in Ho.
  fold (supports "connection_draining") (supports "cross_zone_load_balancing")
    in Ho.
  subst read attribute_calls health. rewrite Hname in Ho.
  destruct (instances facts) as [|i0 ids],
           (boto.listeners check_elb) as [|l ls],
           (status self) eqn:Hstatus,
           (listeners (args self)) as [desired|],
           (supports "connection_draining"),
           (supports "cross_zone_load_balancing");
    unfold mbind, M_bind, call, modify, mret, M_ret, raise in Ho;
    cbn -[count_states] in Ho;
    try change (count_states []) with (0, 0, 0) in Ho;
    try (destruct (count_states (instance_states facts)) as [[a b] c]);
    cbn in Ho; subst o; cbn; rewrite ?Hstatus, <- ?app_assoc;
    (repeat (split; [reflexivity|]));
    first [ left; repeat split; reflexivity
          | right; split; [intros (? & ? & ?); discriminate|];
            split; [reflexivity|]; eexists _, _; repeat split; reflexivity ].
Qed.

(** X10. What [get_info] calls and returns.  It lists the load
    balancers of the manager's name by one call.  When the region lists
    none, it makes no other call and returns the three keys [name],
    [status] and [region] only.  Otherwise it returns the facts of the
    first one listed, under its name, which is the manager's, after
    [describe_instance_health] when the load balancer has instances and
    one [get_lb_attribute] for each of the two attributes the installed
    boto supports, in this order; the calls leave the region and
    [changed] as they are.  The three instance counters are the numbers
    of states [InService], [OutOfService] and other, and add up to the
    length of [instance_health], which is empty without instances; the
    zones are the live ones but [subnets] is the desired list; the
    listeners are the tuples of the live listeners, or of the desired
    ones when the live list is empty and the status is [created], and
    empty otherwise.  The only failure is the [TypeError] of a status
    [created] with no live and no desired listeners, raised after the
    listing and the reading of the instance states. *)
Theorem get_info_reports (region : string) (facts : Described) (self : ElbManager) :
  let n := name (args self) in
  let supports attr := bool_decide (attr ∈ lb_attribute_names (runtime self)) in
  let read :=
    get_all_load_balancers (Some n)
    :: (if instances facts is [] then [] else [describe_instance_health n]) in
  (named n (provider.region_lbs (elb_conn self)) = [] →
   ∃ self',
     get_info region facts self
     = Return {| info.name := n; info.status := status self;
                 info.region := region; info.details := None |} self'
     ∧ provider.log (elb_conn self')
       = provider.log (elb_conn self) ++ [get_all_load_balancers (Some n)]
     ∧ provider.region_lbs (elb_conn self') = provider.region_lbs (elb_conn self)
     ∧ changed self' = changed self)
  ∧ (∀ check_elb rest,
       named n (provider.region_lbs (elb_conn self)) = check_elb :: rest →
       ((∃ self', get_info region facts self = Raise "TypeError" self')
        ↔ boto.listeners check_elb = [] ∧ status self = created
          ∧ listeners (args self) = None)
       ∧ ((∃ self', get_info region facts self = Raise "TypeError" self')
          ∨ ∃ i self', get_info region facts self = Return i self')
       ∧ (∀ self', get_info region facts self = Raise "TypeError" self' →
            provider.log (elb_conn self') = provider.log (elb_conn self) ++ read)
       ∧ ∀ i self', get_info region facts self = Return i self' →
           provider.log (elb_conn self')
           = provider.log (elb_conn self) ++ read
             ++ (if supports "connection_draining"
                 then [get_lb_attribute n "ConnectionDraining"] else [])
             ++ (if supports "cross_zone_load_balancing"
                 then [get_lb_attribute n "CrossZoneLoadBalancing"] else [])
           ∧ provider.region_lbs (elb_conn self')
             = provider.region_lbs (elb_conn self)
           ∧ changed self' = changed self
           ∧ info.name i = n
           ∧ info.status i = status self
           ∧ ∃ d,
               info.details i = Some d
               ∧ info.instances d = instances facts
               ∧ info.in_service_count d
                 = Z.of_nat (length (in_state "InService" (info.instance_health d)))
               ∧ info.out_of_service_count d
                 = Z.of_nat (length (in_state "OutOfService" (info.instance_health d)))
               ∧ info.unknown_instance_state_count d
                 = Z.of_nat (length (in_other_state (info.instance_health d)))
               ∧ info.in_service_count d + info.out_of_service_count d
                 + info.unknown_instance_state_count d
                 = Z.of_nat (length (info.instance_health d))
               ∧ (info.instances d = [] → info.instance_health d = [])
               ∧ (info.instances d ≠ [] →
                  info.instance_health d = instance_states facts)
               ∧ info.zones d = boto.availability_zones check_elb
               ∧ info.subnets d = subnets (args self)
               ∧ info.listeners d
                 = match boto.listeners check_elb with
                   | _ :: _ => map _api_listener_as_tuple (boto.listeners check_elb)
                   | [] =>
                       match status self, listeners (args self) with
                       | created, Some ls => map _listener_as_tuple ls
                       | _, _ => []
                       end
                   end).
Proof.
  intros n supports read. split.
  - intros Hnamed. rewrite (get_info_absent region facts self Hnamed).
    eexists. split; [reflexivity|]. done.
  - intros check_elb rest Hnamed.
    destruct (get_info_found region facts self check_elb rest Hnamed)
      as (self1 & _ & Hchanged & _ & _ & Hregion
          & [(Hl & Hs & Hd & Hrun & Hlog)
            |(Hnot & Hlog & i1 & d & Hrun & Hname & Hstatus & _ & Hdetails
              & Hinstances & Hhealth & Hcount & Hzones & Hsubnets & Hlisteners)]).
    + rewrite Hrun. split; [split; [done|eauto]|].
      split; [left; eauto|]. split.
      * intros self' [= <-]. exact Hlog.
      * intros i self' [=].
    + rewrite Hrun. split; [split; [intros [self' [=]]|done]|].
      split; [right; eauto|]. split; [intros self' [=]|].
      intros i self' [= <- <-].
      split; [exact Hlog|]. split; [exact Hregion|]. split; [exact Hchanged|].
      split; [exact Hname|]. split; [exact Hstatus|].
      exists d. split; [exact Hdetails|]. split; [exact Hinstances|].
      rewrite count_states_spec in Hcount.
      pose proof (states_partition (info.instance_health d)) as Hsum.
      rewrite Hhealth, Hinstances.
      rewrite Hhealth in Hsum.
      injection Hcount as Hin Hout Hunknown.
      rewrite Hin, Hout, Hunknown.
      repeat split; try done; try lia.
      * now intros ->.
      * now destruct (instances facts).
Qed.

Lemma get_info_reports_witness :
  let self := manager (want_web [http_80] None None) sample_runtime
                (web [live_80] [] no_policies) in
  ∃ i d self',
    get_info "us-east-1" sample_facts self = Return i self'
    ∧ provider.log (elb_conn self')
      = provider.log (elb_conn self)
        ++ [get_all_load_balancers (Some "web"); describe_instance_health "web";
            get_lb_attribute "web" "ConnectionDraining";
            get_lb_attribute "web" "CrossZoneLoadBalancing"]
    ∧ info.details i = Some d
    ∧ info.name i = "web"
    ∧ info.in_service_count d + info.out_of_service_count d
      + info.unknown_instance_state_count d
      = Z.of_nat (length (info.instance_health d))
    ∧ info.listeners d = [_api_listener_as_tuple live_80].
Proof.
  intros self.
  destruct (get_info_reports "us-east-1" sample_facts self) as [_ Hfound].
  destruct (Hfound (web [live_80] [] no_policies) [] eq_refl)
    as (_ & _ & _ & Hinfo).
  destruct (get_info "us-east-1" sample_facts self) as [i self'|m s|x s] eqn:Hget;
    [|vm_compute in Hget; discriminate..].
  destruct (Hinfo i self' eq_refl)
    as (Hlog & _ & _ & Hname & _ & d & Hd & _ & _ & _ & _ & Hsum & _ & _ & _ & _
        & Hlisteners).
  exists i, d, self'. split; [reflexivity|]. split; [exact Hlog|].
  split; [exact Hd|]. split; [exact Hname|]. split; [exact Hsum|exact Hlisteners].
Defined.

(** ** The entry point *)

Lemma main_checked e p region :
  checks_pass e p region →
  main e p
  = match resolved_security_groups e p with
    | inl msg => failed msg None
    | inr security_group_ids =>
        match env.connection e with
        | inl msg => failed msg None
        | inr conn =>
            match __init__ (manager_args p security_group_ids)
                    (env.runtime e) conn with
            | Return _ elb_man =>
                if truthy (module.cross_az_load_balancing p)
                   && negb (_check_attribute_support elb_man
                              "cross_zone_load_balancing")
                then failed "You must install boto >= 2.18.0 to use the cross_az_load_balancing attribute"
                       (Some (elb_conn elb_man))
                else if truthy (module.connection_draining_timeout p)
                        && negb (_check_attribute_support elb_man
                                   "connection_draining")
                then failed "You must install boto >= 2.28.0 to use the connection_draining_timeout attribute"
                       (Some (elb_conn elb_man))
                else
                  match
                    match module.state p with
                    | present => ensure_ok elb_man
                    | absent => ensure_gone elb_man
                    end
                  with
                  | Return _ elb_man =>
                      match get_info region (env.facts e) elb_man with
                      | Return elb elb_man' =>
                          exit_json (changed elb_man) elb elb_man'
                      | Exit msg elb_man' => failed msg (Some (elb_conn elb_man'))
                      | Raise exc elb_man' => crashed exc (Some (elb_conn elb_man'))
                      end
                  | Exit msg elb_man => failed msg (Some (elb_conn elb_man))
                  | Raise exc elb_man => crashed exc (Some (elb_conn elb_man))
                  end
            | Exit msg elb_man => failed msg (Some (elb_conn elb_man))
            | Raise exc elb_man => crashed exc (Some (elb_conn elb_man))
            end
        end
    end.
Proof.
  intros (Hboto & Hregion & Hne & Hstate). unfold main.
  rewrite Hboto, Hregion. cbn [negb].
  destruct region as [|c region]; [done|].
  destruct Hstate as [-> |[-> Hplace]]; [reflexivity|].
  rewrite Hplace. now destruct (module.state p).
Qed.

(** The constructor always returns: with the first load balancer of the
    name the region lists and status [ok], or with none and status
    [gone]. *)
Lemma __init___returns a rt conn :
  ∃ self,
    __init__ a rt conn = Return tt self
    ∧ args self = a ∧ runtime self = rt ∧ changed self = false
    ∧ elb_conn self = provider.received (get_all_load_balancers None) conn
    ∧ elb self = head (named (name a) (provider.region_lbs conn))
    ∧ status self = match elb self with Some _ => ok | None => gone end.
Proof.
  destruct (named (name a) (provider.region_lbs conn)) as [|lb rest] eqn:Hnamed.
  - rewrite (__init___absent a rt conn Hnamed). eexists. split; [reflexivity|].
    cbn. done.
  - rewrite (__init___found a rt conn lb rest Hnamed). eexists.
    split; [reflexivity|]. cbn. done.
Qed.

Lemma main_checked_fails e p region msg :
  checks_pass e p region →
  main e p = failed msg None →
  resolved_security_groups e p = inl msg
  ∨ ((∃ ids, resolved_security_groups e p = inr ids)
     ∧ env.connection e = inl msg).
Proof.
  intros Hpass. rewrite (main_checked e p region Hpass).
  destruct (resolved_security_groups e p) as [m|ids]; [intros [= <-]; now left|].
  destruct (env.connection e) as [m|conn]; [intros [= <-]; right; eauto|].
  destruct (__init__ _ _ _) as [[] s|m s|exc s]; [|done..].
  repeat case_match; done.
Qed.

(** X11. [main] fails before it has a connection to the load balancing
    service, hence before any call, in exactly these cases and with
    these messages, the first that applies: boto is missing; the region
    is not known; [state: present] without listeners; [state: present]
    with neither zones nor subnets; the security groups cannot be
    resolved; the connection cannot be made.  With [state: absent]
    neither listeners nor zones are asked for. *)
Theorem main_fails_before_connecting (e : env.Environment) (p : module.Params)
    (msg : string) :
  main e p = failed msg None
  ↔ (env.HAS_BOTO e = false ∧ msg = "boto required for this module")
    ∨ (env.HAS_BOTO e = true
       ∧ (env.region e = None ∨ env.region e = Some "")
       ∧ msg = "Region must be specified as a parameter, in EC2_REGION or AWS_REGION environment variables or in boto configuration file")
    ∨ (env.HAS_BOTO e = true
       ∧ ∃ region,
           env.region e = Some region ∧ region ≠ ""
           ∧ ((module.state p = present
               ∧ nonempty (module.listeners p) = false
               ∧ msg = "At least one port is required for ELB creation")
              ∨ (module.state p = present
                 ∧ nonempty (module.listeners p) = true
                 ∧ nonempty (module.zones p) = false
                 ∧ nonempty (module.subnets p) = false
                 ∧ msg = "At least one availability zone or subnet is required for ELB creation")
              ∨ (checks_pass e p region
                 ∧ resolved_security_groups e p = inl msg)
              ∨ (checks_pass e p region
                 ∧ (∃ ids, resolved_security_groups e p = inr ids)
                 ∧ env.connection e = inl msg))).
Proof.
  split.
  - intros Hmain.
    destruct (env.HAS_BOTO e) eqn:Hboto.
    2:{ unfold main in Hmain. rewrite Hboto in Hmain. injection Hmain as <-.
        now left. }
    right.
    destruct (env.region e) as [region|] eqn:Hregion.
    2:{ unfold main in Hmain. rewrite Hboto, Hregion in Hmain.
        injection Hmain as <-. left. auto. }
    destruct (decide (region = "")) as [-> |Hne].
    { unfold main in Hmain. rewrite Hboto, Hregion in Hmain.
      injection Hmain as <-. left. auto. }
    right. split; [done|]. exists region. split; [done|]. split; [done|].
    destruct (module.state p) eqn:Hstate.
    + destruct (nonempty (module.listeners p)) eqn:Hls.
      * destruct (nonempty (module.zones p) || nonempty (module.subnets p))
          eqn:Hplace.
        -- right. right.
           assert (Hpass : checks_pass e p region).
           { repeat split; try done. right. auto. }
           destruct (main_checked_fails e p region msg Hpass Hmain); auto.
        -- right. left. apply orb_false_elim in Hplace as [Hzs Hss].
           unfold main in Hmain.
           rewrite Hboto, Hregion, Hstate, Hls, Hzs, Hss in Hmain.
           destruct region; [done|]. injection Hmain as <-. auto.
      * left. unfold main in Hmain. rewrite Hboto, Hregion, Hstate, Hls in Hmain.
        destruct region; [done|]. injection Hmain as <-. auto.
    + right. right.
      assert (Hpass : checks_pass e p region).
      { repeat split; try done. now left. }
      destruct (main_checked_fails e p region msg Hpass Hmain); auto.
  - intros [[Hboto ->]|[(Hboto & Hregion & ->)|(Hboto & region & Hregion & Hne & H)]].
    + unfold main. now rewrite Hboto.
    + unfold main. rewrite Hboto. now destruct Hregion as [-> | ->].
    + destruct H as [(Hstate & Hls & ->)
                    |[(Hstate & Hls & Hzs & Hss & ->)
                     |[(Hpass & Hids)|(Hpass & (ids & Hids) & Hconn)]]].
      * unfold main. rewrite Hboto, Hregion, Hstate, Hls. now destruct region.
      * unfold main. rewrite Hboto, Hregion, Hstate, Hls, Hzs, Hss.
        now destruct region.
      * now rewrite (main_checked e p region Hpass), Hids.
      * now rewrite (main_checked e p region Hpass), Hids, Hconn.
Qed.

Lemma main_fails_before_connecting_witness :
  let e := surroundings (region []) sample_runtime in
  main e (params_for present only_name None)
  = failed "At least one port is required for ELB creation" None
  ∧ ∀ msg, main e (params_for absent only_name None) ≠ failed msg None.
Proof.
  intros e. split.
  - apply (main_fails_before_connecting e (params_for present only_name None)).
    right. right. split; [reflexivity|]. exists "us-east-1".
    split; [reflexivity|]. split; [discriminate|]. left. auto.
  - intros msg Hmain.
    apply (main_fails_before_connecting e (params_for absent only_name None))
      in Hmain.
    destruct Hmain as [[Hboto _]|[(_ & [Hr|Hr] & _)|(_ & region & _ & _ & H)]];
      try discriminate.
    destruct H as [(Hs & _)|[(Hs & _)|[(_ & Hids)|(_ & _ & Hconn)]]];
      discriminate.
Defined.

(** X12. A parameter the installed boto has no attribute for: when
    [cross_az_load_balancing] is set and [LbAttributes] has no
    [cross_zone_load_balancing], or else [connection_draining_timeout]
    is set and it has no [connection_draining], [main] fails with the
    message that names the boto version needed, after the listing of the
    constructor and no other call.  The state asked for plays no part:
    with [state: absent] the load balancer is not deleted. *)
Theorem main_unsupported_attribute (e : env.Environment) (p : module.Params)
    (region : string) (ids : option (list string)) (conn : provider.Conn) :
  checks_pass e p region →
  resolved_security_groups e p = inr ids →
  env.connection e = inr conn →
  let missing attr := negb (bool_decide (attr ∈ lb_attribute_names (env.runtime e))) in
  let cross :=
    truthy (module.cross_az_load_balancing p) && missing "cross_zone_load_balancing" in
  let draining :=
    truthy (module.connection_draining_timeout p) && missing "connection_draining" in
  let conn' := provider.received (get_all_load_balancers None) conn in
  (cross = true →
   main e p
   = failed "You must install boto >= 2.18.0 to use the cross_az_load_balancing attribute"
       (Some conn'))
  ∧ (cross = false → draining = true →
     main e p
     = failed "You must install boto >= 2.28.0 to use the connection_draining_timeout attribute"
         (Some conn'))
  ∧ provider.log conn' = provider.log conn ++ [get_all_load_balancers None]
  ∧ provider.region_lbs conn' = provider.region_lbs conn.
Proof.
  intros Hpass Hids Hconn missing cross draining conn'.
  pose proof (main_checked e p region Hpass) as Hmain.
  rewrite Hids, Hconn in Hmain.
  destruct (__init___returns (manager_args p ids) (env.runtime e) conn)
    as (self & Hinit & _ & Hrt & _ & Hconn' & _).
  rewrite Hinit in Hmain. unfold _check_attribute_support in Hmain.
  rewrite Hrt, Hconn' in Hmain. fold conn' in Hmain.
  fold (missing "cross_zone_load_balancing") in Hmain.
  fold (missing "connection_draining") in Hmain.
  fold cross in Hmain. fold draining in Hmain.
  split; [|split; [|done]].
  - intros Hcross. now rewrite Hcross in Hmain.
  - intros Hcross Hdraining. now rewrite Hcross, Hdraining in Hmain.
Qed.

Lemma main_unsupported_attribute_witness :
  let lb := web [live_80] [] no_policies in
  let a :=
    {| name := "web"; listeners := None; purge_listeners := true;
       zones := None; purge_zones := false;
       security_group_ids := None; health_check := None;
       subnets := None; purge_subnets := false; scheme := "internet-facing";
       connection_draining_timeout := VNone;
       cross_az_load_balancing := VStr "no";
       stickiness := None |} in
  main (surroundings (region [lb]) old_runtime) (params_for absent a None)
  = failed "You must install boto >= 2.18.0 to use the cross_az_load_balancing attribute"
      (Some {| provider.region_lbs := [lb];
               provider.log := [get_all_load_balancers None];
               provider.zone_fault := None |}).
Proof.
  intros lb a.
  destruct (main_unsupported_attribute
              (surroundings (region [lb]) old_runtime) (params_for absent a None)
              "us-east-1" None (region [lb])) as [Hcross _].
  - repeat split; try done. now left.
  - reflexivity.
  - reflexivity.
  - now rewrite Hcross.
Defined.

(** With the checks passed and the attributes supported, [main] is the
    run of the manager followed by [get_info]. *)
Lemma main_run e p region ids conn :
  checks_pass e p region →
  resolved_security_groups e p = inr ids →
  env.connection e = inr conn →
  supported e p →
  main e p
  = match
      match module.state p with
      | present => run_present (manager_args p ids) (env.runtime e) conn
      | absent => run_absent (manager_args p ids) (env.runtime e) conn
      end
    with
    | Return _ elb_man =>
        match get_info region (env.facts e) elb_man with
        | Return elb elb_man' => exit_json (changed elb_man) elb elb_man'
        | Exit msg elb_man' => failed msg (Some (elb_conn elb_man'))
        | Raise exc elb_man' => crashed exc (Some (elb_conn elb_man'))
        end
    | Exit msg elb_man => failed msg (Some (elb_conn elb_man))
    | Raise exc elb_man => crashed exc (Some (elb_conn elb_man))
    end.
Proof.
  intros Hpass Hids Hconn [Hcross Hdraining].
  rewrite (main_checked e p region Hpass), Hids, Hconn.
  unfold run_present, run_absent.
  destruct (__init___returns (manager_args p ids) (env.runtime e) conn)
    as (self & -> & _ & Hrt & _).
  unfold _check_attribute_support. rewrite Hrt.
  assert (H1 : truthy (module.cross_az_load_balancing p)
               && negb (bool_decide ("cross_zone_load_balancing"
                                     ∈ lb_attribute_names (env.runtime e)))
               = false).
  { destruct (truthy (module.cross_az_load_balancing p)); [|done].
    now rewrite (bool_decide_true _ (Hcross eq_refl)). }
  assert (H2 : truthy (module.connection_draining_timeout p)
               && negb (bool_decide ("connection_draining"
                                     ∈ lb_attribute_names (env.runtime e)))
               = false).
  { destruct (truthy (module.connection_draining_timeout p)); [|done].
    now rewrite (bool_decide_true _ (Hdraining eq_refl)). }
  rewrite H1, H2. now destruct (module.state p).
Qed.

(** X13. [state: absent], with the checks passed, whatever the listeners
    and zones: [main] ends through [exit_json].  When the region lists a
    load balancer of the name it is deleted by one call, [changed] is
    true and the status [deleted]; otherwise no call changes the region,
    [changed] is false and the status [gone].  Either way [get_info]
    lists the load balancers of the name at the end and finds none: the
    facts are the name, the status and the region only, and the region
    lists no load balancer of the name at the end.  The calls are the
    listing of the constructor, the deletion if there is one, and the
    listing of [get_info]. *)
Theorem main_absent (e : env.Environment) (p : module.Params)
    (region : string) (ids : option (list string)) (conn : provider.Conn) :
  checks_pass e p region →
  module.state p = absent →
  resolved_security_groups e p = inr ids →
  env.connection e = inr conn →
  supported e p →
  let listed := negb (bool_decide (named (module.name p) (provider.region_lbs conn) = [])) in
  ∃ elb_man,
    main e p
    = exit_json listed
        {| info.name := module.name p;
           info.status := if listed then deleted else gone;
           info.region := region;
           info.details := None |}
        elb_man
    ∧ provider.log (elb_conn elb_man)
      = provider.log conn
        ++ get_all_load_balancers None
           :: (if listed then [delete_load_balancer (module.name p)] else [])
           ++ [get_all_load_balancers (Some (module.name p))]
    ∧ named (module.name p) (provider.region_lbs (elb_conn elb_man)) = [].
Proof.
  intros Hpass Hstate Hids Hconn Hsupported listed.
  rewrite (main_run e p region ids conn Hpass Hids Hconn Hsupported), Hstate.
  unfold run_absent. subst listed.
  destruct (named (module.name p) (provider.region_lbs conn))
    as [|lb rest] eqn:Hnamed.
  - rewrite (__init___absent (manager_args p ids) _ conn Hnamed).
    rewrite bool_decide_true by done. cbn [negb].
    unfold ensure_gone, mbind, M_bind, get. cbn -[named get_info].
    rewrite get_info_absent by exact Hnamed.
    eexists. split; [reflexivity|]. split; [|exact Hnamed].
    cbn. now rewrite <- app_assoc.
  - rewrite (__init___found (manager_args p ids) _ conn lb rest Hnamed).
    rewrite bool_decide_false by done. cbn [negb].
    unfold ensure_gone, _delete_elb, mbind, M_bind, get, call, modify.
    cbn -[named provider.effect get_info].
    rewrite get_info_absent by apply named_after_delete.
    eexists. split; [reflexivity|]. split; [|apply named_after_delete].
    cbn. now rewrite <- !app_assoc.
Qed.

Lemma main_absent_witness :
  let lb := web [live_80] [] no_policies in
  ∃ elb_man,
    main (surroundings (region [lb]) sample_runtime)
      (params_for absent only_name None)
    = exit_json true
        {| info.name := "web"; info.status := deleted;
           info.region := "us-east-1"; info.details := None |}
        elb_man
    ∧ provider.log (elb_conn elb_man)
      = [get_all_load_balancers None; delete_load_balancer "web";
         get_all_load_balancers (Some "web")].
Proof.
  intros lb.
  destruct (main_absent (surroundings (region [lb]) sample_runtime)
              (params_for absent only_name None) "us-east-1" None (region [lb]))
    as (elb_man & Hmain & Hlog & _).
  - repeat split; try done. now left.
  - reflexivity.
  - reflexivity.
  - reflexivity.
  - split; intros H; discriminate H.
  - exists elb_man. split; [exact Hmain|exact Hlog].
Defined.

Lemma runtime_updated u self : runtime (updated u self) = runtime self.
Proof.
  destruct u as [c| | | | | |lb]; try reflexivity.
  cbn. now destruct (named (boto.name lb) _).
Qed.

(** The manager a run with [state: present] returns: it has the
    arguments and the runtime it was made with, its region lists a load
    balancer of the name, and its status is [ok] when the region listed
    one at the start and [created] otherwise. *)
Lemma run_present_returns a rt conn self :
  nonempty (listeners a) = true →
  run_present a rt conn = Return tt self →
  args self = a
  ∧ runtime self = rt
  ∧ listed (name a) self
  ∧ status self
    = (if bool_decide (named (name a) (provider.region_lbs conn) = [])
       then created else ok).
Proof.
  intros Hls Hrun.
  assert (Hargs : args self = a).
  { apply run_present_through_ensure_ok in Hrun as (s0 & <- & Hrun).
    pose proof (accounts_ensure_ok s0) as (Hargs & _).
    now rewrite Hrun in Hargs. }
  split; [exact Hargs|].
  destruct (named (name a) (provider.region_lbs conn)) as [|lb rest] eqn:Hnamed.
  - destruct (listeners a) as [ls|] eqn:Hlisteners; [|done].
    rewrite (run_present_creates a rt conn ls Hnamed Hlisteners) in Hrun.
    rewrite bool_decide_true by done. split; [|split].
    + pose proof (closing_steps_invariant (λ s, runtime s = rt)
                    (λ u s _ Hs, eq_trans (runtime_updated u s) Hs)
                    (created_manager a rt conn ls) eq_refl) as Hruntime.
      now rewrite Hrun in Hruntime.
    + pose proof (closing_steps_invariant (listed (name a))
                    (λ u s Hu, listed_closed (name a) u s (closing_sync_update u Hu))
                    _ (created_manager_listed a rt conn ls)) as Hlisted.
      now rewrite Hrun in Hlisted.
    + pose proof (closing_steps_invariant (λ s, status s = created)
                    (status_closed created)
                    (created_manager a rt conn ls) eq_refl) as Hstatus.
      now rewrite Hrun in Hstatus.
  - unfold run_present in Hrun.
    rewrite (__init___found a rt conn lb rest Hnamed) in Hrun.
    rewrite bool_decide_false by done.
    set (s0 := {| args := a; elb := Some lb |}) in Hrun. split; [|split].
    + pose proof (ensure_ok_found_invariant (λ s, runtime s = rt)
                    (λ u s _ Hs, eq_trans (runtime_updated u s) Hs)
                    s0 ltac:(done) eq_refl) as Hruntime.
      now rewrite Hrun in Hruntime.
    + assert (H0 : listed (name a) s0).
      { unfold listed. cbn -[named]. now rewrite Hnamed. }
      pose proof (ensure_ok_found_invariant (listed (name a))
                    (listed_closed (name a)) s0 ltac:(done) H0) as Hlisted.
      now rewrite Hrun in Hlisted.
    + pose proof (ensure_ok_found_invariant (λ s, status s = ok)
                    (status_sync_closed ok) s0 ltac:(done) eq_refl) as Hstatus.
      now rewrite Hrun in Hstatus.
Qed.

(** X14. [state: present], with the checks passed: [main] ends as the
    run of the manager ends.  When [ensure_ok] returns, [get_info] is
    run on the manager it leaves and does not fail: after the calls of
    the run it lists the load balancers of the name, reads the instance
    states when the load balancer has instances, and reads each of the
    two attributes the installed boto supports; these calls leave the
    region as the run left it.  [main] then ends through [exit_json]
    with the [changed] of the run and the full facts of a load balancer
    of the name asked for, with the status [ok] when the region listed
    one at the start and [created] otherwise.  When [ensure_ok] exits
    through [fail_json] or raises, [main] fails with that message or
    that exception, with the calls made so far and without the calls of
    [get_info]. *)
Theorem main_present (e : env.Environment) (p : module.Params)
    (region : string) (ids : option (list string)) (conn : provider.Conn) :
  checks_pass e p region →
  module.state p = present →
  resolved_security_groups e p = inr ids →
  env.connection e = inr conn →
  supported e p →
  let a := manager_args p ids in
  let n := module.name p in
  let listed_before :=
    negb (bool_decide (named n (provider.region_lbs conn) = [])) in
  let supports attr := bool_decide (attr ∈ lb_attribute_names (env.runtime e)) in
  (∀ self, run_present a (env.runtime e) conn = Return tt self →
     ∃ i d self',
       main e p = exit_json (changed self) i self'
       ∧ get_info region (env.facts e) self = Return i self'
       ∧ provider.log (elb_conn self')
         = provider.log (elb_conn self)
           ++ get_all_load_balancers (Some n)
              :: (if instances (env.facts e) is [] then []
                  else [describe_instance_health n])
           ++ (if supports "connection_draining"
               then [get_lb_attribute n "ConnectionDraining"] else [])
           ++ (if supports "cross_zone_load_balancing"
               then [get_lb_attribute n "CrossZoneLoadBalancing"] else [])
       ∧ provider.region_lbs (elb_conn self')
         = provider.region_lbs (elb_conn self)
       ∧ info.name i = n
       ∧ info.status i = (if listed_before then ok else created)
       ∧ info.region i = region
       ∧ info.details i = Some d
       ∧ info.subnets d = module.subnets p)
  ∧ (∀ msg self, run_present a (env.runtime e) conn = Exit msg self →
       main e p = failed msg (Some (elb_conn self)))
  ∧ (∀ exc self, run_present a (env.runtime e) conn = Raise exc self →
       main e p = crashed exc (Some (elb_conn self))).
Proof.
  intros Hpass Hstate Hids Hconn Hsupported a n listed_before supports.
  pose proof (main_run e p region ids conn Hpass Hids Hconn Hsupported) as Hmain.
  rewrite Hstate in Hmain. fold a in Hmain.
  assert (Hls : nonempty (listeners a) = true).
  { destruct Hpass as (_ & _ & _ & [?|[? _]]); [congruence|done]. }
  split; [|split].
  - intros self Hrun. rewrite Hrun in Hmain.
    destruct (run_present_returns a _ conn self Hls Hrun)
      as (Hargs & Hruntime & Hlisted & Hstatus).
    unfold listed in Hlisted. rewrite <- Hargs in Hlisted.
    destruct (named (name (args self)) (provider.region_lbs (elb_conn self)))
      as [|check_elb rest] eqn:Hnamed; [done|].
    destruct (get_info_found region (env.facts e) self check_elb rest Hnamed)
      as (self' & _ & _ & _ & _ & Hregion
          & [(_ & Hcreated & Hnone & _)
            |(_ & Hlog & i & d & Hinfo & Hname & Hst & Hreg & Hd & _ & _ & _ & _
              & Hsubnets & _)]).
    { rewrite Hargs in Hnone. now destruct (listeners a). }
    rewrite Hinfo in Hmain. exists i, d, self'. split; [exact Hmain|].
    split; [exact Hinfo|].
    rewrite Hname, Hst, Hstatus, Hsubnets, Hargs, Hlog, Hruntime, Hargs.
    subst listed_before. repeat split; try done.
    change (name a) with (module.name p). now destruct (bool_decide _).
  - intros msg self Hrun. now rewrite Hrun in Hmain.
  - intros exc self Hrun. now rewrite Hrun in Hmain.
Qed.

Lemma main_present_witness :
  let a := want_web [http_80] None None in
  ∃ self i d self',
    run_present a sample_runtime (region []) = Return tt self
    ∧ main (surroundings (region []) sample_runtime) (params_for present a None)
      = exit_json true i self'
    ∧ provider.log (elb_conn self')
      = provider.log (elb_conn self)
        ++ [get_all_load_balancers (Some "web"); describe_instance_health "web";
            get_lb_attribute "web" "ConnectionDraining";
            get_lb_attribute "web" "CrossZoneLoadBalancing"]
    ∧ info.name i = "web" ∧ info.status i = created
    ∧ info.details i = Some d.
Proof.
  intros a.
  destruct (main_present (surroundings (region []) sample_runtime)
              (params_for present a None) "us-east-1" None (region []))
    as (Hreturn & _).
  - repeat split; try done. right. done.
  - reflexivity.
  - reflexivity.
  - reflexivity.
  - split; intros H; discriminate H.
  - destruct (run_present a sample_runtime (region [])) as [[] self|m s|x s] eqn:Hrun;
      [|vm_compute in Hrun; discriminate..].
    destruct (Hreturn self Hrun)
      as (i & d & self' & Hmain & _ & Hlog & _ & Hname & Hstatus & _ & Hd & _).
    exists self, i, d, self'. split; [reflexivity|].
    split; [|split; [exact Hlog|done]].
    rewrite Hmain. f_equal. vm_compute in Hrun. now injection Hrun as <-.
Defined.

(** ** Security group names *)

Lemma elem_of_group_id grp_details group_name id :
  id ∈ group_id grp_details group_name
  ↔ ∃ grp, grp ∈ grp_details ∧ called grp group_name ∧ ec2.id grp = id.
Proof.
  unfold group_id, called. rewrite list_elem_of_In, in_map_iff. split.
  - intros (grp & Hid & Hin). apply filter_In in Hin as [Hin Hcalled].
    apply bool_decide_eq_true in Hcalled. exists grp.
    split; [now apply list_elem_of_In|]. split; [|done].
    destruct group_name as [s|l]; [|done].
    apply list_elem_of_singleton in Hcalled. done.
  - intros (grp & Hin & Hcalled & Hid). exists grp. split; [done|].
    apply filter_In. split; [now apply list_elem_of_In|].
    apply bool_decide_eq_true. destruct group_name as [s|l]; [|done].
    apply list_elem_of_singleton. done.
Qed.

(** X15. Security groups given by name, with no ids: [main] hands the
    manager the ids of the groups of the EC2 listing that an item of
    [security_group_names] calls, item by item, a string naming one
    group and a list any of its names.  A name that calls no group is
    passed over without an error; when no name calls a group the manager
    is handed the empty list, not [None], so that on a load balancer
    with security groups the security group step calls
    [apply_security_groups_to_lb] with no groups. *)
Theorem security_group_names_resolved (e : env.Environment) (p : module.Params)
    (names : list GroupName) (grp_details : list ec2.SecurityGroup) :
  nonempty (module.security_group_ids p) = false →
  module.security_group_names p = Some names → names ≠ [] →
  env.security_groups e = inr grp_details →
  ∃ ids,
    resolved_security_groups e p = inr (Some ids)
    ∧ ids = flat_map (group_id grp_details) names
    ∧ (∀ id, id ∈ ids
             ↔ ∃ grp group_name,
                 grp ∈ grp_details ∧ group_name ∈ names
                 ∧ called grp group_name ∧ ec2.id grp = id)
    ∧ ((∀ grp group_name, grp ∈ grp_details → group_name ∈ names →
                          ¬ called grp group_name) →
       ids = []
       ∧ ∀ self lb,
           args self = manager_args p (Some ids) → elb self = Some lb →
           boto.security_groups lb ≠ [] →
           provider.log (elb_conn (final (_set_security_groups self)))
           = provider.log (elb_conn self)
             ++ [apply_security_groups_to_lb (module.name p) []]).
Proof.
  intros Hids Hnames Hne Hgroups.
  exists (flat_map (group_id grp_details) names).
  assert (Hin : ∀ id, id ∈ flat_map (group_id grp_details) names
                      ↔ ∃ grp group_name,
                          grp ∈ grp_details ∧ group_name ∈ names
                          ∧ called grp group_name ∧ ec2.id grp = id).
  { intros id. rewrite list_elem_of_In, in_flat_map. split.
    - intros (group_name & Hname & Hid).
      apply list_elem_of_In, elem_of_group_id in Hid as (grp & ? & ? & ?).
      exists grp, group_name. repeat split; try done. now apply list_elem_of_In.
    - intros (grp & group_name & ? & Hname & ? & ?).
      exists group_name. split; [now apply list_elem_of_In|].
      apply list_elem_of_In, elem_of_group_id. eauto. }
  split; [|split; [done|split; [exact Hin|]]].
  - unfold resolved_security_groups. rewrite Hids, Hnames, Hgroups.
    cbn [andb]. now destruct names.
  - intros Hnone.
    assert (Hempty : flat_map (group_id grp_details) names = []).
    { destruct (flat_map _ _) as [|id ids] eqn:Hflat; [done|].
      assert (Hid : id ∈ id :: ids) by left.
      apply Hin in Hid as (grp & group_name & ? & ? & ? & _).
      now destruct (Hnone grp group_name). }
    split; [exact Hempty|]. intros self lb Hargs Hlb Hgroups_lb.
    rewrite _set_security_groups_log, Hargs, Hlb, Hempty.
    cbn [security_group_ids manager_args name].
    rewrite bool_decide_true; [done|].
    destruct (boto.security_groups lb) as [|g gs]; [done|].
    intros Heq. assert (Hg : g ∈ (list_to_set (g :: gs) : gset string)).
    { apply elem_of_list_to_set. left. }
    rewrite Heq in Hg. cbn in Hg. set_solver.
Qed.

Lemma security_group_names_resolved_witness :
  let a := want_web [http_80] None None in
  let p := params_for present a (Some [one "web"; several ["default"; "db"]; one "cache"]) in
  resolved_security_groups (surroundings (region []) sample_runtime) p
  = inr (Some ["sg-2"; "sg-1"]).
Proof.
  intros a p.
  destruct (security_group_names_resolved (surroundings (region []) sample_runtime) p
              [one "web"; several ["default"; "db"]; one "cache"]
              [ {| ec2.id := "sg-1"; ec2.name := "default" |};
                {| ec2.id := "sg-2"; ec2.name := "web" |} ]
              eq_refl eq_refl ltac:(discriminate) eq_refl)
    as (ids & Hresolved & -> & _).
  rewrite Hresolved. vm_compute. reflexivity.
Defined.

(** ** The region after a run *)

Lemma replayed_refl self :
  provider.zone_fault (elb_conn self) = None → replayed self self.
Proof. intros Hfault. split; [done|]. exists []. now rewrite app_nil_r. Qed.

Lemma replayed_closed s0 u self :
  accepted_update u → replayed s0 self → replayed s0 (updated u self).
Proof.
  intros Hu (Hfault & calls & Hlog & Hregion).
  destruct u as [c| | | | | |lb]; cbn in Hu; try done;
    try (split; [done|]; now exists calls).
  - split; [done|]. exists (calls ++ [c]). cbn. split.
    + now rewrite Hlog, app_assoc.
    + rewrite Hregion. unfold replay. now rewrite fold_left_app.
  - cbn. destruct (named (boto.name lb) _); (split; [done|]; now exists calls).
Qed.

Section Replay.

Variable s0 : ElbManager.

Lemma replay_made_of {A} (m : M A) :
  made_of accepted_update m → invariant (replayed s0) m.
Proof. exact (invariant_made_of _ accepted_update m (replayed_closed s0)). Qed.

(** Without a fault the zone call is accepted. *)
Lemma replay_zone_call (c : Call) (lb : boto.LoadBalancer) :
  invariant (replayed s0)
    (self ← get;
     match provider.zone_fault (elb_conn self) with
     | Some error_message => refused_call c;; zone_error error_message
     | None => call c;; refresh_zones lb
     end;;
     modify (set_changed true)).
Proof.
  intros self Hself. pose proof Hself as (Hfault & _).
  unfold mbind at 1 2. unfold M_bind at 1 2. unfold get at 1. cbv beta iota.
  rewrite Hfault.
  change ((call c;; refresh_zones lb) self)
    with (Return tt (updated (u_refresh lb) (updated (u_call c) self))).
  cbv beta iota.
  change (final (modify (set_changed true)
                   (updated (u_refresh lb) (updated (u_call c) self))))
    with (updated (u_changed true)
            (updated (u_refresh lb) (updated (u_call c) self))).
  repeat apply replayed_closed; done.
Qed.

Lemma replay__enable_zones zs : invariant (replayed s0) (_enable_zones zs).
Proof.
  unfold _enable_zones.
  apply invariant_bind; [apply replay_made_of; constructor|].
  intros lb. apply replay_zone_call.
Qed.

Lemma replay__disable_zones zs : invariant (replayed s0) (_disable_zones zs).
Proof.
  unfold _disable_zones.
  apply invariant_bind; [apply replay_made_of; constructor|].
  intros lb. apply replay_zone_call.
Qed.

Lemma replay__set_zones : invariant (replayed s0) _set_zones.
Proof.
  unfold _set_zones.
  walk_with @replay_made_of (@invariant_bind (replayed s0))
    (invariant_when (replayed s0))
    ltac:(idtac; lazymatch goal with
          | |- invariant _ (_enable_zones _) => apply replay__enable_zones
          | |- invariant _ (_disable_zones _) => apply replay__disable_zones
          end).
Qed.

Lemma replay_sync_steps : invariant (replayed s0) sync_steps.
Proof.
  unfold sync_steps, _set_security_groups, _set_elb_listeners,
    _delete_elb_listeners, _create_elb_listeners, _set_subnets,
    _attach_subnets, _detach_subnets.
  walk_with @replay_made_of (@invariant_bind (replayed s0))
    (invariant_when (replayed s0))
    ltac:(idtac; lazymatch goal with
          | |- invariant _ _set_zones => apply replay__set_zones
          end).
Qed.

Lemma replay_closing_steps : invariant (replayed s0) closing_steps.
Proof.
  apply closing_steps_invariant. intros u s Hu. apply replayed_closed.
  now destruct u.
Qed.

Lemma replay_ensure_ok : invariant (replayed s0) ensure_ok.
Proof.
  unfold ensure_ok, _create_elb.
  fold closing_steps. fold sync_steps.
  walk_with @replay_made_of (@invariant_bind (replayed s0))
    (invariant_when (replayed s0))
    ltac:(idtac; lazymatch goal with
          | |- invariant _ sync_steps => apply replay_sync_steps
          | |- invariant _ closing_steps => apply replay_closing_steps
          end).
Qed.

End Replay.

(** ** Zones and subnets in line *)

Lemma to_enable_empty desired live :
  to_enable desired live = [] ↔ ∀ z, z ∈ desired → z ∈ live.
Proof.
  unfold to_enable. split.
  - intros Hnil z Hz. destruct (decide (z ∈ live)) as [?|Hnot]; [done|].
    assert (Hin : z ∈ set_minus desired live) by now apply elem_of_set_minus.
    rewrite Hnil in Hin. inversion Hin.
  - intros Hsub. destruct (set_minus desired live) as [|z zs] eqn:Hminus; [done|].
    assert (Hin : z ∈ set_minus desired live) by (rewrite Hminus; left).
    apply elem_of_set_minus in Hin as [Hz Hnot]. now destruct Hnot; apply Hsub.
Qed.

Lemma to_disable_nonempty purge desired live :
  nonempty (to_disable purge desired live) = false
  ↔ (purge = true → ∀ z, z ∈ live → z ∈ desired).
Proof.
  unfold to_disable. destruct purge; [|done]. cbn.
  destruct (set_minus live desired) as [|z zs] eqn:Hminus; split; try done.
  - intros _ _ z Hz. destruct (decide (z ∈ desired)) as [?|Hnot]; [done|].
    assert (Hin : z ∈ set_minus live desired) by now apply elem_of_set_minus.
    rewrite Hminus in Hin. inversion Hin.
  - intros Hsub.
    assert (Hin : z ∈ set_minus live desired) by (rewrite Hminus; left).
    apply elem_of_set_minus in Hin as [Hz Hnot]. now destruct Hnot; apply Hsub.
Qed.

Lemma zone_calls_empty n purge desired live :
  zone_calls n purge desired live = [] ↔ in_line purge desired live.
Proof.
  unfold zone_calls, in_line.
  rewrite <- to_enable_empty, <- to_disable_nonempty.
  destruct (to_enable desired live), (to_disable purge desired live) as [[|]|];
    cbn; split; try done; intros [? ?]; done.
Qed.

Lemma subnet_calls_empty n purge desired live :
  subnet_calls n purge desired live = [] ↔ in_line purge desired live.
Proof.
  unfold subnet_calls, in_line.
  rewrite <- to_enable_empty, <- to_disable_nonempty.
  destruct (to_enable desired live), (to_disable purge desired live) as [[|]|];
    cbn; split; try done; intros [? ?]; done.
Qed.

Lemma elem_of_List_filter {A} (f : A → bool) (l : list A) (x : A) :
  x ∈ List.filter f l ↔ x ∈ l ∧ f x = true.
Proof. now rewrite !list_elem_of_In, filter_In. Qed.

Lemma diff_result_reconciled purge desired live :
  reconciled purge desired live (diff_result purge desired live).
Proof.
  intros z. unfold diff_result.
  set (enabled := match to_enable desired live with
                  | [] => live
                  | zs => live ++ List.filter (λ z, negb (bool_decide (z ∈ live))) zs
                  end).
  assert (Hen : z ∈ enabled ↔ z ∈ live ∨ z ∈ desired).
  { subst enabled. destruct (to_enable desired live) as [|e0 en] eqn:Hto.
    - split; [auto|]. intros [?|Hz]; [done|].
      now apply (proj1 (to_enable_empty desired live) Hto).
    - rewrite <- Hto. rewrite elem_of_app, elem_of_List_filter,
        negb_true_iff, bool_decide_eq_false.
      unfold to_enable. rewrite elem_of_set_minus.
      destruct (decide (z ∈ live)); tauto. }
  unfold to_disable. destruct purge.
  - destruct (set_minus live desired) as [|d0 dis] eqn:Hdis.
    + rewrite Hen. split; [|tauto]. intros Hz. split; [done|]. intros _.
      destruct Hz as [Hz|?]; [|done].
      destruct (decide (z ∈ desired)) as [?|Hnot]; [done|].
      assert (Hin : z ∈ set_minus live desired) by now apply elem_of_set_minus.
      rewrite Hdis in Hin. inversion Hin.
    + rewrite <- Hdis. rewrite elem_of_List_filter,
        negb_true_iff, bool_decide_eq_false, elem_of_set_minus, Hen.
      destruct (decide (z ∈ desired)); tauto.
  - rewrite Hen. split; [|tauto]. intros Hz. split; [done|]. discriminate.
Qed.

Lemma reconciled_in_line purge desired live result :
  reconciled purge desired live result → in_line purge desired result.
Proof.
  intros Hresult. split.
  - intros z Hz. apply Hresult. split; [now right|]. done.
  - intros Hpurge z Hz. apply Hresult in Hz as [_ Hz]. auto.
Qed.

Lemma named_on_lb_same n f lbs :
  (∀ lb, boto.name (f lb) = boto.name lb) →
  named n (provider.on_lb n f lbs) = map f (named n lbs).
Proof.
  intros Hf. rewrite named_on_lb by done. apply map_ext_in.
  intros lb Hin. apply filter_In in Hin as [_ ->]. done.
Qed.

(** The zones of the load balancer after the calls of the zone diff. *)
Lemma zone_calls_replay n purge desired lbs lb rest :
  named n lbs = lb :: rest →
  ∃ lb' rest',
    named n (replay (zone_calls n purge desired (boto.availability_zones lb)) lbs)
    = lb' :: rest'
    ∧ boto.availability_zones lb'
      = diff_result purge desired (boto.availability_zones lb).
Proof.
  intros Hnamed. unfold zone_calls, diff_result.
  destruct (to_enable desired (boto.availability_zones lb)) as [|e0 en];
    destruct (to_disable purge desired (boto.availability_zones lb))
      as [[|d0 dis]|];
    cbn [app replay fold_left provider.effect];
    rewrite ?named_on_lb_same by done; rewrite ?Hnamed; cbn [map];
    eexists _, _; (split; [reflexivity|]); reflexivity.
Qed.

Lemma subnet_calls_replay n purge desired lbs lb rest :
  named n lbs = lb :: rest →
  ∃ lb' rest',
    named n (replay (subnet_calls n purge desired (boto.subnets lb)) lbs)
    = lb' :: rest'
    ∧ boto.subnets lb' = diff_result purge desired (boto.subnets lb).
Proof.
  intros Hnamed. unfold subnet_calls, diff_result.
  destruct (to_enable desired (boto.subnets lb)) as [|e0 en];
    destruct (to_disable purge desired (boto.subnets lb)) as [[|d0 dis]|];
    cbn [app replay fold_left provider.effect];
    rewrite ?named_on_lb_same by done; rewrite ?Hnamed; cbn [map];
    eexists _, _; (split; [reflexivity|]); reflexivity.
Qed.

(** The region at the end of a method that returns, from its log. *)
Lemma region_of_log {A} (m : M A) self a self' calls :
  invariant (replayed self) m →
  provider.zone_fault (elb_conn self) = None →
  m self = Return a self' →
  provider.log (elb_conn self') = provider.log (elb_conn self) ++ calls →
  provider.region_lbs (elb_conn self')
  = replay calls (provider.region_lbs (elb_conn self)).
Proof.
  intros Hm Hfault Hrun Hlog.
  destruct (Hm self (replayed_refl self Hfault)) as (_ & calls' & Hlog' & Hregion).
  rewrite Hrun in Hlog', Hregion. cbn in Hlog', Hregion.
  rewrite Hlog in Hlog'. apply app_inv_head in Hlog'. now subst calls'.
Qed.

(** The step makes no call when nothing is desired. *)
Lemma _set_zones_nothing_desired self :
  provider.or_empty (zones (args self)) = [] → _set_zones self = Return tt self.
Proof.
  intros Hnone. unfold _set_zones, mbind, M_bind, get.
  now destruct (zones (args self)) as [[|z zs]|].
Qed.

Lemma _set_subnets_nothing_desired self :
  provider.or_empty (subnets (args self)) = [] → _set_subnets self = Return tt self.
Proof.
  intros Hnone. unfold _set_subnets, mbind, M_bind, get.
  now destruct (subnets (args self)) as [[|z zs]|].
Qed.

Lemma or_empty_Some {A} (o : option (list A)) l :
  provider.or_empty o = l → l ≠ [] → o = Some l.
Proof. destruct o as [l'|]; cbn; [now intros ->|now intros <-]. Qed.

Lemma log_grows_by_nothing (log calls : list Call) :
  log ++ calls = log ↔ calls = [].
Proof.
  split; [|intros ->; apply app_nil_r].
  intros Heq. apply (app_inv_head log). now rewrite app_nil_r.
Qed.

(** X16. The zone step [_set_zones] and the subnet step [_set_subnets],
    on a manager that holds a load balancer, with the desired list of
    the arguments ([None] counting as empty) and the service accepting
    the zone calls.  The step returns, and it makes no call exactly when
    nothing is desired, whatever is live and whether purge is on or not,
    or the live list has everything desired and, under purge, nothing
    else.  With a desired list that is not empty, the calls leave the
    load balancer of the region with the live items and the desired
    ones, and under purge with the desired ones only; the lists are then
    in line: the same step, on a manager that holds what the region has
    now, makes no call. *)
Theorem zones_and_subnets_converge (n : string) (purge : bool)
    (desired live : list string) :
  (∀ self lb,
     provider.or_empty (zones (args self)) = desired →
     purge_zones (args self) = purge →
     elb self = Some lb → boto.name lb = n →
     boto.availability_zones lb = live →
     provider.zone_fault (elb_conn self) = None →
     ∃ self',
       _set_zones self = Return tt self'
       ∧ (provider.log (elb_conn self') = provider.log (elb_conn self)
          ↔ desired = [] ∨ in_line purge desired live)
       ∧ ∀ rest,
           desired ≠ [] →
           named n (provider.region_lbs (elb_conn self)) = lb :: rest →
           ∃ lb' rest',
             named n (provider.region_lbs (elb_conn self')) = lb' :: rest'
             ∧ reconciled purge desired live (boto.availability_zones lb')
             ∧ ∀ again,
                 provider.or_empty (zones (args again)) = desired →
                 purge_zones (args again) = purge →
                 elb again = Some lb' →
                 provider.zone_fault (elb_conn again) = None →
                 ∃ again',
                   _set_zones again = Return tt again'
                   ∧ provider.log (elb_conn again')
                     = provider.log (elb_conn again))
  ∧ (∀ self lb,
       provider.or_empty (subnets (args self)) = desired →
       purge_subnets (args self) = purge →
       elb self = Some lb → name (args self) = n →
       boto.subnets lb = live →
       ∃ self',
         _set_subnets self = Return tt self'
         ∧ (provider.log (elb_conn self') = provider.log (elb_conn self)
            ↔ desired = [] ∨ in_line purge desired live)
         ∧ ∀ rest,
             desired ≠ [] →
             provider.zone_fault (elb_conn self) = None →
             named n (provider.region_lbs (elb_conn self)) = lb :: rest →
             ∃ lb' rest',
               named n (provider.region_lbs (elb_conn self')) = lb' :: rest'
               ∧ reconciled purge desired live (boto.subnets lb')
               ∧ ∀ again,
                   provider.or_empty (subnets (args again)) = desired →
                   purge_subnets (args again) = purge →
                   elb again = Some lb' →
                   ∃ again',
                     _set_subnets again = Return tt again'
                     ∧ provider.log (elb_conn again')
                       = provider.log (elb_conn again)).
Proof.
  split.
  - intros self lb Hdesired Hpurge Hlb Hname Hlive Hfault.
    destruct (decide (desired = [])) as [Hnil|Hne].
    { exists self. rewrite Hnil in Hdesired.
      split; [now apply _set_zones_nothing_desired|].
      split; [split; [now left|done]|done]. }
    pose proof (or_empty_Some _ _ Hdesired Hne) as Hz.
    destruct (_set_zones_run self desired lb Hz Hne Hlb Hfault)
      as (self' & Hrun & Hlog).
    rewrite Hpurge, Hname, Hlive in Hlog.
    exists self'. split; [exact Hrun|]. split.
    { rewrite Hlog, log_grows_by_nothing, zone_calls_empty. tauto. }
    intros rest _ Hnamed.
    pose proof (region_of_log _ self tt self' _ (replay__set_zones self)
                  Hfault Hrun Hlog) as Hregion.
    destruct (zone_calls_replay n purge desired _ lb rest Hnamed)
      as (lb' & rest' & Hnamed' & Hzones).
    rewrite Hlive in Hnamed', Hzones.
    exists lb', rest'. split; [now rewrite Hregion|].
    assert (Hrec : reconciled purge desired live (boto.availability_zones lb')).
    { rewrite Hzones. apply diff_result_reconciled. }
    split; [exact Hrec|].
    intros again Hdesired' Hpurge' Hlb' Hfault'.
    pose proof (or_empty_Some _ _ Hdesired' Hne) as Hz'.
    destruct (_set_zones_run again desired lb' Hz' Hne Hlb' Hfault')
      as (again' & Hrun' & Hlog').
    exists again'. split; [exact Hrun'|].
    rewrite Hlog', Hpurge'. apply log_grows_by_nothing, zone_calls_empty.
    exact (reconciled_in_line _ _ _ _ Hrec).
  - intros self lb Hdesired Hpurge Hlb Hname Hlive.
    destruct (decide (desired = [])) as [Hnil|Hne].
    { exists self. rewrite Hnil in Hdesired.
      split; [now apply _set_subnets_nothing_desired|].
      split; [split; [now left|done]|done]. }
    pose proof (or_empty_Some _ _ Hdesired Hne) as Hs.
    destruct (_set_subnets_run self desired lb Hs Hne Hlb)
      as (self' & Hrun & Hlog).
    rewrite Hpurge, Hname, Hlive in Hlog.
    exists self'. split; [exact Hrun|]. split.
    { rewrite Hlog, log_grows_by_nothing, subnet_calls_empty. tauto. }
    intros rest _ Hfault Hnamed.
    assert (Hreplay : invariant (replayed self) _set_subnets).
    { unfold _set_subnets, _attach_subnets, _detach_subnets.
      walk_with (@replay_made_of self) (@invariant_bind (replayed self))
        (invariant_when (replayed self)) ltac:(fail). }
    pose proof (region_of_log _ self tt self' _ Hreplay Hfault Hrun Hlog)
      as Hregion.
    destruct (subnet_calls_replay n purge desired _ lb rest Hnamed)
      as (lb' & rest' & Hnamed' & Hsubnets).
    rewrite Hlive in Hnamed', Hsubnets.
    exists lb', rest'. split; [now rewrite Hregion|].
    assert (Hrec : reconciled purge desired live (boto.subnets lb')).
    { rewrite Hsubnets. apply diff_result_reconciled. }
    split; [exact Hrec|].
    intros again Hdesired' Hpurge' Hlb'.
    pose proof (or_empty_Some _ _ Hdesired' Hne) as Hs'.
    destruct (_set_subnets_run again desired lb' Hs' Hne Hlb')
      as (again' & Hrun' & Hlog').
    exists again'. split; [exact Hrun'|].
    rewrite Hlog', Hpurge'. apply log_grows_by_nothing, subnet_calls_empty.
    exact (reconciled_in_line _ _ _ _ Hrec).
Qed.

Lemma zones_and_subnets_converge_witness :
  let lb := web [live_80] [] no_policies in
  let self := manager (want_placement (Some ["us-east-1b"]) true None false)
                sample_runtime lb in
  let nothing := manager (want_placement (Some []) true None false)
                   sample_runtime lb in
  ∃ self' lb' rest',
    _set_zones self = Return tt self'
    ∧ provider.log (elb_conn self')
      = [enable_zones "web" ["us-east-1b"]; disable_zones "web" ["us-east-1a"]]
    ∧ named "web" (provider.region_lbs (elb_conn self')) = lb' :: rest'
    ∧ (∃ again',
         _set_zones (manager (args self) sample_runtime lb') = Return tt again'
         ∧ provider.log (elb_conn again') = [])
    ∧ ∃ nothing',
        _set_zones nothing = Return tt nothing'
        ∧ provider.log (elb_conn nothing') = provider.log (elb_conn nothing).
Proof.
  intros lb self nothing.
  destruct (zones_and_subnets_converge "web" true ["us-east-1b"] ["us-east-1a"])
    as (Hzones & _).
  destruct (Hzones self lb eq_refl eq_refl eq_refl eq_refl eq_refl eq_refl)
    as (self' & Hrun & _ & Hafter).
  destruct (Hafter [] ltac:(discriminate) eq_refl)
    as (lb' & rest' & Hnamed & _ & Hagain).
  destruct (Hagain (manager (args self) sample_runtime lb')
              eq_refl eq_refl eq_refl eq_refl)
    as (again' & Hrun' & Hlog').
  exists self', lb', rest'. split; [exact Hrun|].
  split; [|split; [exact Hnamed|split]].
  - assert (Hself : Return tt self' = _set_zones self) by (symmetry; exact Hrun).
    vm_compute in Hself. injection Hself as ->. reflexivity.
  - exists again'. split; [exact Hrun'|exact Hlog'].
  - destruct (zones_and_subnets_converge "web" true [] ["us-east-1a"])
      as (Hnothing & _).
    destruct (Hnothing nothing lb eq_refl eq_refl eq_refl eq_refl eq_refl eq_refl)
      as (nothing' & Hrun0 & Hlog0 & _).
    exists nothing'. split; [exact Hrun0|]. apply Hlog0. now left.
Defined.

(** ** Listeners in line *)

Lemma listener_of_tuple_port d l :
  provider.listener_of_tuple (_listener_as_tuple d) = Some l →
  boto.load_balancer_port l = params.load_balancer_port d.
Proof.
  unfold _listener_as_tuple.
  destruct (params.instance_protocol d), (params.ssl_certificate_id d);
    cbn; now intros [= <-].
Qed.

Lemma ports_of_spec (ls : list ListenerTuple) :
  (∀ t, t ∈ ls → t ≠ []) →
  ∀ p, p ∈ default [] (ports_of ls) ↔ ∃ t, t ∈ ls ∧ head t = Some p.
Proof.
  unfold ports_of. induction ls as [|t ls IH]; intros Hne p.
  - cbn. split; [intros Hin; inversion Hin|intros (t & Hin & _); inversion Hin].
  - assert (Ht : t ≠ []) by (apply Hne; left).
    assert (Hls : ∀ t', t' ∈ ls → t' ≠ []) by (intros t' ?; apply Hne; now right).
    specialize (IH Hls p).
    destruct t as [|v t]; [done|]. cbn.
    destruct (mapM head ls) as [ports|] eqn:Hports; cbn in *.
    + rewrite elem_of_cons, IH. split.
      * intros [-> |(t' & Hin & Hhead)].
        -- exists (v :: t). split; [left|done].
        -- exists t'. split; [now right|done].
      * intros (t' & Hin & Hhead). apply elem_of_cons in Hin as [-> |Hin].
        -- left. now injection Hhead as ->.
        -- right. eauto.
    + destruct (ports_of_nonempty ls Hls) as [ports Hsome].
      unfold ports_of in Hsome. congruence.
Qed.

Section ListenersInLine.

Variable ds : list params.Listener.
Variable purge : bool.
Variable es : list boto.Listener.
Hypothesis ds_ports : NoDup (map params.load_balancer_port ds).
Hypothesis es_ports : NoDup (map boto.load_balancer_port es).
Hypothesis ds_certificates : Forall certificate_kept ds.

Let plan := listener_plan ds purge es.
Let new := omap provider.listener_of_tuple (listeners_to_add plan).
Let es' := listeners_after plan es.

Lemma same_port_same_listener d d' :
  d ∈ ds → d' ∈ ds →
  params.load_balancer_port d = params.load_balancer_port d' → d = d'.
Proof.
  intros Hd Hd' Hport. revert ds_ports Hd Hd'. clear -Hport.
  induction ds as [|d0 l IH]; intros Hnd Hd Hd'; [inversion Hd|].
  cbn in Hnd. apply NoDup_cons in Hnd as [Hnot Hnd].
  apply elem_of_cons in Hd as [-> |Hd]; apply elem_of_cons in Hd' as [-> |Hd'].
  - done.
  - destruct Hnot. rewrite Hport. now apply list_elem_of_fmap_2.
  - destruct Hnot. rewrite <- Hport. now apply list_elem_of_fmap_2.
  - now apply IH.
Qed.

Lemma same_port_same_live e e' :
  e ∈ es → e' ∈ es →
  boto.load_balancer_port e = boto.load_balancer_port e' → e = e'.
Proof.
  intros He He' Hport. revert es_ports He He'. clear -Hport.
  induction es as [|e0 l IH]; intros Hnd He He'; [inversion He|].
  cbn in Hnd. apply NoDup_cons in Hnd as [Hnot Hnd].
  apply elem_of_cons in He as [-> |He]; apply elem_of_cons in He' as [-> |He'].
  - done.
  - destruct Hnot. rewrite Hport. now apply list_elem_of_fmap_2.
  - destruct Hnot. rewrite <- Hport. now apply list_elem_of_fmap_2.
  - now apply IH.
Qed.

(** A new listener is the one the service makes of the tuple of a
    desired listener that overwrites. *)
Lemma elem_of_new l :
  l ∈ new
  ↔ ∃ d, d ∈ ds ∧ overwrites es d
         ∧ provider.listener_of_tuple (_listener_as_tuple d) = Some l.
Proof.
  subst new. rewrite list_elem_of_omap. split.
  - intros (t & Ht & Hl). apply plan_add in Ht as (d & Hd & -> & Hover). eauto.
  - intros (d & Hd & Hover & Hl). exists (_listener_as_tuple d).
    split; [|done]. apply plan_add. eauto.
Qed.

Lemma new_tuple l d :
  d ∈ ds → provider.listener_of_tuple (_listener_as_tuple d) = Some l →
  _api_listener_as_tuple l = _listener_as_tuple d.
Proof.
  intros Hd Hl. destruct (listener_round_trip d) as (l' & Hl' & Hkept & _).
  rewrite Hl in Hl'. injection Hl' as <-. apply Hkept.
  exact (proj1 (Forall_forall _ _) ds_certificates d Hd).
Qed.

(** The listeners after the calls: the live ones that are on no port to
    remove and on no port of a new listener, and the new ones. *)
Lemma elem_of_listeners_after e :
  e ∈ es'
  ↔ (e ∈ es
     ∧ (∀ t, t ∈ listeners_to_remove plan →
             head t ≠ Some (VInt (boto.load_balancer_port e)))
     ∧ (∀ l, l ∈ new → boto.load_balancer_port l ≠ boto.load_balancer_port e))
    ∨ e ∈ new.
Proof.
  subst es'. unfold listeners_after. fold new.
  set (remaining := match listeners_to_remove plan with
                    | [] => es
                    | _ => _
                    end).
  assert (Hremaining : e ∈ remaining
                       ↔ e ∈ es
                         ∧ ∀ t, t ∈ listeners_to_remove plan →
                                head t ≠ Some (VInt (boto.load_balancer_port e))).
  { subst remaining.
    destruct (listeners_to_remove plan) as [|t0 ts] eqn:Hremove.
    - split; [|tauto]. intros He. split; [done|]. intros t Ht. inversion Ht.
    - rewrite <- Hremove. rewrite elem_of_List_filter, negb_true_iff,
        bool_decide_eq_false.
      rewrite ports_of_spec by (intros t; apply plan_remove_nonempty).
      split; intros [He Hnot]; (split; [done|]).
      + intros t Ht Hhead. apply Hnot. eauto.
      + intros (t & Ht & Hhead). exact (Hnot t Ht Hhead). }
  assert (Hports : (∀ l, l ∈ new →
                         boto.load_balancer_port l ≠ boto.load_balancer_port e)
                   ↔ boto.load_balancer_port e ∉ map boto.load_balancer_port new).
  { split.
    - intros Hnot Hin. apply list_elem_of_fmap in Hin as (l & Hport & Hl).
      exact (Hnot l Hl (eq_sym Hport)).
    - intros Hnot l Hl Hport. apply Hnot. rewrite <- Hport.
      now apply list_elem_of_fmap_2. }
  destruct (listeners_to_add plan) as [|t0 ts] eqn:Hadd.
  - assert (Hnew : new = []) by reflexivity.
    rewrite Hremaining, Hnew. split.
    + intros [? ?]. left. repeat split; try done. intros l Hl. inversion Hl.
    + intros [(? & ? & _)|Hl]; [done|inversion Hl].
  - rewrite elem_of_app, elem_of_List_filter, Hremaining.
    unfold provider.on_port. rewrite negb_true_iff, bool_decide_eq_false, Hports.
    tauto.
Qed.

(** After the calls every desired listener finds its own tuple on its
    port. *)
Lemma found_after d :
  d ∈ ds →
  existing_listener_found es' (params.load_balancer_port d)
  = Some (_listener_as_tuple d).
Proof.
  intros Hd.
  assert (Hunique : ∀ e, e ∈ es' →
            boto.load_balancer_port e = params.load_balancer_port d →
            _api_listener_as_tuple e = _listener_as_tuple d
            ∧ (overwrites es d → e ∈ new)).
  { intros e He Hport. apply elem_of_listeners_after in He as [(He & Hkeep & Hnew)|He].
    - assert (Hnot : ¬ overwrites es d).
      { intros Hover.
        destruct (listener_round_trip d) as (l & Hl & _).
        apply (Hnew l); [apply elem_of_new; eauto|].
        now rewrite (listener_of_tuple_port d l Hl). }
      split; [|done].
      destruct (existing_listener_found es (params.load_balancer_port d))
        as [t|] eqn:Hfound.
      + destruct (decide (t = _listener_as_tuple d)) as [-> |Hne].
        * apply found_Some_elem in Hfound as (e0 & He0 & Hport0 & Htuple0).
          rewrite <- Htuple0. f_equal.
          apply same_port_same_live; [done|done|congruence].
        * destruct Hnot. right. eauto.
      + destruct Hnot. now left.
    - apply elem_of_new in He as (d' & Hd' & Hover & Hl).
      assert (d' = d) as ->.
      { apply same_port_same_listener; [done|done|].
        now rewrite <- (listener_of_tuple_port d' e Hl). }
      split; [now apply new_tuple|]. intros _. apply elem_of_new. eauto. }
  assert (Hsome : ∃ e, e ∈ es' ∧ boto.load_balancer_port e = params.load_balancer_port d).
  { destruct (existing_listener_found es (params.load_balancer_port d))
      as [t|] eqn:Hfound.
    - destruct (decide (t = _listener_as_tuple d)) as [-> |Hne].
      + pose proof Hfound as Hfound0.
        apply found_Some_elem in Hfound as (e & He & Hport & Htuple).
        exists e. split; [|done]. apply elem_of_listeners_after. left.
        split; [done|]. split.
        * intros t Ht Hhead. apply plan_remove in Ht as [Ht|(_ & e1 & He1 & -> & Hnot)].
          -- apply plan_checked_remove in Ht as (d1 & Hd1 & Hfound1 & Hne1).
             pose proof Hfound1 as Hfound1'.
             apply found_Some_elem in Hfound1 as (e1 & He1 & Hport1 & <-).
             rewrite api_tuple_head in Hhead. injection Hhead as Hport'.
             assert (d1 = d) as ->.
             { apply same_port_same_listener; [done|done|congruence]. }
             rewrite Hfound0 in Hfound1'. congruence.
          -- rewrite api_tuple_head in Hhead. injection Hhead as Hport'.
             assert (e1 = e) as -> by now apply same_port_same_live.
             apply Hnot. apply plan_keep. exists d. rewrite Htuple. eauto.
        * intros l Hl Hport'. apply elem_of_new in Hl as (d1 & Hd1 & Hover & Hl).
          assert (d1 = d) as ->.
          { apply same_port_same_listener; [done|done|].
            rewrite <- (listener_of_tuple_port d1 l Hl). congruence. }
          destruct Hover as [Hnone|(t & Hsome & Hne)]; congruence.
      + destruct (listener_round_trip d) as (l & Hl & _).
        exists l. split; [|exact (listener_of_tuple_port d l Hl)].
        apply elem_of_listeners_after. right. apply elem_of_new.
        exists d. split; [done|]. split; [right; eauto|done].
    - destruct (listener_round_trip d) as (l & Hl & _).
      exists l. split; [|exact (listener_of_tuple_port d l Hl)].
      apply elem_of_listeners_after. right. apply elem_of_new.
      exists d. split; [done|]. split; [now left|done]. }
  destruct (existing_listener_found es' (params.load_balancer_port d))
    as [t|] eqn:Hfound.
  - apply found_Some_elem in Hfound as (e & He & Hport & <-).
    f_equal. exact (proj1 (Hunique e He Hport)).
  - destruct Hsome as (e & He & Hport).
    exact (False_ind _ (proj1 (found_None es' _) Hfound e He Hport)).
Qed.

(** A second diff, on the listeners the calls have left, has nothing to
    add and nothing to remove. *)
Lemma plan_after_empty :
  listeners_to_add (listener_plan ds purge es') = []
  ∧ listeners_to_remove (listener_plan ds purge es') = [].
Proof.
  split.
  - destruct (listeners_to_add (listener_plan ds purge es')) as [|t ts] eqn:Hadd;
      [done|].
    assert (Ht : t ∈ listeners_to_add (listener_plan ds purge es'))
      by (rewrite Hadd; left).
    apply plan_add in Ht as (d & Hd & -> & [Hnone|(t & Hsome & Hne)]);
      rewrite (found_after d Hd) in *; congruence.
  - destruct (listeners_to_remove (listener_plan ds purge es')) as [|t ts] eqn:Hremove;
      [done|].
    assert (Ht : t ∈ listeners_to_remove (listener_plan ds purge es'))
      by (rewrite Hremove; left).
    apply plan_remove in Ht as [Ht|(Hpurge & e & He & -> & Hnot)].
    + apply plan_checked_remove in Ht as (d & Hd & Hfound & Hne).
      rewrite (found_after d Hd) in Hfound. congruence.
    + destruct Hnot. apply plan_keep.
      apply elem_of_listeners_after in He as [(He & Hkeep & Hnew)|He].
      * assert (Hkept : _api_listener_as_tuple e
                        ∈ listeners_to_keep (checked_plan ds es)).
        { destruct (decide (_api_listener_as_tuple e
                            ∈ listeners_to_keep (checked_plan ds es)))
            as [?|Hnotkept]; [done|].
          destruct (Hkeep (_api_listener_as_tuple e)); [|apply api_tuple_head].
          apply plan_remove. right. split; [exact Hpurge|]. eauto. }
        apply plan_keep in Hkept as (d & Hd & Hfound & Htuple).
        exists d. split; [done|]. rewrite Htuple. split; [|done].
        now apply found_after.
      * apply elem_of_new in He as (d & Hd & Hover & Hl).
        exists d. split; [done|]. rewrite (new_tuple e d Hd Hl).
        split; [|done]. now apply found_after.
Qed.

End ListenersInLine.

Lemma listener_calls_replay n plan lbs lb rest :
  named n lbs = lb :: rest →
  ∃ lb' rest',
    named n (replay (listener_calls n plan) lbs) = lb' :: rest'
    ∧ boto.listeners lb' = listeners_after plan (boto.listeners lb).
Proof.
  intros Hnamed. unfold listener_calls, listeners_after.
  destruct (listeners_to_remove plan) as [|r0 rs];
    destruct (listeners_to_add plan) as [|a0 adds];
    cbn [app replay fold_left provider.effect];
    rewrite ?named_on_lb_same by done; rewrite ?Hnamed; cbn [map];
    eexists _, _; (split; [reflexivity|]); reflexivity.
Qed.

(** The tuple of a desired listener whose certificate is the empty
    string is the tuple of no live listener. *)
Lemma empty_certificate_tuple d c e :
  params.ssl_certificate_id d = Some c → py_str c = "" →
  _api_listener_as_tuple e ≠ _listener_as_tuple d.
Proof.
  intros Hc Hempty. rewrite listener_tuple_shape, Hc, Hempty.
  unfold _api_listener_as_tuple, boto.get_complex_tuple.
  destruct (boto.ssl_certificate_id e) as [cert|]; [|done].
  destruct (String.eqb cert "") eqn:Hcert; cbn; [done|].
  apply String.eqb_neq in Hcert. intros Heq. apply Hcert.
  now injection Heq.
Qed.

(** X17. The listener step on a load balancer whose listeners have one
    port each, for desired listeners with one port each and no empty
    certificate: after its calls every desired listener finds its own
    tuple on its port among the listeners of the region, and the diff on
    these has nothing to add and nothing to remove, so that the same
    step, on a manager that holds what the region has now, makes no
    call.  A desired listener whose certificate is the empty string is
    in the additions of every diff, whatever the live listeners. *)
Theorem listeners_converge (ds : list params.Listener) (purge : bool) :
  (∀ self lb rest,
     listeners (args self) = Some ds → purge_listeners (args self) = purge →
     elb self = Some lb →
     provider.zone_fault (elb_conn self) = None →
     named (name (args self)) (provider.region_lbs (elb_conn self)) = lb :: rest →
     NoDup (map params.load_balancer_port ds) →
     NoDup (map boto.load_balancer_port (boto.listeners lb)) →
     Forall certificate_kept ds →
     ∃ self' lb' rest',
       _set_elb_listeners self = Return tt self'
       ∧ named (name (args self)) (provider.region_lbs (elb_conn self'))
         = lb' :: rest'
       ∧ boto.listeners lb'
         = listeners_after (listener_plan ds purge (boto.listeners lb))
             (boto.listeners lb)
       ∧ (∀ d, d ∈ ds →
               existing_listener_found (boto.listeners lb')
                 (params.load_balancer_port d)
               = Some (_listener_as_tuple d))
       ∧ listener_calls (name (args self))
           (listener_plan ds purge (boto.listeners lb')) = [])
  ∧ (∀ d c es,
       d ∈ ds → params.ssl_certificate_id d = Some c → py_str c = "" →
       _listener_as_tuple d ∈ listeners_to_add (listener_plan ds purge es)).
Proof.
  split.
  - intros self lb rest Hds Hpurge Hlb Hfault Hnamed Hnd_ds Hnd_es Hkept.
    destruct (_set_elb_listeners_run self ds lb Hds Hlb)
      as (self' & Hrun & Hlog & _).
    cbv zeta in Hlog. rewrite Hpurge in Hlog.
    assert (Hreplay : invariant (replayed self) _set_elb_listeners).
    { unfold _set_elb_listeners, _delete_elb_listeners, _create_elb_listeners.
      walk_with (@replay_made_of self) (@invariant_bind (replayed self))
        (invariant_when (replayed self)) ltac:(fail). }
    pose proof (region_of_log _ self tt self' _ Hreplay Hfault Hrun Hlog)
      as Hregion.
    destruct (listener_calls_replay (name (args self))
                (listener_plan ds purge (boto.listeners lb)) _ lb rest Hnamed)
      as (lb' & rest' & Hnamed' & Hlisteners).
    exists self', lb', rest'. split; [exact Hrun|].
    split; [now rewrite Hregion|]. split; [exact Hlisteners|].
    rewrite Hlisteners. split.
    + intros d Hd. now apply found_after.
    + destruct (plan_after_empty ds purge (boto.listeners lb) Hnd_ds Hnd_es Hkept)
        as [Hadd Hremove].
      unfold listener_calls. now rewrite Hadd, Hremove.
  - intros d c es Hd Hc Hempty. apply plan_add. exists d.
    split; [done|]. split; [done|].
    destruct (existing_listener_found es (params.load_balancer_port d))
      as [t|] eqn:Hfound; [|now left].
    right. exists t. split; [done|].
    apply found_Some_elem in Hfound as (e & _ & _ & <-).
    now apply (empty_certificate_tuple d c e).
Qed.

Lemma listeners_converge_witness :
  let lb := web [live_80_to_8080; live_22] [] no_policies in
  let self := manager (want_web [http_80] None None) sample_runtime lb in
  ∃ self' lb' rest',
    _set_elb_listeners self = Return tt self'
    ∧ provider.log (elb_conn self')
      = [delete_load_balancer_listeners "web" [VInt 80; VInt 22];
         create_load_balancer_listeners "web" [_listener_as_tuple http_80]]
    ∧ named "web" (provider.region_lbs (elb_conn self')) = lb' :: rest'
    ∧ map _api_listener_as_tuple (boto.listeners lb') = [_listener_as_tuple http_80]
    ∧ listener_calls "web" (listener_plan [http_80] true (boto.listeners lb')) = [].
Proof.
  intros lb self.
  destruct (listeners_converge [http_80] true) as [Hconverge _].
  destruct (Hconverge self lb [] eq_refl eq_refl eq_refl eq_refl eq_refl)
    as (self' & lb' & rest' & Hrun & Hnamed & Hlisteners & _ & Hcalls).
  - apply (bool_decide_unpack _). vm_compute. reflexivity.
  - apply (bool_decide_unpack _). vm_compute. reflexivity.
  - constructor; [|constructor]. intros c Hc. discriminate Hc.
  - exists self', lb', rest'. split; [exact Hrun|].
    split; [|split; [exact Hnamed|split; [|exact Hcalls]]].
    + assert (Hself : Return tt self' = _set_elb_listeners self)
        by (symmetry; exact Hrun).
      vm_compute in Hself. injection Hself as ->. reflexivity.
    + rewrite Hlisteners. vm_compute. reflexivity.
Defined.

(** ** The health check in line *)

Lemma _set_health_check_run self desired lb :
  health_check (args self) = Some desired → elb self = Some lb →
  let current := default (new_HealthCheck (runtime self)) (boto.health_check lb) in
  let wanted := desired_health_check desired in
  _set_health_check self
  = if bool_decide (current = wanted)
    then Return tt
           (set_elb (Some (provider.with_health_check (Some wanted) lb)) self)
    else Return tt
           (set_changed true
              (set_elb_conn
                 (provider.received
                    (configure_health_check (boto.name lb) wanted)
                    (elb_conn self))
                 (set_elb (Some (provider.with_health_check (Some wanted) lb))
                    self))).
Proof.
  intros Hhc Hlb current wanted.
  destruct (compare_attr_fold current desired) as (update & Hfold & Hupdate).
  unfold _set_health_check, mbind, M_bind, get, the_elb.
  rewrite Hhc, Hlb.
  change (match boto.health_check lb with
          | Some hc => hc
          | None => new_HealthCheck (runtime self)
          end) with current.
  rewrite Hfold. fold wanted in Hupdate |- *.
  case_bool_decide as Hsame.
  - destruct update; [|reflexivity]. destruct (proj1 Hupdate eq_refl Hsame).
  - destruct update; [reflexivity|]. discriminate (proj2 Hupdate Hsame).
Qed.

(** X18. The health check step on a manager that holds the load
    balancer of the region: it returns, and afterwards the health check
    of the load balancer in the region, or the one [HealthCheck()] makes
    when it has none, is the desired one, attribute by attribute.  The
    object the manager holds carries the desired health check whether a
    call was made or not.  The same step on a manager that holds what
    the region has now makes no call and leaves [changed] alone. *)
Theorem health_check_converges (self : ElbManager) (desired : params.HealthCheck)
    (lb : boto.LoadBalancer) (rest : list boto.LoadBalancer) :
  health_check (args self) = Some desired →
  elb self = Some lb →
  named (boto.name lb) (provider.region_lbs (elb_conn self)) = lb :: rest →
  let wanted := desired_health_check desired in
  ∃ self' lb' rest',
    _set_health_check self = Return tt self'
    ∧ named (boto.name lb) (provider.region_lbs (elb_conn self')) = lb' :: rest'
    ∧ default (new_HealthCheck (runtime self)) (boto.health_check lb') = wanted
    ∧ (∀ attr,
         getattr (default (new_HealthCheck (runtime self)) (boto.health_check lb'))
           attr
         = getattr wanted attr)
    ∧ (boto.health_check <$> elb self') = Some (Some wanted)
    ∧ ∀ again,
        health_check (args again) = Some desired →
        elb again = Some lb' → runtime again = runtime self →
        ∃ again',
          _set_health_check again = Return tt again'
          ∧ elb_conn again' = elb_conn again
          ∧ changed again' = changed again.
Proof.
  intros Hhc Hlb Hnamed wanted.
  pose proof (_set_health_check_run self desired lb Hhc Hlb) as Hrun.
  cbv zeta in Hrun. fold wanted in Hrun.
  assert (Hagain : ∀ lb',
            default (new_HealthCheck (runtime self)) (boto.health_check lb') = wanted →
            ∀ again,
              health_check (args again) = Some desired →
              elb again = Some lb' → runtime again = runtime self →
              ∃ again',
                _set_health_check again = Return tt again'
                ∧ elb_conn again' = elb_conn again
                ∧ changed again' = changed again).
  { intros lb' Hsame again Hhc' Hlb' Hrt.
    pose proof (_set_health_check_run again desired lb' Hhc' Hlb') as Hrun'.
    cbv zeta in Hrun'. rewrite Hrt, Hsame in Hrun'.
    rewrite bool_decide_true in Hrun' by done.
    eexists. split; [exact Hrun'|]. done. }
  case_bool_decide as Hsame.
  - exists (set_elb (Some (provider.with_health_check (Some wanted) lb)) self),
      lb, rest.
    split; [exact Hrun|]. split; [exact Hnamed|]. split; [exact Hsame|].
    split; [now rewrite Hsame|]. split; [done|]. now apply Hagain.
  - destruct (placed_on_lb (boto.name lb) (boto.name lb)
                (provider.with_health_check (Some wanted))
                (provider.region_lbs (elb_conn self)) lb rest lb)
      as (lb' & rest' & Hnamed' & _); [repeat split|done|apply same_placement_refl|].
    assert (Hhc' : boto.health_check lb' = Some wanted).
    { rewrite named_on_lb_same in Hnamed' by done. rewrite Hnamed in Hnamed'.
      cbn in Hnamed'. now injection Hnamed' as <- _. }
    eexists _, lb', rest'. split; [exact Hrun|].
    split; [exact Hnamed'|]. rewrite Hhc'. cbn [default].
    split; [done|]. split; [done|]. split; [done|].
    apply Hagain. now rewrite Hhc'.
Qed.

Lemma health_check_converges_witness :
  let lb := web [live_80] [] no_policies in
  let self := manager (want_health_check ping_index) sample_runtime lb in
  ∃ self' lb' rest',
    _set_health_check self = Return tt self'
    ∧ named "web" (provider.region_lbs (elb_conn self')) = lb' :: rest'
    ∧ boto.health_check lb' = Some (desired_health_check ping_index).
Proof.
  intros lb self.
  destruct (health_check_converges self ping_index lb [] eq_refl eq_refl eq_refl)
    as (self' & lb' & rest' & Hrun & Hnamed & Hsame & _).
  exists self', lb', rest'. split; [exact Hrun|]. split; [exact Hnamed|].
  assert (Hself : Return tt self' = _set_health_check self)
    by (symmetry; exact Hrun).
  vm_compute in Hself. injection Hself as ->.
  vm_compute in Hnamed. injection Hnamed as <- _. reflexivity.
Defined.

(** ** The health check target *)

(** X19. The target of the health check is the ping protocol in upper
    case, a colon, the port as a string, and the ping path only when the
    protocol is HTTP or HTTPS.  Two health checks that differ in the
    letter case of the protocol, in the way the port is written, or in a
    ping path given for another protocol, have the same target; with
    the same timeout, interval and thresholds the health check step
    then does the same for both. *)
Theorem health_check_target_normalised (hc hc' : params.HealthCheck) :
  upper (params.ping_protocol hc) = upper (params.ping_protocol hc') →
  py_str (params.ping_port hc) = py_str (params.ping_port hc') →
  (upper (params.ping_protocol hc) ∈ ["HTTP"; "HTTPS"] →
   default "" (params.ping_path hc) = default "" (params.ping_path hc')) →
  let protocol := upper (params.ping_protocol hc) in
  _get_health_check_target hc
  = (protocol ++ ":" ++ py_str (params.ping_port hc)
     ++ (if bool_decide (protocol ∈ ["HTTP"; "HTTPS"])
         then default "" (params.ping_path hc) else ""))%string
  ∧ _get_health_check_target hc = _get_health_check_target hc'
  ∧ (params.response_timeout hc = params.response_timeout hc' →
     params.interval hc = params.interval hc' →
     params.unhealthy_threshold hc = params.unhealthy_threshold hc' →
     params.healthy_threshold hc = params.healthy_threshold hc' →
     desired_health_check hc = desired_health_check hc'
     ∧ ∀ self self' lb,
         health_check (args self) = Some hc →
         health_check (args self') = Some hc' →
         elb self = Some lb → elb self' = Some lb →
         runtime self' = runtime self → elb_conn self' = elb_conn self →
         elb_conn (final (_set_health_check self'))
         = elb_conn (final (_set_health_check self))).
Proof.
  intros Hprotocol Hport Hpath protocol.
  assert (Hshape : ∀ h,
            _get_health_check_target h
            = (upper (params.ping_protocol h) ++ ":" ++ py_str (params.ping_port h)
               ++ (if bool_decide (upper (params.ping_protocol h) ∈ ["HTTP"; "HTTPS"])
                   then default "" (params.ping_path h) else ""))%string).
  { intros h. unfold _get_health_check_target.
    destruct (params.ping_path h); [done|]. now destruct (bool_decide _). }
  assert (Htarget : _get_health_check_target hc = _get_health_check_target hc').
  { rewrite !Hshape, <- Hprotocol, <- Hport. fold protocol.
    case_bool_decide as Hhttp; [|done]. now rewrite (Hpath Hhttp). }
  split; [apply Hshape|]. split; [exact Htarget|].
  intros Htimeout Hinterval Hunhealthy Hhealthy.
  assert (Hwanted : desired_health_check hc = desired_health_check hc').
  { unfold desired_health_check. congruence. }
  split; [exact Hwanted|].
  intros self self' lb Hhc Hhc' Hlb Hlb' Hrt Hconn.
  rewrite (_set_health_check_run self hc lb Hhc Hlb).
  rewrite (_set_health_check_run self' hc' lb Hhc' Hlb').
  cbv zeta. rewrite Hrt, <- Hwanted.
  case_bool_decide; cbn; [done|]. now rewrite Hconn.
Qed.

Lemma health_check_target_normalised_witness :
  let tcp path :=
    {| params.ping_protocol := "tcp"; params.ping_port := VInt 22;
       params.ping_path := path;
       params.response_timeout := VInt 5; params.interval := VInt 30;
       params.unhealthy_threshold := VInt 2;
       params.healthy_threshold := VInt 10 |} in
  _get_health_check_target (tcp (Some "/ignored")) = "TCP:22"
  ∧ _get_health_check_target (tcp (Some "/ignored"))
    = _get_health_check_target (tcp None).
Proof.
  intros tcp.
  destruct (health_check_target_normalised (tcp (Some "/ignored")) (tcp None)
              eq_refl eq_refl) as (Hshape & Hsame & _).
  - intros Hhttp. exfalso. revert Hhttp. apply (bool_decide_unpack _).
    vm_compute. reflexivity.
  - split; [|exact Hsame]. rewrite Hshape. vm_compute. reflexivity.
Defined.

(** ** The name of the stickiness policies *)

Lemma has_char_cons sep c r :
  has_char sep (String c r) = Ascii.eqb c sep || has_char sep r.
Proof.
  unfold has_char, contains. cbn [String.index String.prefix].
  destruct (ascii_dec sep c) as [<- |Hne].
  - rewrite Ascii.eqb_refl. now destruct r.
  - assert (Hneq : Ascii.eqb c sep = false).
    { apply Ascii.eqb_neq. congruence. }
    rewrite Hneq. cbn [orb].
    now destruct (String.index 0 (String sep "") r).
Qed.

Lemma has_char_app_sep sep dir base :
  has_char sep (dir ++ String sep base)%string = true.
Proof.
  induction dir as [|c dir IH].
  - change (has_char sep (String sep base) = true).
    now rewrite has_char_cons, Ascii.eqb_refl.
  - change (has_char sep (String c (dir ++ String sep base)) = true).
    rewrite has_char_cons, IH. apply orb_true_r.
Qed.

Lemma split_last_no_sep sep s : has_char sep (split_last sep s) = false.
Proof.
  induction s as [|c r IH]; [done|]. cbn [split_last].
  destruct (Ascii.eqb c sep) eqn:Hc; [exact IH|].
  fold (has_char sep r). destruct (has_char sep r) eqn:Hr; [exact IH|].
  now rewrite has_char_cons, Hc, Hr.
Qed.

Lemma split_last_id sep s : has_char sep s = false → split_last sep s = s.
Proof.
  destruct s as [|c r]; [done|]. rewrite has_char_cons.
  intros [Hc Hr]%orb_false_elim. cbn [split_last]. rewrite Hc.
  fold (has_char sep r). now rewrite Hr.
Qed.

Lemma split_last_app sep dir base :
  split_last sep (dir ++ String sep base)%string = split_last sep base.
Proof.
  induction dir as [|c dir IH].
  - change (split_last sep (String sep base) = split_last sep base).
    cbn [split_last]. now rewrite Ascii.eqb_refl.
  - change (split_last sep (String c (dir ++ String sep base))
            = split_last sep base).
    cbn [split_last]. destruct (Ascii.eqb c sep); [exact IH|].
    fold (has_char sep (dir ++ String sep base)%string).
    now rewrite has_char_app_sep.
Qed.

Lemma replace_no_char a b s : a ≠ b → has_char a (replace a b s) = false.
Proof.
  intros Hab. induction s as [|c r IH]; [done|]. cbn [replace].
  rewrite has_char_cons, IH, orb_false_r.
  destruct (Ascii.eqb c a) eqn:Hc; [|exact Hc].
  apply Ascii.eqb_neq. congruence.
Qed.

Lemma replace_other_char a b sep s :
  sep ≠ a → sep ≠ b → has_char sep (replace a b s) = has_char sep s.
Proof.
  intros Ha Hb. induction s as [|c r IH]; [done|]. cbn [replace].
  rewrite !has_char_cons, IH. f_equal.
  destruct (Ascii.eqb c a) eqn:Hc; [|done].
  apply Ascii.eqb_eq in Hc as ->.
  transitivity false; [|symmetry]; apply Ascii.eqb_neq; congruence.
Qed.

Lemma append_inv_head (p s s' : string) : (p ++ s = p ++ s')%string → s = s'.
Proof.
  induction p as [|c p IH]; simpl; [done|].
  intros [= H]. now apply IH.
Qed.

(** X20. The name of a stickiness policy depends on the module file
    through its base name only, the part after the last slash, whatever
    the directory: it is that base name with every underscore turned
    into a hyphen, a hyphen, and the policy type.  The part before the
    type has no underscore and no slash, and different policy types have
    different names. *)
Theorem policy_name_of_file (self : ElbManager) (dir base : string) :
  file (runtime self) = (dir ++ "/" ++ base)%string →
  has_char "/" base = false →
  (∀ policy_type,
     _policy_name self policy_type
     = (replace "_" "-" base ++ "-" ++ policy_type)%string)
  ∧ (∀ other dir' policy_type,
       file (runtime other) = (dir' ++ "/" ++ base)%string
       ∨ file (runtime other) = base →
       _policy_name other policy_type = _policy_name self policy_type)
  ∧ has_char "_" (replace "_" "-" base) = false
  ∧ has_char "/" (replace "_" "-" base) = false
  ∧ (∀ policy_type policy_type',
       _policy_name self policy_type = _policy_name self policy_type' →
       policy_type = policy_type').
Proof.
  intros Hfile Hbase.
  assert (Hname : ∀ other,
            split_last "/" (file (runtime other)) = base →
            ∀ policy_type,
              _policy_name other policy_type
              = (replace "_" "-" base ++ "-" ++ policy_type)%string).
  { intros other Hother policy_type. unfold _policy_name. now rewrite Hother. }
  assert (Hself : split_last "/" (file (runtime self)) = base).
  { rewrite Hfile. change (dir ++ "/" ++ base)%string
      with (dir ++ String "/" base)%string.
    rewrite split_last_app. now apply split_last_id. }
  split; [exact (Hname self Hself)|]. split; [|split; [|split]].
  - intros other dir' policy_type Hother.
    rewrite (Hname self Hself). apply Hname.
    destruct Hother as [-> | ->]; [|now apply split_last_id].
    change (dir' ++ "/" ++ base)%string with (dir' ++ String "/" base)%string.
    rewrite split_last_app. now apply split_last_id.
  - now apply replace_no_char.
  - now rewrite replace_other_char.
  - intros policy_type policy_type'. rewrite !(Hname self Hself).
    intros Heq%append_inv_head. now injection Heq.
Qed.

Lemma policy_name_of_file_witness :
  let self := manager (want_web [http_80] None None) sample_runtime
                (web [live_80] [] no_policies) in
  _policy_name self "LBCookieStickinessPolicyType"
  = "ec2-elb-lb-LBCookieStickinessPolicyType"
  ∧ _policy_name self "LBCookieStickinessPolicyType"
    ≠ _policy_name self "AppCookieStickinessPolicyType".
Proof.
  intros self.
  destruct (policy_name_of_file self "/usr/share/ansible" "ec2_elb_lb"
              eq_refl eq_refl) as (Hname & _ & _ & _ & Hinj).
  split; [now rewrite Hname|].
  intros Heq. apply Hinj in Heq. discriminate Heq.
Defined.
